(** * FromVulkanToDirectX12: frame synchronisation and GPU upload staging

  A shallow embedding of the DirectX12 renderer's helper functions
  ([GenerateMipMaps], [SubmitTextureToGPU], [SubmitBufferToGPU]), of its
  swapchain fence protocol in the render loop, and of the call-site
  structure of the three [main] functions of the repository. Further
  parts embed where [GenerateMipMaps] reads and writes the levels, the
  texture block of [main], [WaitDeviceIdle] with the device fence, the
  render-target view handles, the index buffer of the mesh, and device
  discovery and the swapchain choices of the Vulkan renderer.

  Conventions: [uint32_t]/[UINT32] values are integers reduced by [u32],
  [uint64_t]/[UINT64] by [u64], [UINT16] by [u16]; a [std::vector] or
  [std::array] is a list, read with [!!]; an access outside its bounds is
  undefined behaviour and makes the embedded function return [None] or
  [Undefined]. *)

From Stdlib Require Import ZArith Lia String List.
From stdpp Require Import base list.
Import ListNotations.

Local Open Scope Z_scope.

(** ** Machine integers *)

Definition u16 (z : Z) : Z := z mod 2 ^ 16.
Definition u32 (z : Z) : Z := z mod 2 ^ 32.
Definition u64 (z : Z) : Z := z mod 2 ^ 64.

Definition sumZ (l : list Z) : Z := foldr Z.add 0 l.

(** [EXIT_FAILURE] of <cstdlib>. *)
Definition EXIT_FAILURE : Z := 1.

(** ** SA::Vec2ui *)

Module SA.
Record Vec2ui : Type := mkVec2ui { x : Z; y : Z }.
End SA.

(** ** Mip chains: GenerateMipMaps and SubmitTextureToGPU *)

Module Mip.

(** One turn of the size loop of [GenerateMipMaps]:
    [if (_extent.x > 1) _extent.x >>= 1; if (_extent.y > 1) _extent.y >>= 1;] *)
Definition halve (v : Z) : Z := if 1 <? v then Z.shiftr v 1 else v.

Definition next_extent (e : SA.Vec2ui) : SA.Vec2ui :=
  SA.mkVec2ui (halve (SA.x e)) (halve (SA.y e)).

(** [_extent.x * _extent.y * _channelNum * _layerNum * sizeof(stbi_uc)]:
    the first three products are [uint32_t] products, the last one is taken
    in [size_t] (64 bits) with [sizeof(stbi_uc) = 1]. *)
Definition level_size (e : SA.Vec2ui) (_channelNum _layerNum : Z) : Z :=
  u64 (u32 (u32 (u32 (SA.x e * SA.y e) * _channelNum) * _layerNum) * 1).

(** The loop [for (i = 0; i < _outMipLevels; ++i)] that fills [_outExtents]
    and accumulates [_outTotalSize] ([+=] on a [uint32_t&] with a 64-bit
    right-hand side). *)
Fixpoint size_loop (n : nat) (_extent : SA.Vec2ui) (_outTotalSize : Z)
    (_channelNum _layerNum : Z) : list SA.Vec2ui * Z :=
  match n with
  | O => ([], _outTotalSize)
  | S n' =>
      let total := u32 (u64 (_outTotalSize + level_size _extent _channelNum _layerNum)) in
      let '(es, t) := size_loop n' (next_extent _extent) total _channelNum _layerNum in
      (_extent :: es, t)
  end.

(** [std::vector<char>::resize]: truncate, or pad with value-initialised
    chars. *)
Definition resize (d : list Byte.byte) (n : Z) : list Byte.byte :=
  take (Z.to_nat n) d ++ replicate (Z.to_nat n - length d)%nat Byte.x00.

(** The inner loop [for (j = 0; j < _layerNum; ++j)] around
    [stbir_resize_uint8_linear]; [stbir_ok i j] tells whether the call for
    mip [i], layer [j] succeeds. The result is [false] as soon as one call
    fails (the function logs and returns). *)
Fixpoint resize_layers (stbir_ok : nat -> nat -> bool) (i j n : nat) : bool :=
  match n with
  | O => true
  | S n' => if stbir_ok i j then resize_layers stbir_ok i (S j) n' else false
  end.

(** The outer loop [for (i = 1; i < _outMipLevels; ++i)]. *)
Fixpoint generate (stbir_ok : nat -> nat -> bool) (i n layers : nat) : bool :=
  match n with
  | O => true
  | S n' =>
      if resize_layers stbir_ok i 0 layers
      then generate stbir_ok (S i) n' layers
      else false
  end.

Record MipResult : Type := mkMipResult {
  data : list Byte.byte;              (* _data, after resize *)
  outMipLevels : Z;                   (* _outMipLevels *)
  outTotalSize : Z;                   (* _outTotalSize *)
  outExtents : list SA.Vec2ui;        (* _outExtents *)
  log : list string                   (* SA_LOG(..., Error, STB) lines *)
}.

(** [static_cast<uint32_t>(std::floor(std::log2(max(_extent.x, _extent.y)))) + 1].
    For an integer argument [1 <= m < 2^32] the double [log2 m] lies in the
    same unit interval as the real logarithm, so its floor is [Z.log2 m];
    for [m = 0] the logarithm is minus infinity and the conversion to
    [uint32_t] is undefined: [None]. *)
Definition mip_count (_extent : SA.Vec2ui) : option Z :=
  let m := Z.max (SA.x _extent) (SA.y _extent) in
  if 1 <=? m then Some (u32 (Z.log2 m + 1)) else None.

(** [GenerateMipMaps]. The pixels written by [stbir_resize_uint8_linear]
    are the business of stb_image_resize2; the embedding keeps the size of
    [_data] and whether a resize failed. *)
Definition GenerateMipMaps (_extent : SA.Vec2ui) (_data : list Byte.byte)
    (_outTotalSize : Z) (_channelNum _layerNum : Z)
    (stbir_ok : nat -> nat -> bool) : option MipResult :=
  match mip_count _extent with
  | None => None
  | Some mips =>
      let '(exts, total) :=
        size_loop (Z.to_nat mips) _extent _outTotalSize _channelNum _layerNum in
      let ok := generate stbir_ok 1 (Z.to_nat mips - 1) (Z.to_nat _layerNum) in
      Some (mkMipResult (resize _data total) mips total exts
              (if ok then [] else ["Mip map creation failed!"%string]))
  end.

End Mip.

(** ** Staging uploads: SubmitBufferToGPU and SubmitTextureToGPU *)

Module Upload.

(** The resource states the program passes as [_stateAfter]. *)
Inductive D3D12_RESOURCE_STATES : Type :=
| D3D12_RESOURCE_STATE_VERTEX_AND_CONSTANT_BUFFER
| D3D12_RESOURCE_STATE_INDEX_BUFFER
| D3D12_RESOURCE_STATE_PIXEL_SHADER_RESOURCE.

(** Commands recorded on [cmdLists[0]] by the two upload helpers. *)
Inductive Cmd : Type :=
| CopyBufferRegion (NumBytes : Z)
| CopyTextureRegion (SubresourceIndex Offset Width Height RowPitch : Z)
| ResourceBarrier (StateAfter : D3D12_RESOURCE_STATES).

(** The globals the helpers touch: the open command list [cmdLists[0]], the
    command lists handed to [graphicsQueue->ExecuteCommandLists] so far,
    [deviceFenceValue], and the lines written by [SA_LOG]. *)
Record Device : Type := mkDevice {
  cmdList0 : list Cmd;
  executed : list (list Cmd);
  deviceFenceValue : Z;
  log : list string
}.

Inductive Outcome (A : Type) : Type :=
| Returned (a : A)
| Undefined.
Arguments Returned {A} a.
Arguments Undefined {A}.

(** [WaitDeviceIdle]: signal [deviceFenceValue] on the queue, wait for it
    (the results of [Signal] and [SetEventOnCompletion] are discarded), then
    [++deviceFenceValue] on a [uint32_t]. *)
Definition WaitDeviceIdle (d : Device) : Device :=
  mkDevice (cmdList0 d) (executed d) (u32 (deviceFenceValue d + 1)) (log d).

(** [std::memcpy(data, _data, n)] into the mapped staging buffer: [data] is
    null when [Map] failed, [_data] is [None] for a null pointer and
    otherwise the bytes readable behind it. *)
Definition memcpy (map_ok : bool) (_data : option (list Byte.byte)) (n : Z)
  : Outcome (list Byte.byte) :=
  match _data with
  | None => Undefined
  | Some bytes =>
      if map_ok && (n <=? Z.of_nat (length bytes))
      then Returned (take (Z.to_nat n) bytes)
      else Undefined
  end.

(** The tail shared by both helpers: barrier, [Close], [ExecuteCommandLists],
    [WaitDeviceIdle], [Reset] of allocator and list. *)
Definition submit_and_wait (d : Device) (recorded : list Cmd)
    (_stateAfter : D3D12_RESOURCE_STATES) : Device :=
  let cmds := recorded ++ [ResourceBarrier _stateAfter] in
  let d1 := mkDevice cmds (executed d ++ [cmds]) (deviceFenceValue d) (log d) in
  let d2 := WaitDeviceIdle d1 in
  mkDevice [] (executed d2) (deviceFenceValue d2) (log d2).

(** [SubmitBufferToGPU]. [staging_failed] is [FAILED(hrStagBufferCreated)]. *)
Definition SubmitBufferToGPU (d : Device) (_size : Z)
    (_data : option (list Byte.byte)) (_stateAfter : D3D12_RESOURCE_STATES)
    (staging_failed map_ok : bool) : Outcome (bool * Device) :=
  if staging_failed then
    Returned (false, mkDevice (cmdList0 d) (executed d) (deviceFenceValue d)
                       (log d ++ ["Create Staging Buffer failed!"%string]))
  else
    match memcpy map_ok _data _size with
    | Undefined => Undefined
    | Returned _ =>
        let recorded := cmdList0 d ++ [CopyBufferRegion _size] in
        Returned (true, submit_and_wait d recorded _stateAfter)
    end.

(** The bytes of one mip level as [SubmitTextureToGPU] computes them:
    [_extents[i].x * _extents[i].y * _channelNum], a [uint32_t] product. *)
Definition level_bytes (e : SA.Vec2ui) (_channelNum : Z) : Z :=
  u32 (u32 (SA.x e * SA.y e) * _channelNum).

(** The loop [for (UINT16 i = 0; i < resDesc.MipLevels; ++i)]; [n] turns are
    left, [offset] is the [UINT64] running offset. *)
Fixpoint copy_loop (n : nat) (i offset : Z) (_extents : list SA.Vec2ui)
    (_channelNum : Z) : option (list Cmd) :=
  match n with
  | O => Some []
  | S n' =>
      match _extents !! Z.to_nat i with
      | None => None
      | Some e =>
          let c := CopyTextureRegion i offset (SA.x e) (SA.y e)
                     (u32 (SA.x e * _channelNum)) in
          match copy_loop n' (u16 (i + 1)) (u64 (offset + level_bytes e _channelNum))
                  _extents _channelNum with
          | None => None
          | Some cs => Some (c :: cs)
          end
      end
  end.

(** [SubmitTextureToGPU]; [MipLevels] is [_gpuTexture->GetDesc().MipLevels]. *)
Definition SubmitTextureToGPU (d : Device) (MipLevels : Z)
    (_extents : list SA.Vec2ui) (_totalSize _channelNum : Z)
    (_data : option (list Byte.byte)) (_stateAfter : D3D12_RESOURCE_STATES)
    (staging_failed map_ok : bool) : Outcome (bool * Device) :=
  if staging_failed then
    Returned (false, mkDevice (cmdList0 d) (executed d) (deviceFenceValue d)
                       (log d ++ ["Create Staging Buffer failed!"%string]))
  else
    match memcpy map_ok _data _totalSize with
    | Undefined => Undefined
    | Returned _ =>
        match copy_loop (Z.to_nat MipLevels) 0 0 _extents _channelNum with
        | None => Undefined
        | Some copies =>
            Returned (true, submit_and_wait d (cmdList0 d ++ copies) _stateAfter)
        end
    end.

End Upload.

(** ** The render loop of the DirectX12 renderer: swapchain fence protocol *)

Module Frame.

Definition bufferingCount : nat := 3.

(** Work queued on [graphicsQueue], executed by the GPU in submission order. *)
Inductive GpuCmd : Type :=
| ExecuteCommandLists (slot : nat)
| Present
| Signal (v : Z).

(** The API calls of one loop turn that matter for synchronisation, in the
    order the CPU issues them. *)
Inductive Call : Type :=
| GetCurrentBackBufferIndex (i : nat)
| GetCompletedValue (v : Z)
| SetEventOnCompletion (target : Z)
| WaitForSingleObjectEx_INFINITE
| ResetAllocator (slot : nat)
| ResetCommandList (slot : nat)
| CloseCommandList (slot : nat)
| QueueExecuteCommandLists (slot : nat)
| SwapchainPresent
| QueueSignal (v : Z).

Record Renderer : Type := mkRenderer {
  swapchainFenceValues : list Z;   (* std::array<uint32_t, bufferingCount> *)
  swapchainFrameIndex : nat;
  fence : Z;                       (* value of swapchainFence *)
  queue : list GpuCmd;             (* submitted and not yet executed, oldest first *)
  clock : nat;                     (* time the CPU has spent blocked *)
  calls : list Call;               (* API calls issued, oldest first *)
  log : list string
}.

(** What the outside world decides during one turn of the loop. *)
Record Env : Type := mkEnv {
  backBuffer : nat;             (* swapchain->GetCurrentBackBufferIndex() *)
  gpuProgress : nat;            (* commands the GPU retires before the CPU polls *)
  cmdTime : nat;                (* time the GPU takes per command while the CPU waits *)
  hrSetEvent_failed : bool;     (* FAILED(hrSetEvent) *)
  hrPresent_failed : bool;      (* FAILED(hrPresent) *)
  hrFenceSignal_failed : bool   (* FAILED(hrFenceSignal) *)
}.

Inductive Outcome : Type :=
| Continue (s : Renderer)          (* the loop goes on *)
| Exit (code : Z) (s : Renderer)   (* main returns *)
| Blocked                          (* the wait never returns *)
| Undefined.                       (* array index out of bounds *)

(** The GPU executes one queued command; a signal sets the fence. *)
Definition gpu_exec (c : GpuCmd) (f : Z) : Z :=
  match c with Signal v => v | _ => f end.

Fixpoint gpu_run (n : nat) (q : list GpuCmd) (f : Z) : list GpuCmd * Z :=
  match n, q with
  | S n', c :: q' => gpu_run n' q' (gpu_exec c f)
  | _, _ => (q, f)
  end.

(** [SetEventOnCompletion(target, event)] followed by
    [WaitForSingleObjectEx(event, INFINITE, FALSE)]: the thread resumes when
    the fence has reached [target]; the GPU keeps executing the queue
    meanwhile. The result carries the number of commands retired during the
    wait; [None] when the queue drains with the fence still below [target]. *)
Fixpoint wait_fence (target : Z) (q : list GpuCmd) (f : Z)
  : option (list GpuCmd * Z * nat) :=
  if target <=? f then Some (q, f, O)
  else match q with
       | [] => None
       | c :: q' =>
           match wait_fence target q' (gpu_exec c f) with
           | Some (q'', f'', n) => Some (q'', f'', S n)
           | None => None
           end
       end.

(** The block "Swapchain Begin". *)
Definition frame_begin (env : Env) (s : Renderer) : Outcome :=
  match swapchainFenceValues s !! swapchainFrameIndex s with
  | None => Undefined
  | Some prevFenceValue =>
      let idx := backBuffer env in
      match swapchainFenceValues s !! idx with
      | None => Undefined
      | Some currFenceValue =>
          let '(q1, f1) := gpu_run (gpuProgress env) (queue s) (fence s) in
          let calls1 :=
            calls s ++ [GetCurrentBackBufferIndex idx; GetCompletedValue f1] in
          let vals' := <[idx := u32 (prevFenceValue + 1)]> (swapchainFenceValues s) in
          if f1 <? currFenceValue then
            if hrSetEvent_failed env then
              Exit EXIT_FAILURE
                (mkRenderer (swapchainFenceValues s) idx f1 q1 (clock s)
                   (calls1 ++ [SetEventOnCompletion currFenceValue])
                   (log s ++ ["Fence SetEventOnCompletion failed."%string]))
            else
              match wait_fence currFenceValue q1 f1 with
              | None => Blocked
              | Some (q2, f2, n) =>
                  Continue
                    (mkRenderer vals' idx f2 q2 (clock s + n * cmdTime env)
                       (calls1 ++ [SetEventOnCompletion currFenceValue;
                                   WaitForSingleObjectEx_INFINITE])
                       (log s))
              end
          else
            Continue (mkRenderer vals' idx f1 q1 (clock s) calls1 (log s))
      end
  end.

(** The block "Register Commands": reset allocator and list of the current
    slot, record, close, and hand the list to the queue. *)
Definition frame_record (s : Renderer) : Renderer :=
  let i := swapchainFrameIndex s in
  mkRenderer (swapchainFenceValues s) i (fence s)
    (queue s ++ [ExecuteCommandLists i]) (clock s)
    (calls s ++ [ResetAllocator i; ResetCommandList i; CloseCommandList i;
                 QueueExecuteCommandLists i])
    (log s).

(** The block "Swapchain End". *)
Definition frame_end (env : Env) (s : Renderer) : Outcome :=
  if hrPresent_failed env then
    Exit EXIT_FAILURE
      (mkRenderer (swapchainFenceValues s) (swapchainFrameIndex s) (fence s)
         (queue s) (clock s) (calls s ++ [SwapchainPresent])
         (log s ++ ["Swapchain Present failed"%string]))
  else
    match swapchainFenceValues s !! swapchainFrameIndex s with
    | None => Undefined
    | Some currFenceValue =>
        if hrFenceSignal_failed env then
          Exit EXIT_FAILURE
            (mkRenderer (swapchainFenceValues s) (swapchainFrameIndex s) (fence s)
               (queue s ++ [Present]) (clock s)
               (calls s ++ [SwapchainPresent; QueueSignal currFenceValue])
               (log s ++ ["Swapchain Fence Signal failed"%string]))
        else
          Continue
            (mkRenderer (swapchainFenceValues s) (swapchainFrameIndex s) (fence s)
               (queue s ++ [Present; Signal currFenceValue]) (clock s)
               (calls s ++ [SwapchainPresent; QueueSignal currFenceValue])
               (log s))
    end.

(** The block "Render" of one turn of the loop. *)
Definition frame (env : Env) (s : Renderer) : Outcome :=
  match frame_begin env s with
  | Continue s1 => frame_end env (frame_record s1)
  | o => o
  end.

(** Consecutive turns of the loop. *)
Fixpoint run (envs : list Env) (s : Renderer) : Outcome :=
  match envs with
  | [] => Continue s
  | env :: envs' =>
      match frame env s with
      | Continue s' => run envs' s'
      | o => o
      end
  end.

(** The state when the loop is entered: zero-initialised globals, a fence
    created with value 0, an idle queue. *)
Definition init : Renderer :=
  mkRenderer (replicate bufferingCount 0) 0 0 [] 0 [] [].

(** The value passed to [graphicsQueue->Signal] at the end of the last
    turn. *)
Definition last_signaled (s : Renderer) : option Z :=
  swapchainFenceValues s !! swapchainFrameIndex s.

(** Turn [j] (counting from 0) of a run with round-robin back buffers. *)
Definition round_robin (envs : list Env) : Prop :=
  forall j env, envs !! j = Some env -> backBuffer env = (j mod bufferingCount)%nat.

Definition no_failure (env : Env) : Prop :=
  hrSetEvent_failed env = false /\ hrPresent_failed env = false
  /\ hrFenceSignal_failed env = false.

End Frame.

(** ** The call sites of [main] in the DirectX12 renderer *)

Module DX12Main.

Local Open Scope string_scope.
Local Open Scope list_scope.

(** What the code does with the result of a call that can fail. *)
Inductive Handling : Type :=
| Fatal (msgs : list string)  (* tested; on failure [SA_LOG]s [msgs] and [return EXIT_FAILURE] *)
| LogOnly (msg : string)      (* tested; on failure [SA_LOG]s [msg] and goes on *)
| Ignored                     (* result discarded *)
| Unguarded.                  (* result discarded and its output pointer used *)

Record CallSite : Type := mkSite {
  line : nat;            (* line of the call in the source file *)
  operation : string;
  handling : Handling
}.

Definition fatal (l : nat) (op msg : string) : CallSite := mkSite l op (Fatal [msg]).

(** The fallible calls of [WaitDeviceIdle]. *)
Definition WaitDeviceIdle_sites : list CallSite :=
  [ mkSite 342 "graphicsQueue->Signal" Ignored;
    mkSite 345 "deviceFence->SetEventOnCompletion" Ignored ].

(** The fallible calls of [SubmitBufferToGPU]; when it returns [false] the
    caller logs [caller_msg] and [main] returns [EXIT_FAILURE]. *)
Definition SubmitBufferToGPU_sites (caller_msg : string) : list CallSite :=
  [ mkSite 375 "device->CreateCommittedResource"
      (Fatal ["Create Staging Buffer failed!"; caller_msg]);
    mkSite 388 "stagingBuffer->Map" Unguarded;
    mkSite 414 "cmdLists[0]->Close" Ignored ]
  ++ WaitDeviceIdle_sites
  ++ [ mkSite 426 "cmdAllocs[0]->Reset" Ignored;
       mkSite 427 "cmdLists[0]->Reset" Ignored ].

(** The fallible calls of [SubmitTextureToGPU]. *)
Definition SubmitTextureToGPU_sites (caller_msg : string) : list CallSite :=
  [ mkSite 454 "device->CreateCommittedResource"
      (Fatal ["Create Staging Buffer failed!"; caller_msg]);
    mkSite 466 "stagingBuffer->Map" Unguarded;
    mkSite 518 "cmdLists[0]->Close" Ignored ]
  ++ WaitDeviceIdle_sites
  ++ [ mkSite 530 "cmdAllocs[0]->Reset" Ignored;
       mkSite 531 "cmdLists[0]->Reset" Ignored ].

(** [GenerateMipMaps] returns [void]: a failed [stbir_resize_uint8_linear]
    is logged and the function returns to a caller that cannot see it. *)
Definition GenerateMipMaps_sites : list CallSite :=
  [ mkSite 574 "stbir_resize_uint8_linear" (LogOnly "Mip map creation failed!") ].

(** A buffer created by [main] and filled through [SubmitBufferToGPU]. *)
Definition buffer_sites (l : nat) (create_msg submit_msg : string) : list CallSite :=
  fatal l "device->CreateCommittedResource" create_msg
  :: SubmitBufferToGPU_sites submit_msg.

(** A texture: load, mip chain, resource, upload. *)
Definition texture_sites (l_load l_create : nat) (create_msg submit_msg : string)
  : list CallSite :=
  [ fatal l_load "stbi_load" "STBI Texture Loading failed" ]
  ++ GenerateMipMaps_sites
  ++ [ fatal l_create "device->CreateCommittedResource" create_msg ]
  ++ SubmitTextureToGPU_sites submit_msg.

(** The loops [for (i = 0; i < bufferingCount; ++i)], unrolled. *)
Definition per_buffer (f : string -> list CallSite) : list CallSite :=
  f "0" ++ f "1" ++ f "2".

(** The block "Initialization" of [main], in execution order; [SA_DEBUG] is
    the preprocessor switch of the validation-layer code. *)
Definition startup (SA_DEBUG : bool) : list CallSite :=
  [ mkSite 608 "glfwInit" Ignored;
    fatal 611 "glfwCreateWindow" "GLFW create window failed!" ]
  ++ (if SA_DEBUG
      then [ mkSite 633 "D3D12GetDebugInterface"
               (LogOnly "Validation layer initialization failed.") ]
      else [])
  ++ [ fatal 648 "CreateDXGIFactory2" "Create Factory failed!";
       fatal 662 "factory->EnumAdapterByGpuPreference" "Physical Device not found!";
       fatal 669 "D3D12CreateDevice" "Create Device failed!" ]
  ++ (if SA_DEBUG
      then [ mkSite 681 "device->QueryInterface"
               (LogOnly "Device query info queue to enable validation layers failed.");
             mkSite 688 "infoQueue->RegisterMessageCallback" Ignored;
             mkSite 691 "infoQueue->SetBreakOnSeverity" Ignored;
             mkSite 692 "infoQueue->SetBreakOnSeverity" Ignored;
             mkSite 693 "infoQueue->SetBreakOnSeverity" Ignored ]
      else [])
  ++ [ fatal 717 "device->CreateCommandQueue" "Create Graphics Queue failed!";
       fatal 729 "CreateEvent" "Create Device Fence Event failed!";
       fatal 736 "device->CreateFence" "Create Device Fence failed!";
       fatal 763 "factory->CreateSwapChainForHwnd" "Create Swapchain failed!";
       fatal 770 "swapchain1.As" "Swapchain cast failed!";
       fatal 779 "CreateEvent" "Create Swapchain Fence Event failed!";
       fatal 786 "device->CreateFence" "Create Swapchain Fence failed!" ]
  ++ per_buffer (fun i =>
       [ fatal 797 "swapchain->GetBuffer" ("Get Swapchain Buffer [" ++ i ++ "] failed!")%string ])
  ++ per_buffer (fun i =>
       [ fatal 811 "device->CreateCommandAllocator"
           ("Create Command Allocator [" ++ i ++ "] failed!")%string;
         fatal 818 "device->CreateCommandList"
           ("Create Command List [" ++ i ++ "] failed!")%string;
         mkSite 826 "cmdLists[i]->Close" Ignored ])
  ++ [ fatal 845 "device->CreateDescriptorHeap" "Create RenderTarget ViewHeap failed.";
       fatal 891 "device->CreateCommittedResource" "Create Scene Depth Texture failed.";
       fatal 911 "device->CreateDescriptorHeap" "Create Depth ViewHeap failed.";
       fatal 933 "device->CreateDescriptorHeap" "Create SRV ViewHeap failed.";
       fatal 1106 "D3D12SerializeVersionedRootSignature"
         "Serialized Lit RootSignature failed.";
       fatal 1116 "device->CreateRootSignature" "Create Lit RootSignature failed.";
       fatal 1129 "D3DCompileFromFile"
         "Shader {LitShader.hlsl, mainVS} compilation failed.";
       fatal 1144 "D3DCompileFromFile"
         "Shader {LitShader.hlsl, mainPS} compilation failed.";
       fatal 1317 "device->CreateGraphicsPipelineState" "Create Lit PipelineState failed.";
       mkSite 1330 "cmdLists[0]->Reset" Ignored;
       fatal 1339 "importer.ReadFile" "Assimp loading failed!" ]
  ++ buffer_sites 1374 "Create Sphere Vertex Position Buffer failed!"
       "Sphere Vertex Position Buffer submit failed!"
  ++ buffer_sites 1414 "Create Sphere Vertex Normal Buffer failed!"
       "Sphere Vertex Normal Buffer submit failed!"
  ++ buffer_sites 1454 "Create Sphere Vertex Tangent Buffer failed!"
       "Sphere Vertex Tangent Buffer submit failed!"
  ++ buffer_sites 1494 "Create Sphere Vertex UV Buffer failed!"
       "Sphere Vertex UV Buffer submit failed!"
  ++ buffer_sites 1542 "Create Sphere Index Buffer failed!"
       "Sphere Index Buffer submit failed!"
  ++ texture_sites 1593 1633 "Create RustedIron2 Albedo Texture failed!"
       "RustedIron2 Albedo Texture submit failed!"
  ++ texture_sites 1671 1712 "Create RustedIron2 Normal Texture failed!"
       "RustedIron2 Normal Texture submit failed!"
  ++ texture_sites 1750 1790 "Create RustedIron2 Metallic Texture failed!"
       "RustedIron2 Metallic Texture submit failed!"
  ++ texture_sites 1828 1868 "Create RustedIron2 Roughness Texture failed!"
       "RustedIron2 Roughness Texture submit failed!"
  ++ per_buffer (fun _ =>
       [ fatal 1925 "device->CreateCommittedResource" "Create Camera Buffer failed!" ])
  ++ buffer_sites 1954 "Create Sphere Object Buffer failed!"
       "Sphere Object Buffer submit failed!"
  ++ buffer_sites 1990 "Create PointLight Buffer failed!"
       "Sphere PointLight submit failed!"
  ++ [ mkSite 2036 "cmdLists[0]->Close" Ignored ].

(** The block "Uninitialization". *)
Definition shutdown (SA_DEBUG : bool) : list CallSite :=
  WaitDeviceIdle_sites
  ++ (if SA_DEBUG
      then [ mkSite 2418 "device->QueryInterface" Ignored;
             mkSite 2439 "DXGIGetDebugInterface1"
               (LogOnly "Validation layer uninitialized failed.") ]
      else []).

Inductive Outcome : Type :=
| Returned (code : Z) (log : list string)   (* [main] returns [code] *)
| Hangs                                     (* a wait never returns *)
| Undefined.                                (* undefined behaviour *)

(** Run the call sites [sites], numbered from [k]; [fails j] tells whether
    the call at site [j] fails. The result is the log when all of them are
    passed, or the outcome of [main] when one of them ends it. *)
Fixpoint run_sites (fails : nat -> bool) (k : nat) (sites : list CallSite)
    (log : list string) : list string + Outcome :=
  match sites with
  | [] => inl log
  | c :: rest =>
      if fails k then
        match handling c with
        | Fatal msgs => inr (Returned EXIT_FAILURE (log ++ msgs))
        | LogOnly msg => run_sites fails (S k) rest (log ++ [msg])
        | Ignored => run_sites fails (S k) rest log
        | Unguarded => inr Undefined
        end
      else run_sites fails (S k) rest log
  end.

(** [main]: initialization, the render loop (one [Frame.Env] per turn until
    the window closes), uninitialization, [return 0]. *)
Definition main (SA_DEBUG : bool) (fails : nat -> bool) (envs : list Frame.Env)
  : Outcome :=
  match run_sites fails 0 (startup SA_DEBUG) [] with
  | inr o => o
  | inl log =>
      match Frame.run envs Frame.init with
      | Frame.Exit code s => Returned code (log ++ Frame.log s)
      | Frame.Blocked => Hangs
      | Frame.Undefined => Undefined
      | Frame.Continue s =>
          match run_sites fails (length (startup SA_DEBUG)) (shutdown SA_DEBUG)
                  (log ++ Frame.log s) with
          | inr o => o
          | inl log' => Returned 0 log'
          end
      end
  end.


End DX12Main.

(** ** The shape of the three [main] functions *)

Module Renderers.

Local Open Scope string_scope.
Local Open Scope list_scope.

(** The API calls of the block "Initialization" of a [main], in source
    order, and those of one turn of the [while] loop of its block "Loop"
    ([None] when that block contains no loop). *)
Record MainShape : Type := mkMain {
  initialization : list string;
  loop_turn : option (list string)
}.

(** [main] of the Vulkan renderer (Sources/mainVK.cpp, lines 297-1823); its
    block "Loop" is an empty pair of braces. *)
Definition Vulkan_main : MainShape := mkMain
  [ "glfwSetErrorCallback"; "glfwInit"; "glfwWindowHint"; "glfwCreateWindow";
    "glfwSetInputMode"; "glfwGetRequiredInstanceExtensions";
    "vkEnumerateInstanceLayerProperties";
    "vkEnumerateInstanceLayerProperties"; "vkCreateInstance";
    "glfwCreateWindowSurface"; "vkEnumeratePhysicalDevices";
    "vkEnumeratePhysicalDevices"; "vkEnumerateDeviceExtensionProperties";
    "vkEnumerateDeviceExtensionProperties";
    "vkGetPhysicalDeviceQueueFamilyProperties";
    "vkGetPhysicalDeviceQueueFamilyProperties";
    "vkGetPhysicalDeviceSurfaceSupportKHR"; "vkCreateDevice";
    "vkGetDeviceQueue"; "vkGetDeviceQueue";
    "vkGetPhysicalDeviceSurfaceCapabilitiesKHR";
    "vkGetPhysicalDeviceSurfaceFormatsKHR";
    "vkGetPhysicalDeviceSurfaceFormatsKHR";
    "vkGetPhysicalDeviceSurfacePresentModesKHR";
    "vkGetPhysicalDeviceSurfacePresentModesKHR"; "vkCreateSwapchainKHR";
    "vkGetSwapchainImagesKHR"; "vkCreateImageView"; "vkCreateSemaphore";
    "vkCreateSemaphore"; "vkCreateFence"; "vkCreateCommandPool";
    "vkAllocateCommandBuffers"; "vkCreateImage";
    "vkGetImageMemoryRequirements"; "FindMemoryType"; "vkAllocateMemory";
    "vkBindImageMemory"; "vkCreateImageView"; "vkCreateRenderPass";
    "vkCreateFramebuffer"; "vkCreateDescriptorSetLayout";
    "vkCreatePipelineLayout"; "CompileShaderFromFile";
    "vkCreateShaderModule"; "CompileShaderFromFile"; "vkCreateShaderModule";
    "vkCreateGraphicsPipelines" ]
  None.

(** The second [main] of Sources/mainVK.cpp (lines 2116-2855), a DirectX12
    renderer. *)
Definition DX12_second_main : MainShape := mkMain
  [ "glfwSetErrorCallback"; "glfwInit"; "glfwWindowHint"; "glfwCreateWindow";
    "glfwSetInputMode"; "D3D12GetDebugInterface";
    "debugController->EnableDebugLayer";
    "debugController->SetEnableGPUBasedValidation"; "CreateDXGIFactory2";
    "factory->EnumAdapterByGpuPreference"; "D3D12CreateDevice";
    "device->QueryInterface"; "infoQueue->RegisterMessageCallback";
    "infoQueue->SetBreakOnSeverity"; "infoQueue->SetBreakOnSeverity";
    "infoQueue->SetBreakOnSeverity"; "device->CreateCommandQueue";
    "factory->CreateSwapChainForHwnd"; "swapchain1.As"; "CreateEvent";
    "device->CreateFence"; "swapchain->GetBuffer";
    "device->CreateCommandAllocator"; "device->CreateCommandList";
    "cmdLists[i]->Close"; "cmdLists[0]->Reset"; "importer.ReadFile";
    "device->CreateCommittedResource"; "SubmitBufferToGPU";
    "device->CreateCommittedResource"; "SubmitBufferToGPU";
    "device->CreateCommittedResource"; "SubmitBufferToGPU";
    "device->CreateCommittedResource"; "SubmitBufferToGPU";
    "device->CreateCommittedResource"; "SubmitBufferToGPU"; "stbi_load";
    "device->CreateCommittedResource"; "SubmitTextureToGPU"; "stbi_load";
    "device->CreateCommittedResource"; "SubmitTextureToGPU"; "stbi_load";
    "device->CreateCommittedResource"; "SubmitTextureToGPU"; "stbi_load";
    "device->CreateCommittedResource"; "SubmitTextureToGPU";
    "cmdLists[0]->Close" ]
  (Some
    [ "glfwWindowShouldClose"; "glfwPollEvents"; "glfwGetKey";
      "glfwSetWindowShouldClose" ]).

(** [main] of the DirectX12 renderer with the render loop. *)
Definition DX12_main : MainShape := mkMain
  [ "glfwSetErrorCallback"; "glfwInit"; "glfwWindowHint"; "glfwCreateWindow";
    "glfwSetInputMode"; "D3D12GetDebugInterface";
    "debugController->EnableDebugLayer";
    "debugController->SetEnableGPUBasedValidation"; "CreateDXGIFactory2";
    "factory->EnumAdapterByGpuPreference"; "D3D12CreateDevice";
    "device->QueryInterface"; "infoQueue->RegisterMessageCallback";
    "infoQueue->SetBreakOnSeverity"; "infoQueue->SetBreakOnSeverity";
    "infoQueue->SetBreakOnSeverity"; "device->CreateCommandQueue";
    "CreateEvent"; "device->CreateFence"; "factory->CreateSwapChainForHwnd";
    "swapchain1.As"; "CreateEvent"; "device->CreateFence";
    "swapchain->GetBuffer"; "device->CreateCommandAllocator";
    "device->CreateCommandList"; "cmdLists[i]->Close";
    "device->CreateDescriptorHeap"; "device->CreateRenderTargetView";
    "device->CreateCommittedResource"; "device->CreateDescriptorHeap";
    "device->CreateDepthStencilView"; "device->CreateDescriptorHeap";
    "D3D12SerializeVersionedRootSignature"; "device->CreateRootSignature";
    "D3DCompileFromFile"; "D3DCompileFromFile";
    "device->CreateGraphicsPipelineState"; "cmdLists[0]->Reset";
    "importer.ReadFile"; "device->CreateCommittedResource";
    "SubmitBufferToGPU"; "device->CreateCommittedResource";
    "SubmitBufferToGPU"; "device->CreateCommittedResource";
    "SubmitBufferToGPU"; "device->CreateCommittedResource";
    "SubmitBufferToGPU"; "device->CreateCommittedResource";
    "SubmitBufferToGPU"; "stbi_load"; "GenerateMipMaps";
    "device->CreateCommittedResource"; "SubmitTextureToGPU";
    "device->CreateShaderResourceView"; "stbi_load"; "GenerateMipMaps";
    "device->CreateCommittedResource"; "SubmitTextureToGPU";
    "device->CreateShaderResourceView"; "stbi_load"; "GenerateMipMaps";
    "device->CreateCommittedResource"; "SubmitTextureToGPU";
    "device->CreateShaderResourceView"; "stbi_load"; "GenerateMipMaps";
    "device->CreateCommittedResource"; "SubmitTextureToGPU";
    "device->CreateShaderResourceView"; "device->CreateCommittedResource";
    "device->CreateCommittedResource"; "SubmitBufferToGPU";
    "device->CreateCommittedResource"; "SubmitBufferToGPU";
    "device->CreateShaderResourceView"; "cmdLists[0]->Close" ]
  (Some
    [ "glfwWindowShouldClose"; "glfwPollEvents"; "glfwGetKey";
      "glfwSetWindowShouldClose"; "glfwGetKey"; "glfwGetKey"; "glfwGetKey";
      "glfwGetKey"; "glfwGetKey"; "glfwGetKey"; "glfwGetCursorPos";
      "swapchain->GetCurrentBackBufferIndex";
      "swapchainFence->GetCompletedValue";
      "swapchainFence->SetEventOnCompletion"; "WaitForSingleObjectEx";
      "cameraBuffer->Map"; "cameraBuffer->Unmap"; "cmdAlloc->Reset";
      "cmd->Reset"; "cmd->ResourceBarrier"; "cmd->OMSetRenderTargets";
      "cmd->ClearRenderTargetView"; "cmd->ClearDepthStencilView";
      "cmd->RSSetViewports"; "cmd->RSSetScissorRects";
      "cmd->SetDescriptorHeaps"; "cmd->SetGraphicsRootSignature";
      "cmd->SetGraphicsRootConstantBufferView";
      "cmd->SetGraphicsRootConstantBufferView";
      "cmd->SetGraphicsRootDescriptorTable";
      "cmd->SetGraphicsRootDescriptorTable"; "cmd->SetPipelineState";
      "cmd->IASetPrimitiveTopology"; "cmd->IASetVertexBuffers";
      "cmd->IASetIndexBuffer"; "cmd->DrawIndexedInstanced";
      "cmd->ResourceBarrier"; "cmd->Close";
      "graphicsQueue->ExecuteCommandLists"; "swapchain->Present";
      "graphicsQueue->Signal" ]).

Definition calls_any (names calls : list string) : bool :=
  existsb (fun c => existsb (String.eqb c) names) calls.

Definition device_discovery (m : MainShape) : bool :=
  calls_any ["vkEnumeratePhysicalDevices"; "factory->EnumAdapterByGpuPreference"]
    (initialization m).

Definition swapchain_creation (m : MainShape) : bool :=
  calls_any ["vkCreateSwapchainKHR"; "factory->CreateSwapChainForHwnd"]
    (initialization m).

Definition resource_upload (m : MainShape) : bool :=
  calls_any ["SubmitBufferToGPU"; "SubmitTextureToGPU"; "vkMapMemory";
             "vkCmdCopyBuffer"; "vkCmdCopyBufferToImage"]
    (initialization m).

Definition pipeline_construction (m : MainShape) : bool :=
  calls_any ["vkCreateGraphicsPipelines"; "device->CreateGraphicsPipelineState"]
    (initialization m).

(** A loop whose turn records a command list and submits it. *)
Definition render_loop (m : MainShape) : bool :=
  match loop_turn m with
  | None => false
  | Some calls =>
      calls_any ["cmd->Reset"; "vkBeginCommandBuffer"] calls
      && calls_any ["graphicsQueue->ExecuteCommandLists"; "vkQueueSubmit"] calls
  end.

Definition performs_all (m : MainShape) : bool :=
  device_discovery m && swapchain_creation m && resource_upload m
  && pipeline_construction m && render_loop m.

End Renderers.

(** ** Where GenerateMipMaps reads and writes the mip levels *)

Module MipLayout.

(** One call of [stbir_resize_uint8_linear]: where the input and output
    pixels start, as byte offsets from [_data.data()], and the two
    extents. *)
Record ResizeCall : Type := mkResizeCall {
  src : Z;
  src_extent : SA.Vec2ui;
  dst : Z;
  dst_extent : SA.Vec2ui
}.

(** [_outExtents[i].x * _outExtents[i].y * _channelNum * sizeof(stbi_uc)]
    stored in a [uint64_t]: two [uint32_t] products, then a 64-bit one. *)
Definition layer_offset (e : SA.Vec2ui) (_channelNum : Z) : Z :=
  u64 (u32 (u32 (SA.x e * SA.y e) * _channelNum) * 1).

(** The loop [for (j = 0; j < _layerNum; ++j)] with its two running
    pointers, kept as offsets from [_data.data()] (pointer arithmetic does
    not wrap around; whether the offsets stay inside the buffer is for the
    properties to tell). The result is the calls made, whether all of them
    succeeded, and [src] as the loop leaves it. *)
Fixpoint resize_layers (stbir_ok : nat -> nat -> bool) (i j n : nat)
    (prev curr : SA.Vec2ui) (srcLayerOffset currLayerOffset src dst : Z)
  : list ResizeCall * bool * Z :=
  match n with
  | O => ([], true, src)
  | S n' =>
      let call := mkResizeCall src prev dst curr in
      if stbir_ok i j then
        let '(calls, ok, src') :=
          resize_layers stbir_ok i (S j) n' prev curr srcLayerOffset currLayerOffset
            (src + srcLayerOffset) (dst + currLayerOffset) in
        (call :: calls, ok, src')
      else ([call], false, src)
  end.

(** The loop [for (i = 1; i < _outMipLevels; ++i)]; [None] when
    [_outExtents] is read outside its bounds. *)
Fixpoint generate (stbir_ok : nat -> nat -> bool) (i n : nat)
    (_outExtents : list SA.Vec2ui) (_channelNum _layerNum src : Z)
  : option (list ResizeCall * bool) :=
  match n with
  | O => Some ([], true)
  | S n' =>
      match _outExtents !! (i - 1)%nat, _outExtents !! i with
      | Some prev, Some curr =>
          let srcLayerOffset := layer_offset prev _channelNum in
          let currLayerOffset := layer_offset curr _channelNum in
          let dst := src + u64 (srcLayerOffset * _layerNum) in
          let '(calls, ok, src') :=
            resize_layers stbir_ok i 0 (Z.to_nat _layerNum) prev curr
              srcLayerOffset currLayerOffset src dst in
          if ok then
            match generate stbir_ok (S i) n' _outExtents _channelNum _layerNum src' with
            | Some (calls', ok') => Some (calls ++ calls', ok')
            | None => None
            end
          else Some (calls, false)
      | _, _ => None
      end
  end.

(** The resize calls [GenerateMipMaps] makes, and whether it got through
    all of them. *)
Definition resize_calls (_extent : SA.Vec2ui) (_outTotalSize _channelNum _layerNum : Z)
    (stbir_ok : nat -> nat -> bool) : option (list ResizeCall * bool) :=
  match Mip.mip_count _extent with
  | None => None
  | Some mips =>
      let '(exts, _) :=
        Mip.size_loop (Z.to_nat mips) _extent _outTotalSize _channelNum _layerNum in
      generate stbir_ok 1 (Z.to_nat mips - 1) exts _channelNum _layerNum 0
  end.

End MipLayout.

(** ** One texture of [main]: load, GenerateMipMaps, create, SubmitTextureToGPU *)

Module TextureSite.
Local Open Scope string_scope.
Local Open Scope list_scope.
Local Open Scope Z_scope.

(** The range of [int]. *)
Definition in_int (z : Z) : bool := (- 2 ^ 31 <=? z) && (z <? 2 ^ 31).

Definition add_log (d : Upload.Device) (lines : list string) : Upload.Device :=
  Upload.mkDevice (Upload.cmdList0 d) (Upload.executed d)
    (Upload.deviceFenceValue d) (Upload.log d ++ lines).

(** The block of one texture. [width], [height], [channels] and [inData]
    are what [stbi_load] produced ([inData] is [None] for a null pointer,
    otherwise the bytes readable behind it); the result is the exit code
    when [main] returns from the block, and the device state.
    [width * height * channels] is an [int] product; the texture created
    with [MipLevels = static_cast<UINT16>(mipLevels)] reports that number
    from [GetDesc]. *)
Definition load_texture (d : Upload.Device) (width height channels : Z)
    (inData : option (list Byte.byte)) (stbir_ok : nat -> nat -> bool)
    (hrBufferCreated_failed staging_failed map_ok : bool)
    (create_msg submit_msg : string)
  : Upload.Outcome (option Z * Upload.Device) :=
  match inData with
  | None => Upload.Returned (Some EXIT_FAILURE, add_log d ["STBI Texture Loading failed"])
  | Some bytes =>
      let n := width * height * channels in
      if in_int (width * height) && in_int n
         && (0 <=? n) && (n <=? Z.of_nat (length bytes)) then
        let data := take (Z.to_nat n) bytes in
        match Mip.GenerateMipMaps (SA.mkVec2ui (u32 width) (u32 height)) data 0
                (u32 channels) 1 stbir_ok with
        | None => Upload.Undefined
        | Some r =>
            let d1 := add_log d (Mip.log r) in
            if hrBufferCreated_failed then
              Upload.Returned (Some EXIT_FAILURE, add_log d1 [create_msg])
            else
              match Upload.SubmitTextureToGPU d1 (u16 (Mip.outMipLevels r))
                      (Mip.outExtents r) (Mip.outTotalSize r) (u32 channels)
                      (Some (Mip.data r))
                      Upload.D3D12_RESOURCE_STATE_PIXEL_SHADER_RESOURCE
                      staging_failed map_ok with
              | Upload.Undefined => Upload.Undefined
              | Upload.Returned (true, d2) => Upload.Returned (None, d2)
              | Upload.Returned (false, d2) =>
                  Upload.Returned (Some EXIT_FAILURE, add_log d2 [submit_msg])
              end
        end
      else Upload.Undefined
  end.

End TextureSite.

(** ** WaitDeviceIdle and the device fence *)

Module Idle.

(** [deviceFence], the work pending on [graphicsQueue] and
    [deviceFenceValue]. Before the render loop starts the only signals on
    the queue are those of [deviceFence], and the only command list is
    [cmdLists[0]]. *)
Record Queue : Type := mkQueue {
  deviceFence : Z;
  pending : list Frame.GpuCmd;
  deviceFenceValue : Z
}.

(** [deviceFence] is created with value 0, [deviceFenceValue = 0u]. *)
Definition init : Queue := mkQueue 0 [] 0.

(** [WaitDeviceIdle]: queue a signal of [deviceFenceValue], wait until the
    fence has reached it, increment. [gpuProgress] is the number of
    commands the GPU retires before the wait is set up; the result carries
    the number retired during the wait, [None] when the wait never
    returns. *)
Definition WaitDeviceIdle (gpuProgress : nat) (s : Queue) : option (Queue * nat) :=
  let q0 := pending s ++ [Frame.Signal (deviceFenceValue s)] in
  let '(q1, f1) := Frame.gpu_run gpuProgress q0 (deviceFence s) in
  match Frame.wait_fence (deviceFenceValue s) q1 f1 with
  | None => None
  | Some (q2, f2, n) => Some (mkQueue f2 q2 (u32 (deviceFenceValue s + 1)), n)
  end.

(** The end of [SubmitBufferToGPU] and [SubmitTextureToGPU]:
    [ExecuteCommandLists] of [cmdLists[0]], then [WaitDeviceIdle]. *)
Definition execute_and_wait (gpuProgress : nat) (s : Queue) : option (Queue * nat) :=
  WaitDeviceIdle gpuProgress
    (mkQueue (deviceFence s) (pending s ++ [Frame.ExecuteCommandLists 0])
       (deviceFenceValue s)).

(** Consecutive uploads. *)
Fixpoint uploads (progress : list nat) (s : Queue) : option Queue :=
  match progress with
  | [] => Some s
  | n :: rest =>
      match execute_and_wait n s with
      | None => None
      | Some (s', _) => uploads rest s'
      end
  end.

End Idle.

(** ** Render-target views *)

Module Descriptors.

(** The loop "Create RT Views (for each frame)": the view of
    [swapchainImages[i]] is created at [rtvHandle], then
    [rtvHandle.ptr += rtvOffset] on a 64-bit [SIZE_T]. *)
Fixpoint create_views (n : nat) (i rtvHandle rtvOffset : Z) : list (Z * Z) :=
  match n with
  | O => []
  | S n' => (i, rtvHandle) :: create_views n' (u32 (i + 1)) (u64 (rtvHandle + rtvOffset)) rtvOffset
  end.

(** The handle a frame binds:
    [rtvHandle.ptr += rtvOffset * swapchainFrameIndex], a [UINT] product
    added to the heap start. *)
Definition frame_view (start rtvOffset swapchainFrameIndex : Z) : Z :=
  u64 (start + u32 (rtvOffset * swapchainFrameIndex)).

End Descriptors.

(** ** The index buffer of the sphere *)

Module Mesh.

(** [indices[k] = v] on a [std::vector<uint16_t>]. *)
Definition store (indices : list Z) (k v : Z) : option (list Z) :=
  if k <? Z.of_nat (length indices)
  then Some (<[Z.to_nat k := v]> indices) else None.

(** The loop [for (unsigned int i = 0; i < inMesh->mNumFaces; ++i)]; a face
    is its array [mIndices]. *)
Fixpoint fill_indices (n : nat) (i : Z) (mFaces : list (list Z)) (indices : list Z)
  : option (list Z) :=
  match n with
  | O => Some indices
  | S n' =>
      match mFaces !! Z.to_nat i with
      | None => None
      | Some mIndices =>
          match mIndices !! 0%nat, mIndices !! 1%nat, mIndices !! 2%nat with
          | Some a, Some b, Some c =>
              match store indices (u32 (i * 3)) (u16 a) with
              | None => None
              | Some l1 =>
                  match store l1 (u32 (u32 (i * 3) + 1)) (u16 b) with
                  | None => None
                  | Some l2 =>
                      match store l2 (u32 (u32 (i * 3) + 2)) (u16 c) with
                      | None => None
                      | Some l3 => fill_indices n' (u32 (i + 1)) mFaces l3
                      end
                  end
              end
          | _, _, _ => None
          end
      end
  end.

Record IndexBuffer : Type := mkIndexBuffer {
  Width : Z;              (* desc.Width, the bytes uploaded *)
  indices : list Z;
  sphereIndexCount : Z
}.

(** The block "Index": [desc.Width] is a [size_t] product,
    [indices.resize] and [sphereIndexCount] take the [unsigned int] product
    [mNumFaces * 3]. *)
Definition build_indices (mNumFaces : Z) (mFaces : list (list Z)) : option IndexBuffer :=
  let count := u32 (mNumFaces * 3) in
  match fill_indices (Z.to_nat mNumFaces) 0 mFaces (replicate (Z.to_nat count) 0) with
  | None => None
  | Some l => Some (mkIndexBuffer (u64 (u64 (2 * mNumFaces) * 3)) l count)
  end.

End Mesh.

(** ** The Vulkan renderer: device discovery and swapchain choices *)

Module VK.
Local Open Scope string_scope.
Local Open Scope list_scope.
Local Open Scope Z_scope.

Definition VK_SUCCESS : Z := 0.
Definition VK_TRUE : Z := 1.
Definition VK_NULL_HANDLE : Z := 0.
Definition EXIT_SUCCESS : Z := 0.
Definition VK_QUEUE_GRAPHICS_BIT : Z := 1.
Definition VK_FORMAT_B8G8R8A8_SRGB : Z := 50.
Definition VK_COLOR_SPACE_SRGB_NONLINEAR_KHR : Z := 0.
Definition VK_PRESENT_MODE_MAILBOX_KHR : Z := 1.
Definition VK_PRESENT_MODE_FIFO_KHR : Z := 2.
Definition VK_MAX_MEMORY_TYPES : Z := 32.

(** [uint32_t(-1)], the "no family", "no memory type" value. *)
Definition NONE : Z := u32 (-1).

(** [VkPhysicalDeviceMemoryProperties]: [memoryTypes] holds the
    [propertyFlags] of the [VK_MAX_MEMORY_TYPES] entries of the array. *)
Record VkPhysicalDeviceMemoryProperties : Type := mkMemProperties {
  memoryTypeCount : Z;
  memoryTypes : list Z
}.

(** The loop of [FindMemoryType]; [n] turns are left. [1 << i] is an [int]
    shift: undefined for [i >= 32], and for [i < 32] the value whose
    conversion to [uint32_t] is [2^i]. The inner result is the index
    returned from inside the loop, if any. *)
Fixpoint FindMemoryType_loop (n : nat) (i typeFilter properties : Z)
    (types : list Z) : option (option Z) :=
  match n with
  | O => Some None
  | S n' =>
      if 32 <=? i then None
      else if negb (Z.land typeFilter (u32 (Z.shiftl 1 i)) =? 0) then
        match types !! Z.to_nat i with
        | None => None
        | Some propertyFlags =>
            if Z.land propertyFlags properties =? properties then Some (Some i)
            else FindMemoryType_loop n' (u32 (i + 1)) typeFilter properties types
        end
      else FindMemoryType_loop n' (u32 (i + 1)) typeFilter properties types
  end.

(** [FindMemoryType]; [memProperties] is what
    [vkGetPhysicalDeviceMemoryProperties] wrote. The result carries the
    lines logged. *)
Definition FindMemoryType (memProperties : VkPhysicalDeviceMemoryProperties)
    (typeFilter properties : Z) : option (Z * list string) :=
  match FindMemoryType_loop (Z.to_nat (memoryTypeCount memProperties)) 0
          typeFilter properties (memoryTypes memProperties) with
  | None => None
  | Some (Some i) => Some (i, [])
  | Some None => Some (NONE, ["Failed to find suitable memory type!"])
  end.

(** The inner loops [for (j ...) if (std::strcmp(name, available[j]) == 0)
    { found = true; break; }] of the layer and extension checks. *)
Fixpoint found (name : string) (available : list string) : bool :=
  match available with
  | [] => false
  | a :: rest => if String.eqb name a then true else found name rest
  end.

(** "Check Validation Layers Support" (compiled with [SA_DEBUG]): [inr]
    carries the exit code and the line logged when a requested layer is
    missing. *)
Fixpoint check_validation_layers (validationLayers availableLayers : list string)
  : unit + Z * list string :=
  match validationLayers with
  | [] => inl tt
  | layer :: rest =>
      if found layer availableLayers
      then check_validation_layers rest availableLayers
      else inr (EXIT_FAILURE,
                [("Validation Layers [" ++ layer ++ "] not supported!")%string])
  end.

(** "Check support" of the device extensions: [bAllReqExtSupported]. *)
Fixpoint all_required_supported (vkDeviceReqExts supportedExts : list string) : bool :=
  match vkDeviceReqExts with
  | [] => true
  | reqExt :: rest =>
      if found reqExt supportedExts
      then all_required_supported rest supportedExts
      else false
  end.

(** One queue family as the loop sees it: its [queueFlags], and the result
    [vrSupportKHR] and the out-value [presentSupport] of
    [vkGetPhysicalDeviceSurfaceSupportKHR] for it. *)
Record VkQueueFamily : Type := mkFamily {
  queueFlags : Z;
  vrSupportKHR : Z;
  presentSupport : Z
}.

Record QueueFamilyIndices : Type := mkIndices {
  graphicsFamily : Z;
  presentFamily : Z
}.

(** The loop "Find Queue Families" from index [i] on; [inr vr] when the
    surface-support query fails and [main] returns. *)
Fixpoint find_queue_families (i : Z) (queueFamilies : list VkQueueFamily)
    (cur : QueueFamilyIndices) : QueueFamilyIndices + Z :=
  match queueFamilies with
  | [] => inl cur
  | currFamily :: rest =>
      let g :=
        if (graphicsFamily cur =? NONE)
           && negb (Z.land (queueFlags currFamily) VK_QUEUE_GRAPHICS_BIT =? 0)
        then i else graphicsFamily cur in
      if presentFamily cur =? NONE then
        if negb (vrSupportKHR currFamily =? VK_SUCCESS) then
          inr (vrSupportKHR currFamily)
        else
          let p := if presentSupport currFamily =? VK_SUCCESS
                   then i else presentFamily cur in
          find_queue_families (u32 (i + 1)) rest (mkIndices g p)
      else find_queue_families (u32 (i + 1)) rest (mkIndices g (presentFamily cur))
  end.

(** A physical device as the selection loop sees it. *)
Record VkPhysicalDevice : Type := mkPhysicalDevice {
  handle : Z;
  vrEnumDeviceExtsCount : Z;
  vrEnumDeviceExts : Z;
  supportedExts : list string;
  queueFamilies : list VkQueueFamily
}.

(** How the selection ends: with [physicalDevice] and
    [deviceQueueFamilyIndices] assigned, with the loop run through and
    [physicalDevice] still null, or with [main] returning [code] after
    logging the error lines [log]. *)
Inductive Selection : Type :=
| Selected (physicalDevice : Z) (deviceQueueFamilyIndices : QueueFamilyIndices)
| NotSelected
| Exit (code : Z) (log : list string).

(** The loop "Find first suitable device (no scoring)". *)
Fixpoint select_loop (vkDeviceReqExts : list string)
    (physicalDevices : list VkPhysicalDevice) : Selection :=
  match physicalDevices with
  | [] => NotSelected
  | currPhysicalDevice :: rest =>
      if negb (vrEnumDeviceExtsCount currPhysicalDevice =? VK_SUCCESS) then
        Exit EXIT_FAILURE ["Enumerate Devices extensions count failed!"]
      else if negb (vrEnumDeviceExts currPhysicalDevice =? VK_SUCCESS) then
        Exit EXIT_FAILURE ["Enumerate Devices extensions failed!"]
      else if negb (all_required_supported vkDeviceReqExts
                      (supportedExts currPhysicalDevice)) then
        select_loop vkDeviceReqExts rest
      else
        match find_queue_families 0 (queueFamilies currPhysicalDevice)
                (mkIndices NONE NONE) with
        | inr _ => Exit EXIT_SUCCESS ["Physical Device Surface Support failed."]
        | inl q =>
            if (graphicsFamily q =? NONE) || (presentFamily q =? NONE)
            then select_loop vkDeviceReqExts rest
            else Selected (handle currPhysicalDevice) q
        end
  end.

(** The loop followed by the test [physicalDevice == VK_NULL_HANDLE]. *)
Definition select_physical_device (vkDeviceReqExts : list string)
    (physicalDevices : list VkPhysicalDevice) : Selection :=
  match select_loop vkDeviceReqExts physicalDevices with
  | Selected physicalDevice q =>
      if physicalDevice =? VK_NULL_HANDLE
      then Exit EXIT_FAILURE ["No suitable PhysicalDevice found."]
      else Selected physicalDevice q
  | NotSelected => Exit EXIT_FAILURE ["No suitable PhysicalDevice found."]
  | Exit code log => Exit code log
  end.

Record VkSurfaceFormatKHR : Type := mkSurfaceFormat {
  format : Z;
  colorSpace : Z
}.

(** The loop "Find prefered" of "ChooseSwapSurfaceFormat". *)
Fixpoint preferred_format (formats : list VkSurfaceFormatKHR)
    (swapchainFormat : VkSurfaceFormatKHR) : VkSurfaceFormatKHR :=
  match formats with
  | [] => swapchainFormat
  | f :: rest =>
      if (format f =? VK_FORMAT_B8G8R8A8_SRGB)
         && (colorSpace f =? VK_COLOR_SPACE_SRGB_NONLINEAR_KHR)
      then f else preferred_format rest swapchainFormat
  end.

(** "ChooseSwapSurfaceFormat": [formats[0]] of an empty vector is
    undefined. *)
Definition ChooseSwapSurfaceFormat (formats : list VkSurfaceFormatKHR)
  : option VkSurfaceFormatKHR :=
  match formats !! 0%nat with
  | None => None
  | Some first => Some (preferred_format formats first)
  end.

(** "ChooseSwapPresentMode", started with [VK_PRESENT_MODE_FIFO_KHR]. *)
Fixpoint ChooseSwapPresentMode (presentModes : list Z) : Z :=
  match presentModes with
  | [] => VK_PRESENT_MODE_FIFO_KHR
  | m :: rest =>
      if m =? VK_PRESENT_MODE_MAILBOX_KHR then m else ChooseSwapPresentMode rest
  end.

End VK.

(** ** Bookkeeping for the fence protocol *)

(** [last_use idxs i]: the number (counted from 1) of the last turn that used
    slot [i] when the back-buffer indices of the turns so far are [idxs];
    0 when the slot has not been used. *)
Fixpoint last_use_from (k : Z) (idxs : list nat) (i : nat) (acc : Z) : Z :=
  match idxs with
  | [] => acc
  | j :: rest => last_use_from (k + 1) rest i (if Nat.eqb j i then k else acc)
  end.

Definition last_use (idxs : list nat) (i : nat) : Z := last_use_from 1 idxs i 0.

(** The shape of the pending queue between two turns: the pending signals
    count up one by one from the current fence value [lo] to the last
    submitted value [hi], and every pending command list of slot [i] is
    followed by a pending signal whose value does not exceed the value
    stored for slot [i]. *)
Fixpoint queue_ok (vals : list Z) (lo hi : Z) (q : list Frame.GpuCmd) : Prop :=
  match q with
  | [] => lo = hi
  | Frame.Signal v :: q' => v = lo + 1 /\ queue_ok vals v hi q'
  | Frame.ExecuteCommandLists i :: q' =>
      (exists v w, In (Frame.Signal v) q' /\ vals !! i = Some w /\ v <= w)
      /\ queue_ok vals lo hi q'
  | Frame.Present :: q' => queue_ok vals lo hi q'
  end.

(** The invariant of the loop after the turns with back buffers [idxs]. *)
Record loop_inv (idxs : list nat) (s : Frame.Renderer) : Prop := mkLoopInv {
  inv_length : length (Frame.swapchainFenceValues s) = Frame.bufferingCount;
  inv_index : (Frame.swapchainFrameIndex s < Frame.bufferingCount)%nat;
  inv_vals : forall i, (i < Frame.bufferingCount)%nat ->
             Frame.swapchainFenceValues s !! i = Some (last_use idxs i);
  inv_last : Frame.swapchainFenceValues s !! Frame.swapchainFrameIndex s
             = Some (Z.of_nat (length idxs));
  inv_queue : queue_ok (Frame.swapchainFenceValues s) (Frame.fence s)
                (Z.of_nat (length idxs)) (Frame.queue s);
  inv_fence : 0 <= Frame.fence s;
  inv_cur : forall i, last idxs = Some i -> Frame.swapchainFrameIndex s = i
}.

(** ** Closed forms the properties are stated against *)

(** The mathematical (unbounded) byte size of a list of mip extents. *)
Definition chain_size (exts : list SA.Vec2ui) (channels layers : Z) : Z :=
  sumZ (map (fun e => SA.x e * SA.y e * channels * layers) exts).

(** Level [i] of a [W] x [H] image with floor halving, clamped at 1. *)
Definition floor_level (W H : Z) (i : nat) : SA.Vec2ui :=
  SA.mkVec2ui (Z.max 1 (W / 2 ^ Z.of_nat i)) (Z.max 1 (H / 2 ^ Z.of_nat i)).

Definition floor_chain_size (W H C : Z) (levels : nat) : Z :=
  sumZ (map (fun i => SA.x (floor_level W H i) * SA.y (floor_level W H i) * C)
          (seq 0 levels)).

(** The same with the ceiling of the quotient, as the specification words
    it. *)
Definition ceil_div (a b : Z) : Z := (a + b - 1) / b.

Definition ceil_chain_size (W H C : Z) (levels : nat) : Z :=
  sumZ (map (fun i => Z.max 1 (ceil_div W (2 ^ Z.of_nat i))
                      * Z.max 1 (ceil_div H (2 ^ Z.of_nat i)) * C)
          (seq 0 levels)).

(** The copy [SubmitTextureToGPU] is expected to record for level [i]. *)
Definition copy_at (exts : list SA.Vec2ui) (channels : Z) (i : nat)
    (e : SA.Vec2ui) : Upload.Cmd :=
  Upload.CopyTextureRegion (Z.of_nat i)
    (u64 (sumZ (map (fun e' => Upload.level_bytes e' channels) (take i exts))))
    (SA.x e) (SA.y e) (u32 (SA.x e * channels)).

(** ** The statements of the specification, as they are read here *)

(** The state of the upload helpers when nothing has been recorded yet. *)
Definition idle_device : Upload.Device := Upload.mkDevice [] [] 0 [].

(** The formula the specification gives for the total, read at one image:
    the ceiling of each quotient. *)
Definition ceil_formula_holds_at (W H C : Z) : Prop :=
  forall data ok r,
    Mip.GenerateMipMaps (SA.mkVec2ui W H) data 0 C 1 ok = Some r ->
    Mip.outTotalSize r = ceil_chain_size W H C (Z.to_nat (Mip.outMipLevels r)).


(** The back-buffer indices of [n] round-robin turns. *)
Definition rr (n : nat) : list nat := map (fun j => (j mod 3)%nat) (seq 0 n).

(** The reading of C3: the value signaled at the end of a turn is the value
    stored for this turn's slot before the turn, plus one. *)
Definition signals_slot_value_plus_one (envs : list Frame.Env) (env : Frame.Env)
  : Prop :=
  forall s s' old,
    Frame.run envs Frame.init = Frame.Continue s ->
    Frame.frame env s = Frame.Continue s' ->
    Frame.swapchainFenceValues s !! Frame.backBuffer env = Some old ->
    last (Frame.calls s') = Some (Frame.QueueSignal (old + 1)).

(** The state after three turns during which the GPU has not retired
    anything yet. *)
Definition three_frames_in_flight : Frame.Renderer :=
  Eval vm_compute in
    match Frame.run [Frame.mkEnv 0 0 1 false false false;
                     Frame.mkEnv 1 0 1 false false false;
                     Frame.mkEnv 2 0 1 false false false] Frame.init with
    | Frame.Continue s => s
    | _ => Frame.init
    end.

(** The same state once the fourth "Swapchain Begin" (back buffer 0, a GPU
    taking 1000 time units per command) has gone through. *)
Definition fourth_begin_done : Frame.Renderer :=
  Eval vm_compute in
    match Frame.frame_begin (Frame.mkEnv 0 0 1000 false false false)
            three_frames_in_flight with
    | Frame.Continue s => s
    | _ => Frame.init
    end.

(** The state after one turn on back buffer 0, and after a second turn on
    back buffer 1. *)
Definition one_frame_in_flight : Frame.Renderer :=
  Eval vm_compute in
    match Frame.run [Frame.mkEnv 0 0 1 false false false] Frame.init with
    | Frame.Continue s => s
    | _ => Frame.init
    end.

Definition two_frames_in_flight : Frame.Renderer :=
  Eval vm_compute in
    match Frame.frame (Frame.mkEnv 1 0 1 false false false) one_frame_in_flight with
    | Frame.Continue s => s
    | _ => Frame.init
    end.




(** ** Notions the further properties are stated with *)

(** The byte offset at which level [i] of a one-layer chain starts. *)
Definition level_start (exts : list SA.Vec2ui) (channels : Z) (i : nat) : Z :=
  sumZ (map (fun e => SA.x e * SA.y e * channels) (take i exts)).

(** The number of levels and the extents of the chain of a [W] x [H]
    image. *)
Definition chain_levels (W H : Z) : nat := Z.to_nat (Z.log2 (Z.max W H) + 1).

Definition chain_extents (W H : Z) : list SA.Vec2ui :=
  map (floor_level W H) (seq 0 (chain_levels W H)).

(** The command lists submitted and not yet executed. *)
Fixpoint frames_in_flight (q : list Frame.GpuCmd) : nat :=
  match q with
  | [] => 0
  | Frame.ExecuteCommandLists _ :: q' => S (frames_in_flight q')
  | _ :: q' => frames_in_flight q'
  end.

Fixpoint pending_signals (q : list Frame.GpuCmd) : nat :=
  match q with
  | [] => 0
  | Frame.Signal _ :: q' => S (pending_signals q')
  | _ :: q' => pending_signals q'
  end.

(** Every pending command list is followed by a pending signal of its
    own. *)
Fixpoint balanced (q : list Frame.GpuCmd) : Prop :=
  match q with
  | [] => True
  | Frame.ExecuteCommandLists _ :: q' =>
      (frames_in_flight q' < pending_signals q')%nat /\ balanced q'
  | _ :: q' => balanced q'
  end.

(** All pending signals are below [v]. *)
Definition signals_below (v : Z) (q : list Frame.GpuCmd) : Prop :=
  forall w, In (Frame.Signal w) q -> w < v.

(** The first three indices of a face, as [uint16_t]. *)
Definition triangle (mIndices : list Z) : list Z := map u16 (take 3 mIndices).

(** Memory type [j] passes both tests of [FindMemoryType]. *)
Definition suitable_memory_type (mp : VK.VkPhysicalDeviceMemoryProperties)
    (typeFilter properties : Z) (j : nat) : Prop :=
  Z.testbit typeFilter (Z.of_nat j) = true
  /\ exists propertyFlags,
       VK.memoryTypes mp !! j = Some propertyFlags
       /\ Z.land propertyFlags properties = properties.

Definition graphics_capable (f : VK.VkQueueFamily) : Prop :=
  Z.testbit (VK.queueFlags f) 0 = true.

(** The test the loop applies to the out-value of
    [vkGetPhysicalDeviceSurfaceSupportKHR]: [presentSupport == VK_SUCCESS]. *)
Definition presentable (f : VK.VkQueueFamily) : Prop :=
  VK.presentSupport f = VK.VK_SUCCESS.

(** [r] is the index of the first family of [fams] satisfying [P], counted
    from [k]; [VK.NONE] when there is none. *)
Definition first_family_from (k : nat) (P : VK.VkQueueFamily -> Prop)
    (fams : list VK.VkQueueFamily) (r : Z) : Prop :=
  (r = VK.NONE /\ forall f, In f fams -> ~ P f)
  \/ (exists (j : nat) f,
        r = Z.of_nat (k + j) /\ fams !! j = Some f /\ P f
        /\ forall (m : nat) f', (m < j)%nat -> fams !! m = Some f' -> ~ P f').

Definition first_family := first_family_from 0.

(** A device the selection loop does not skip. *)
Definition eligible_device (vkDeviceReqExts : list string) (d : VK.VkPhysicalDevice)
  : Prop :=
  (forall e, In e vkDeviceReqExts -> In e (VK.supportedExts d))
  /\ (exists f, In f (VK.queueFamilies d) /\ graphics_capable f)
  /\ (exists f, In f (VK.queueFamilies d) /\ presentable f).

Definition preferred_surface_format (f : VK.VkSurfaceFormatKHR) : Prop :=
  VK.format f = VK.VK_FORMAT_B8G8R8A8_SRGB
  /\ VK.colorSpace f = VK.VK_COLOR_SPACE_SRGB_NONLINEAR_KHR.

(** * Properties *)

(** ** Arithmetic of the machine integers *)

Lemma u32_range z : 0 <= u32 z < 2 ^ 32.
Proof. unfold u32. apply Z.mod_pos_bound. lia. Qed.

Lemma u32_small z : 0 <= z < 2 ^ 32 -> u32 z = z.
Proof. intros. unfold u32. apply Z.mod_small. lia. Qed.

Lemma u64_small z : 0 <= z < 2 ^ 64 -> u64 z = z.
Proof. intros. unfold u64. apply Z.mod_small. lia. Qed.

Lemma u16_small z : 0 <= z < 2 ^ 16 -> u16 z = z.
Proof. intros. unfold u16. apply Z.mod_small. lia. Qed.

Lemma u32_u64 z : u32 (u64 z) = u32 z.
Proof.
  unfold u32, u64. apply Z.mod_mod_divide.
  exists (2 ^ 32). reflexivity.
Qed.

Lemma u32_add_l a b : u32 (u32 a + b) = u32 (a + b).
Proof. unfold u32. apply Z.add_mod_idemp_l. lia. Qed.


Lemma u32_mul_l a b : u32 (u32 a * b) = u32 (a * b).
Proof. unfold u32. apply Z.mul_mod_idemp_l. lia. Qed.

Lemma u64_add_l a b : u64 (u64 a + b) = u64 (a + b).
Proof. unfold u64. apply Z.add_mod_idemp_l. lia. Qed.

Lemma sumZ_snoc l a : sumZ (l ++ [a]) = sumZ l + a.
Proof. unfold sumZ. induction l as [|b l IH]; simpl; lia. Qed.

(** ** GenerateMipMaps *)

Lemma u32_idem z : u32 (u32 z) = u32 z.
Proof. unfold u32. apply Z.mod_mod. lia. Qed.

Lemma level_size_u32 e c l :
  u32 (Mip.level_size e c l) = u32 (SA.x e * SA.y e * c * l).
Proof.
  unfold Mip.level_size.
  rewrite u32_u64, Z.mul_1_r, u32_idem, !u32_mul_l.
  rewrite <- (u32_mul_l (u32 (SA.x e * SA.y e) * c) l).
  now rewrite (u32_mul_l (SA.x e * SA.y e) c), u32_mul_l.
Qed.

(** The total is the incoming value plus the chain size, reduced to 32
    bits. *)
Lemma size_loop_total n : forall e t c l,
  0 <= t < 2 ^ 32 ->
  snd (Mip.size_loop n e t c l)
  = u32 (t + chain_size (fst (Mip.size_loop n e t c l)) c l).
Proof.
  induction n as [|n IH]; intros e t c l Ht; simpl.
  - unfold chain_size. simpl. rewrite Z.add_0_r. now rewrite u32_small.
  - specialize (IH (Mip.next_extent e)
                  (u32 (u64 (t + Mip.level_size e c l))) c l (u32_range _)).
    destruct (Mip.size_loop n _ _ c l) as [es t'] eqn:E. simpl in *.
    rewrite IH. unfold chain_size. simpl. fold (chain_size es c l).
    rewrite u32_u64, u32_add_l.
    rewrite <- (Z.add_assoc t), (Z.add_comm t), <- (Z.add_assoc _ _ t).
    rewrite <- (u32_add_l (Mip.level_size e c l)), level_size_u32, u32_add_l.
    f_equal. lia.
Qed.

Lemma halve_max v : 1 <= v -> Mip.halve v = Z.max 1 (v / 2).
Proof.
  intros Hv. unfold Mip.halve. destruct (1 <? v) eqn:E.
  - apply Z.ltb_lt in E. rewrite Z.shiftr_div_pow2 by lia.
    change (2 ^ 1) with 2. assert (1 <= v / 2) by (apply Z.div_le_lower_bound; lia).
    lia.
  - apply Z.ltb_ge in E. assert (v = 1) as -> by lia. reflexivity.
Qed.

Lemma halve_iter W i :
  1 <= W -> Nat.iter i Mip.halve W = Z.max 1 (W / 2 ^ Z.of_nat i).
Proof.
  intros HW. induction i as [|i IH].
  - simpl. rewrite Z.div_1_r. lia.
  - rewrite Nat.iter_succ, IH, halve_max by lia.
    replace (2 ^ Z.of_nat (S i)) with (2 ^ Z.of_nat i * 2)
      by (rewrite Nat2Z.inj_succ, Z.pow_succ_r; lia).
    rewrite <- Z.div_div by lia.
    assert (0 <= W / 2 ^ Z.of_nat i) by (apply Z.div_pos; lia).
    destruct (Z.le_gt_cases 2 (W / 2 ^ Z.of_nat i)) as [Hq|Hq].
    + rewrite (Z.max_r 1 (W / 2 ^ Z.of_nat i)) by lia. reflexivity.
    + rewrite (Z.div_small (W / 2 ^ Z.of_nat i) 2) by lia.
      assert (Z.max 1 (W / 2 ^ Z.of_nat i) = 1) as -> by lia. reflexivity.
Qed.

Lemma next_extent_iter W H i :
  Nat.iter i Mip.next_extent (SA.mkVec2ui W H)
  = SA.mkVec2ui (Nat.iter i Mip.halve W) (Nat.iter i Mip.halve H).
Proof.
  induction i as [|i IH]; [reflexivity|].
  rewrite !Nat.iter_succ, IH. reflexivity.
Qed.

(** The extents written by the size loop are the iterates of the halving
    step; they do not depend on the running total. *)
Lemma size_loop_extents n : forall e t c l,
  fst (Mip.size_loop n e t c l)
  = map (fun i => Nat.iter i Mip.next_extent e) (seq 0 n).
Proof.
  induction n as [|n IH]; intros e t c l; [reflexivity|].
  simpl. specialize (IH (Mip.next_extent e)
                       (u32 (u64 (t + Mip.level_size e c l))) c l).
  destruct (Mip.size_loop n _ _ c l) as [es t'] eqn:E. simpl in *.
  f_equal. rewrite IH, <- seq_shift, map_map.
  apply map_ext. intros i. now rewrite Nat.iter_succ_r.
Qed.

Lemma size_loop_floor n W H t c l :
  1 <= W -> 1 <= H ->
  fst (Mip.size_loop n (SA.mkVec2ui W H) t c l) = map (floor_level W H) (seq 0 n).
Proof.
  intros HW HH. rewrite size_loop_extents. apply map_ext. intros i.
  rewrite next_extent_iter, !halve_iter by lia. reflexivity.
Qed.

Lemma chain_size_floor W H C n :
  chain_size (map (floor_level W H) (seq 0 n)) C 1 = floor_chain_size W H C n.
Proof.
  unfold chain_size, floor_chain_size. rewrite map_map. f_equal.
  apply map_ext. intros i. lia.
Qed.

Lemma mip_count_some e :
  1 <= Z.max (SA.x e) (SA.y e) < 2 ^ 32 ->
  Mip.mip_count e = Some (Z.log2 (Z.max (SA.x e) (SA.y e)) + 1).
Proof.
  intros [Hlo Hhi]. unfold Mip.mip_count.
  destruct (1 <=? _) eqn:E; [|apply Z.leb_gt in E; lia].
  f_equal. apply u32_small.
  assert (0 <= Z.log2 (Z.max (SA.x e) (SA.y e))) by apply Z.log2_nonneg.
  assert (Z.log2 (Z.max (SA.x e) (SA.y e)) < 32) by (apply Z.log2_lt_pow2; lia).
  lia.
Qed.

Lemma length_resize d n : 0 <= n -> Z.of_nat (length (Mip.resize d n)) = n.
Proof.
  intros Hn. unfold Mip.resize.
  rewrite length_app, length_take, length_replicate. lia.
Qed.


Lemma GenerateMipMaps_unfold e data t c l ok mips :
  Mip.mip_count e = Some mips ->
  Mip.GenerateMipMaps e data t c l ok
  = let L := Mip.size_loop (Z.to_nat mips) e t c l in
    Some (Mip.mkMipResult (Mip.resize data (snd L)) mips (snd L) (fst L)
            (if Mip.generate ok 1 (Z.to_nat mips - 1) (Z.to_nat l)
             then [] else ["Mip map creation failed!"%string])).
Proof.
  intros Hm. unfold Mip.GenerateMipMaps. rewrite Hm.
  destruct (Mip.size_loop _ e t c l). reflexivity.
Qed.




Example GenerateMipMaps_4x4 :
  option_map Mip.outTotalSize
    (Mip.GenerateMipMaps (SA.mkVec2ui 4 4) [] 7 4 1 (fun _ _ => true))
  = Some 91.
Proof. reflexivity. Qed.

(** C5, as stated, fails on a 3 x 3 image with one channel: the code halves
    with a right shift, so the levels are 3 x 3 and 1 x 1 (10 bytes), while
    the ceiling formula counts 3 x 3 and 2 x 2 (13 bytes). *)
Lemma ceil_formula_fails_3x3 : ~ ceil_formula_holds_at 3 3 1.
Proof.
  intros Hc.
  specialize (Hc [] (fun _ _ => true) _ eq_refl).
  vm_compute in Hc. discriminate.
Qed.

(** C5, amended. For a [W] x [H] image with [C] channels ([W], [H] >= 1),
    one layer and an incoming total of 0, [GenerateMipMaps] produces
    [floor(log2(max(W,H))) + 1] levels and reports the sum over the levels of
    [max(1, floor(W / 2^i)) * max(1, floor(H / 2^i)) * C], reduced to 32
    bits; the sum itself whenever it fits in 32 bits. *)
Theorem GenerateMipMaps_total_floor :
  forall (W H C : Z) (data : list Byte.byte) (ok : nat -> nat -> bool),
    1 <= W < 2 ^ 32 -> 1 <= H < 2 ^ 32 ->
    exists r,
      Mip.GenerateMipMaps (SA.mkVec2ui W H) data 0 C 1 ok = Some r /\
      Mip.outMipLevels r = Z.log2 (Z.max W H) + 1 /\
      Mip.outTotalSize r
      = u32 (floor_chain_size W H C (Z.to_nat (Mip.outMipLevels r))) /\
      (0 <= floor_chain_size W H C (Z.to_nat (Mip.outMipLevels r)) < 2 ^ 32 ->
       Mip.outTotalSize r
       = floor_chain_size W H C (Z.to_nat (Mip.outMipLevels r))).
Proof.
  intros W H C data ok HW HH.
  assert (Hm : Mip.mip_count (SA.mkVec2ui W H) = Some (Z.log2 (Z.max W H) + 1))
    by (apply mip_count_some; simpl; lia).
  rewrite (GenerateMipMaps_unfold _ _ _ _ _ _ _ Hm). cbv zeta.
  eexists. split; [reflexivity|]. simpl. split; [reflexivity|].
  rewrite size_loop_total by lia. rewrite size_loop_floor by lia.
  rewrite chain_size_floor, Z.add_0_l.
  split; [reflexivity|]. intros Hfit. now apply u32_small.
Qed.

Lemma GenerateMipMaps_total_floor_witness :
  1 <= 3 < 2 ^ 32 /\ 1 <= 5 < 2 ^ 32 /\
  exists r,
    Mip.GenerateMipMaps (SA.mkVec2ui 3 5) [] 0 4 1 (fun _ _ => true) = Some r /\
    Mip.outMipLevels r = Z.log2 (Z.max 3 5) + 1 /\
    Mip.outTotalSize r
    = u32 (floor_chain_size 3 5 4 (Z.to_nat (Mip.outMipLevels r))) /\
    (0 <= floor_chain_size 3 5 4 (Z.to_nat (Mip.outMipLevels r)) < 2 ^ 32 ->
     Mip.outTotalSize r = floor_chain_size 3 5 4 (Z.to_nat (Mip.outMipLevels r))).
Proof.
  split; [lia|]. split; [lia|].
  apply (GenerateMipMaps_total_floor 3 5 4 [] (fun _ _ => true)); lia.
Defined.

(** ** SubmitTextureToGPU *)

Lemma level_bytes_exact e ch :
  0 <= SA.x e * SA.y e * ch < 2 ^ 32 ->
  Upload.level_bytes e ch = SA.x e * SA.y e * ch.
Proof.
  intros H. unfold Upload.level_bytes. rewrite u32_mul_l. now apply u32_small.
Qed.

Lemma sumZ_bounded (l : list Z) (b : Z) :
  Forall (fun z => 0 <= z < b) l -> 0 <= sumZ l <= Z.of_nat (length l) * b.
Proof.
  induction 1 as [|z l Hz Hl IH]; simpl; [lia|].
  change (sumZ (z :: l)) with (z + sumZ l). lia.
Qed.

Lemma copy_loop_spec exts ch : forall n k,
  (k + n <= length exts)%nat ->
  Z.of_nat (k + n) < 2 ^ 16 ->
  Upload.copy_loop n (Z.of_nat k)
    (u64 (sumZ (map (fun e => Upload.level_bytes e ch) (take k exts)))) exts ch
  = Some (imap (fun j => copy_at exts ch (k + j)) (take n (drop k exts))).
Proof.
  induction n as [|n IH]; intros k Hlen Hk; [reflexivity|].
  simpl Upload.copy_loop. rewrite Nat2Z.id.
  destruct (lookup_lt_is_Some_2 exts k ltac:(lia)) as [e He].
  rewrite He.
  replace (u16 (Z.of_nat k + 1)) with (Z.of_nat (S k)) by (rewrite u16_small; lia).
  rewrite u64_add_l, <- sumZ_snoc.
  replace (map (fun e0 => Upload.level_bytes e0 ch) (take k exts)
           ++ [Upload.level_bytes e ch])
    with (map (fun e0 => Upload.level_bytes e0 ch) (take (S k) exts))
    by (rewrite (take_S_r _ _ _ He), map_app; reflexivity).
  rewrite IH by lia.
  rewrite (drop_S _ _ _ He). simpl take. rewrite imap_cons.
  unfold copy_at at 3. rewrite Nat.add_0_r. do 2 f_equal.
  apply imap_ext. intros j y _. unfold compose.
  replace (k + S j)%nat with (S k + j)%nat by lia. reflexivity.
Qed.

(** C4. [SubmitTextureToGPU] records one [CopyTextureRegion] per mip level
    of the texture, level [i] reading the staging buffer at the running sum
    of the byte sizes [width_j * height_j * channelCount] of the levels
    [j < i] (each product being the [uint32_t] product of the code, which is
    the exact product whenever that fits in 32 bits); [GenerateMipMaps]
    produces [floor(log2(max(width, height))) + 1] levels (the number [m]
    with [2^(m-1) <= max(width, height) < 2^m]), the first being the image
    extent and each next one the previous one halved and clamped
    at 1. *)
Theorem texture_upload_mip_chain :
  forall (d : Upload.Device) (MipLevels : Z) (_extents : list SA.Vec2ui)
         (_totalSize _channelNum : Z) (bytes : list Byte.byte)
         (_stateAfter : Upload.D3D12_RESOURCE_STATES)
         (W H t c l : Z) (data : list Byte.byte) (ok : nat -> nat -> bool),
    0 <= MipLevels < 2 ^ 16 ->
    (Z.to_nat MipLevels <= length _extents)%nat ->
    _totalSize <= Z.of_nat (length bytes) ->
    1 <= W < 2 ^ 32 -> 1 <= H < 2 ^ 32 ->
    (exists copies d',
        Upload.SubmitTextureToGPU d MipLevels _extents _totalSize _channelNum
          (Some bytes) _stateAfter false true = Upload.Returned (true, d') /\
        Upload.executed d'
        = Upload.executed d
          ++ [Upload.cmdList0 d ++ copies ++ [Upload.ResourceBarrier _stateAfter]] /\
        length copies = Z.to_nat MipLevels /\
        forall i : nat, (i < Z.to_nat MipLevels)%nat ->
          exists e,
            _extents !! i = Some e /\
            copies !! i
            = Some (Upload.CopyTextureRegion (Z.of_nat i)
                      (u64 (sumZ (map (fun e' => Upload.level_bytes e' _channelNum)
                                    (take i _extents))))
                      (SA.x e) (SA.y e) (u32 (SA.x e * _channelNum))) /\
            (Forall (fun e' => 0 <= SA.x e' * SA.y e' * _channelNum < 2 ^ 32)
               (take i _extents) ->
             u64 (sumZ (map (fun e' => Upload.level_bytes e' _channelNum)
                          (take i _extents)))
             = sumZ (map (fun e' => SA.x e' * SA.y e' * _channelNum)
                       (take i _extents)))) /\
    (exists r,
        Mip.GenerateMipMaps (SA.mkVec2ui W H) data t c l ok = Some r /\
        Mip.outMipLevels r = Z.log2 (Z.max W H) + 1 /\
        2 ^ (Mip.outMipLevels r - 1) <= Z.max W H < 2 ^ Mip.outMipLevels r /\
        length (Mip.outExtents r) = Z.to_nat (Mip.outMipLevels r) /\
        Mip.outExtents r !! 0%nat = Some (SA.mkVec2ui W H) /\
        forall (i : nat) ei,
          Mip.outExtents r !! i = Some ei ->
          (S i < Z.to_nat (Mip.outMipLevels r))%nat ->
          Mip.outExtents r !! S i
          = Some (SA.mkVec2ui (Z.max 1 (SA.x ei / 2)) (Z.max 1 (SA.y ei / 2)))).
Proof.
  intros d MipLevels exts total ch bytes st W H t c l data ok
         HM Hlen Hbytes HW HH.
  split.
  - assert (Hloop : Upload.copy_loop (Z.to_nat MipLevels) 0 0 exts ch
                    = Some (imap (copy_at exts ch) (take (Z.to_nat MipLevels) exts)))
      by (apply (copy_loop_spec exts ch (Z.to_nat MipLevels) 0); lia).
    unfold Upload.SubmitTextureToGPU, Upload.memcpy.
    replace (total <=? Z.of_nat (length bytes)) with true
      by (symmetry; apply Z.leb_le; lia).
    simpl andb. cbv iota. rewrite Hloop.
    eexists _, _. split; [reflexivity|]. simpl.
    split; [now rewrite <- app_assoc|].
    split; [rewrite length_imap, length_take; lia|].
    intros i Hi.
    destruct (lookup_lt_is_Some_2 exts i ltac:(lia)) as [e He].
    exists e. split; [exact He|]. split.
    + rewrite list_lookup_imap, lookup_take.
      destruct (decide (i < Z.to_nat MipLevels)%nat); [|lia].
      rewrite He. reflexivity.
    + intros Hfit.
      assert (Heq : map (fun e' => Upload.level_bytes e' ch) (take i exts)
                    = map (fun e' => SA.x e' * SA.y e' * ch) (take i exts)).
      { induction Hfit as [|e' l' He' _ IH]; [reflexivity|].
        simpl. now rewrite IH, level_bytes_exact. }
      rewrite Heq. apply u64_small.
      assert (Hb := sumZ_bounded (map (fun e' => SA.x e' * SA.y e' * ch) (take i exts))
                     (2 ^ 32)).
      rewrite Forall_map in Hb. specialize (Hb Hfit).
      rewrite length_map, length_take in Hb.
      assert (Z.of_nat (i `min` length exts) < 2 ^ 16) by lia.
      assert (Z.of_nat (i `min` length exts) * 2 ^ 32 < 2 ^ 16 * 2 ^ 32) by nia.
      change (2 ^ 16 * 2 ^ 32) with (2 ^ 48) in *. lia.
  - assert (Hm : Mip.mip_count (SA.mkVec2ui W H) = Some (Z.log2 (Z.max W H) + 1))
      by (apply mip_count_some; simpl; lia).
    rewrite (GenerateMipMaps_unfold _ _ _ _ _ _ _ Hm). cbv zeta.
    eexists. split; [reflexivity|]. simpl. split; [reflexivity|].
    rewrite size_loop_extents.
    assert (0 <= Z.log2 (Z.max W H)) by apply Z.log2_nonneg.
    split.
    { replace (Z.log2 (Z.max W H) + 1 - 1) with (Z.log2 (Z.max W H)) by lia.
      apply (Z.log2_spec (Z.max W H)). lia. }
    split; [now rewrite length_map, length_seq|].
    split.
    { replace (Z.to_nat (Z.log2 (Z.max W H) + 1))
        with (S (Z.to_nat (Z.log2 (Z.max W H)))) by lia. reflexivity. }
    intros i ei Hi HSi.
    rewrite list_lookup_fmap in Hi |- *.
    rewrite lookup_seq_lt in Hi |- * by lia. simpl in Hi |- *.
    injection Hi as <-. f_equal.
    rewrite next_extent_iter. unfold Mip.next_extent. simpl.
    rewrite !halve_max; [reflexivity| |]; rewrite halve_iter by lia; lia.
Qed.


(** ** The fence protocol of the render loop *)

Lemma last_use_from_snoc idxs j i : forall k acc,
  last_use_from k (idxs ++ [j]) i acc
  = if Nat.eqb j i then k + Z.of_nat (length idxs) else last_use_from k idxs i acc.
Proof.
  induction idxs as [|a idxs IH]; intros k acc; simpl.
  - destruct (Nat.eqb j i); [lia|reflexivity].
  - rewrite IH. destruct (Nat.eqb j i); [lia|reflexivity].
Qed.

Lemma last_use_snoc idxs j i :
  last_use (idxs ++ [j]) i
  = if Nat.eqb j i then Z.of_nat (length idxs) + 1 else last_use idxs i.
Proof.
  unfold last_use. rewrite last_use_from_snoc.
  destruct (Nat.eqb j i); [lia|reflexivity].
Qed.

Lemma last_use_bounds idxs i : 0 <= last_use idxs i <= Z.of_nat (length idxs).
Proof.
  induction idxs as [|j idxs IH] using rev_ind; [unfold last_use; simpl; lia|].
  rewrite last_use_snoc, length_app. simpl.
  destruct (Nat.eqb j i); lia.
Qed.

(** *** The shape of the pending queue *)

(** Case analysis on the command at the head of a queue. *)
Ltac head_cmd c :=
  let i := fresh "i" in
  let v := fresh "v" in
  destruct c as [i| |v].

Section QueueShape.

Variable vals : list Z.   (* the stored fence values *)
Variable hi : Z.          (* the last value submitted *)

Lemma queue_ok_le : forall q lo, queue_ok vals lo hi q -> lo <= hi.
Proof.
  induction q as [|c q IH]; intros lo H; simpl in H; [lia|].
  head_cmd c.
  - destruct H as [_ H]. now apply IH.
  - now apply IH.
  - destruct H as [-> H]. apply IH in H. lia.
Qed.

(** Every pending signal lies above the fence. *)
Lemma queue_ok_signal_gt v : forall q lo,
  queue_ok vals lo hi q -> In (Frame.Signal v) q -> lo < v.
Proof.
  induction q as [|c q IH]; intros lo H Hin; [destruct Hin|].
  destruct Hin as [->|Hin].
  - simpl in H. lia.
  - head_cmd c; simpl in H.
    + destruct H as [_ H]. now apply IH.
    + now apply IH.
    + destruct H as [-> H]. specialize (IH _ H Hin). lia.
Qed.

(** Storing larger values keeps the queue well-formed. *)
Lemma queue_ok_mono vals' :
  (forall i w, vals !! i = Some w -> exists w', vals' !! i = Some w' /\ w <= w') ->
  forall q lo, queue_ok vals lo hi q -> queue_ok vals' lo hi q.
Proof.
  intros Hm. induction q as [|c q IH]; intros lo H; simpl in *; [exact H|].
  head_cmd c.
  - destruct H as [(v & w & Hin & Hw & Hle) H]. split; [|now apply IH].
    destruct (Hm _ _ Hw) as (w' & Hw' & Hle'). exists v, w'.
    repeat split; [assumption|assumption|lia].
  - now apply IH.
  - destruct H as [-> H]. split; [reflexivity|now apply IH].
Qed.

(** Submitting one more frame on slot [i]. *)
Lemma queue_ok_submit i :
  vals !! i = Some (hi + 1) ->
  forall q lo, queue_ok vals lo hi q ->
  queue_ok vals lo (hi + 1)
    (q ++ [Frame.ExecuteCommandLists i; Frame.Present; Frame.Signal (hi + 1)]).
Proof.
  intros Hi. induction q as [|c q IH]; intros lo H; simpl in *.
  - subst lo. split; [|split; reflexivity].
    exists (hi + 1), (hi + 1). repeat split; [right; left; reflexivity|assumption|lia].
  - head_cmd c.
    + destruct H as [(v & w & Hin & Hw & Hle) H]. split; [|now apply IH].
      exists v, w. repeat split; [apply in_or_app; now left|assumption|assumption].
    + now apply IH.
    + destruct H as [-> H]. split; [reflexivity|now apply IH].
Qed.

(** Once the fence has reached the value stored for a slot, no command list
    of that slot is pending. *)
Lemma queue_ok_slot_idle i w : forall q lo,
  queue_ok vals lo hi q -> vals !! i = Some w -> w <= lo ->
  ~ In (Frame.ExecuteCommandLists i) q.
Proof.
  induction q as [|c q IH]; intros lo H Hw Hle Hin; [destruct Hin|].
  head_cmd c; simpl in H.
  - destruct H as [(v & w' & Hv & Hw' & Hle') H].
    destruct Hin as [E|Hin]; [|now apply (IH lo)].
    injection E as ->. rewrite Hw in Hw'. injection Hw' as <-.
    pose proof (queue_ok_signal_gt _ _ _ H Hv). lia.
  - destruct Hin as [E|Hin]; [discriminate|]. now apply (IH lo).
  - destruct H as [-> H]. destruct Hin as [E|Hin]; [discriminate|].
    apply (IH (lo + 1)); [assumption|assumption|lia|assumption].
Qed.

(** The GPU retiring commands keeps the shape and never lowers the fence. *)
Lemma gpu_run_ok : forall n q lo,
  queue_ok vals lo hi q ->
  queue_ok vals (snd (Frame.gpu_run n q lo)) hi (fst (Frame.gpu_run n q lo))
  /\ lo <= snd (Frame.gpu_run n q lo).
Proof.
  induction n as [|n IH]; intros q lo H; [simpl; split; [assumption|lia]|].
  destruct q as [|c q]; [simpl; split; [assumption|lia]|].
  simpl Frame.gpu_run. head_cmd c; simpl in H |- *.
  - destruct H as [_ H]. now apply IH.
  - now apply IH.
  - destruct H as [-> H]. destruct (IH _ _ H) as [H1 H2]. split; [assumption|lia].
Qed.

(** The wait returns as soon as the fence holds the target, and it always
    returns when the target is a value already submitted. *)
Lemma wait_fence_ok target : forall q lo,
  queue_ok vals lo hi q -> target <= hi ->
  exists q' f' k,
    Frame.wait_fence target q lo = Some (q', f', k)
    /\ queue_ok vals f' hi q'
    /\ (lo < target -> f' = target)
    /\ (target <= lo -> f' = lo /\ q' = q /\ k = O).
Proof.
  induction q as [|c q IH]; intros lo H Ht.
  - simpl in H. subst lo. simpl.
    destruct (target <=? hi) eqn:E; [|apply Z.leb_gt in E; lia].
    exists [], hi, O. repeat split; try reflexivity; lia.
  - simpl Frame.wait_fence. destruct (target <=? lo) eqn:E.
    + apply Z.leb_le in E. exists (c :: q), lo, O.
      repeat split; try assumption; try reflexivity; lia.
    + apply Z.leb_gt in E.
      assert (Hq : queue_ok vals (Frame.gpu_exec c lo) hi q
                   /\ Frame.gpu_exec c lo <= target).
      { head_cmd c; simpl in H |- *.
        - split; [apply H|lia].
        - split; [apply H|lia].
        - destruct H as [-> H]. split; [assumption|lia]. }
      destruct Hq as [Hq Hle].
      destruct (IH _ Hq Ht) as (q' & f' & k & Hw & Hok & Hlt & Hge).
      rewrite Hw. exists q', f', (S k). repeat split; try assumption.
      * intros _. destruct (Z.eq_dec (Frame.gpu_exec c lo) target) as [Heq|Hne].
        -- destruct Hge as (-> & _ & _); lia.
        -- apply Hlt. lia.
      * lia.
      * lia.
      * lia.
Qed.

End QueueShape.

(** What "Swapchain Begin" does from a state satisfying the invariant. *)
Lemma frame_begin_spec idxs s env :
  loop_inv idxs s ->
  (Frame.backBuffer env < Frame.bufferingCount)%nat ->
  let n := Z.of_nat (length idxs) in
  let idx := Frame.backBuffer env in
  let w := last_use idxs idx in
  let f1 := snd (Frame.gpu_run (Frame.gpuProgress env) (Frame.queue s) (Frame.fence s)) in
  let q1 := fst (Frame.gpu_run (Frame.gpuProgress env) (Frame.queue s) (Frame.fence s)) in
  let polled := Frame.calls s ++ [Frame.GetCurrentBackBufferIndex idx;
                                  Frame.GetCompletedValue f1] in
  (f1 < w -> Frame.hrSetEvent_failed env = true ->
   exists s1, Frame.frame_begin env s = Frame.Exit EXIT_FAILURE s1
              /\ Frame.log s1 = Frame.log s ++ ["Fence SetEventOnCompletion failed."%string])
  /\ (w <= f1 \/ Frame.hrSetEvent_failed env = false ->
      exists s1,
        Frame.frame_begin env s = Frame.Continue s1
        /\ Frame.swapchainFenceValues s1
           = <[idx := u32 (n + 1)]> (Frame.swapchainFenceValues s)
        /\ Frame.swapchainFrameIndex s1 = idx
        /\ Frame.log s1 = Frame.log s
        /\ queue_ok (Frame.swapchainFenceValues s) (Frame.fence s1) n (Frame.queue s1)
        /\ w <= Frame.fence s1
        /\ Frame.fence s <= Frame.fence s1
        /\ (f1 < w ->
            Frame.fence s1 = w
            /\ Frame.calls s1
               = polled ++ [Frame.SetEventOnCompletion w;
                            Frame.WaitForSingleObjectEx_INFINITE])
        /\ (w <= f1 ->
            Frame.fence s1 = f1 /\ Frame.queue s1 = q1
            /\ Frame.clock s1 = Frame.clock s /\ Frame.calls s1 = polled)).
Proof.
  intros Inv Hidx n idx w f1 q1 polled.
  destruct Inv as [Hlen Hfi Hvals Hlast Hq Hf0 Hlastidx].
  pose proof (gpu_run_ok _ _ (Frame.gpuProgress env) _ _ Hq) as [Hq1 Hf1].
  fold f1 q1 in Hq1, Hf1.
  pose proof (Hvals idx Hidx) as Hcur. fold w in Hcur.
  pose proof (last_use_bounds idxs idx) as Hw. fold w n in Hw.
  unfold Frame.frame_begin. rewrite Hlast. fold idx. rewrite Hcur.
  destruct (Frame.gpu_run (Frame.gpuProgress env) (Frame.queue s) (Frame.fence s))
    as [q1' f1'] eqn:Erun.
  simpl in f1, q1. subst f1 q1. fold n.
  destruct (f1' <? w) eqn:E.
  - apply Z.ltb_lt in E. split.
    + intros _ Hfail. rewrite Hfail. eexists. split; reflexivity.
    + intros [Hge|Hok]; [lia|]. rewrite Hok.
      destruct (wait_fence_ok _ _ w _ _ Hq1 ltac:(lia))
        as (q2 & f2 & k & Hwait & Hq2 & Hlt & _).
      rewrite Hwait. specialize (Hlt E). subst f2.
      eexists. split; [reflexivity|]. simpl.
      repeat split; try assumption; try reflexivity; try lia.
  - apply Z.ltb_ge in E. split; [lia|]. intros _.
    eexists. split; [reflexivity|]. simpl.
    repeat split; try assumption; try reflexivity; try lia.
Qed.

(** "Swapchain Begin" only continues with a valid back-buffer index, and,
    when it has to wait, with a successful [SetEventOnCompletion]. *)
Lemma frame_begin_continue idxs s env s1 :
  loop_inv idxs s ->
  Frame.frame_begin env s = Frame.Continue s1 ->
  (Frame.backBuffer env < Frame.bufferingCount)%nat
  /\ (last_use idxs (Frame.backBuffer env)
      <= snd (Frame.gpu_run (Frame.gpuProgress env) (Frame.queue s) (Frame.fence s))
      \/ Frame.hrSetEvent_failed env = false).
Proof.
  intros Inv Hb.
  assert (Hidx : (Frame.backBuffer env < Frame.bufferingCount)%nat).
  { destruct (Nat.lt_ge_cases (Frame.backBuffer env) Frame.bufferingCount) as [|Hge];
      [assumption|exfalso].
    unfold Frame.frame_begin in Hb. rewrite (inv_last _ _ Inv) in Hb.
    rewrite (lookup_ge_None_2 _ (Frame.backBuffer env)) in Hb
      by (rewrite (inv_length _ _ Inv); exact Hge).
    discriminate. }
  split; [exact Hidx|].
  destruct (Z.le_gt_cases (last_use idxs (Frame.backBuffer env))
              (snd (Frame.gpu_run (Frame.gpuProgress env) (Frame.queue s) (Frame.fence s))))
    as [Hle|Hgt]; [now left|right].
  destruct (Frame.hrSetEvent_failed env) eqn:Ef; [exfalso|reflexivity].
  destruct (frame_begin_spec idxs s env Inv Hidx) as [Hex _].
  destruct (Hex ltac:(lia) Ef) as (s' & Hs' & _). congruence.
Qed.

Lemma lookup_insert_last_use idxs vals idx :
  length vals = Frame.bufferingCount ->
  (idx < Frame.bufferingCount)%nat ->
  (forall i, (i < Frame.bufferingCount)%nat -> vals !! i = Some (last_use idxs i)) ->
  forall i, (i < Frame.bufferingCount)%nat ->
  <[idx := Z.of_nat (length idxs) + 1]> vals !! i = Some (last_use (idxs ++ [idx]) i).
Proof.
  intros Hlen Hidx Hvals i Hi. rewrite last_use_snoc.
  destruct (Nat.eqb idx i) eqn:E.
  - apply Nat.eqb_eq in E. subst i. apply list_lookup_insert_eq. lia.
  - apply Nat.eqb_neq in E. rewrite list_lookup_insert_ne by assumption.
    now apply Hvals.
Qed.

(** The rest of the turn after a "Swapchain Begin" that continued: the
    invariant is re-established with one more frame submitted. *)
Lemma frame_rest idxs s env s1 :
  loop_inv idxs s ->
  Z.of_nat (length idxs) + 1 < 2 ^ 32 ->
  (Frame.backBuffer env < Frame.bufferingCount)%nat ->
  Frame.swapchainFenceValues s1
  = <[Frame.backBuffer env := u32 (Z.of_nat (length idxs) + 1)]>
      (Frame.swapchainFenceValues s) ->
  Frame.swapchainFrameIndex s1 = Frame.backBuffer env ->
  queue_ok (Frame.swapchainFenceValues s) (Frame.fence s1)
    (Z.of_nat (length idxs)) (Frame.queue s1) ->
  0 <= Frame.fence s1 ->
  Frame.hrPresent_failed env = false ->
  Frame.hrFenceSignal_failed env = false ->
  exists s',
    Frame.frame_end env (Frame.frame_record s1) = Frame.Continue s'
    /\ loop_inv (idxs ++ [Frame.backBuffer env]) s'
    /\ Frame.fence s' = Frame.fence s1
    /\ Frame.clock s' = Frame.clock s1
    /\ Frame.log s' = Frame.log s1
    /\ Frame.queue s'
       = Frame.queue s1
         ++ [Frame.ExecuteCommandLists (Frame.backBuffer env); Frame.Present;
             Frame.Signal (Z.of_nat (length idxs) + 1)]
    /\ Frame.calls s'
       = Frame.calls s1
         ++ [Frame.ResetAllocator (Frame.backBuffer env);
             Frame.ResetCommandList (Frame.backBuffer env);
             Frame.CloseCommandList (Frame.backBuffer env);
             Frame.QueueExecuteCommandLists (Frame.backBuffer env);
             Frame.SwapchainPresent;
             Frame.QueueSignal (Z.of_nat (length idxs) + 1)].
Proof.
  intros Inv Hn Hidx Hvals1 Hfi1 Hq1 Hf1 Hp Hs.
  destruct Inv as [Hlen Hfi Hvals Hlast Hq Hf0 Hcur].
  rewrite u32_small in Hvals1 by lia.
  set (n := Z.of_nat (length idxs)) in *.
  set (idx := Frame.backBuffer env) in *.
  assert (Hnew : Frame.swapchainFenceValues s1 !! idx = Some (n + 1)).
  { rewrite Hvals1. apply list_lookup_insert_eq. lia. }
  unfold Frame.frame_end, Frame.frame_record. simpl.
  rewrite Hp, Hs, Hfi1, Hnew.
  eexists. split; [reflexivity|]. simpl.
  repeat split; try reflexivity.
  - simpl. rewrite Hvals1, length_insert. exact Hlen.
  - simpl. exact Hidx.
  - simpl. rewrite Hvals1. intros i Hi.
    now apply lookup_insert_last_use.
  - simpl. rewrite Hnew, length_app. simpl. f_equal. lia.
  - simpl. rewrite length_app. simpl length.
    replace (Z.of_nat (length idxs + 1)) with (n + 1) by lia.
    rewrite <- app_assoc. simpl app.
    apply queue_ok_submit; [exact Hnew|].
    eapply queue_ok_mono; [|exact Hq1].
    intros i w Hw. rewrite Hvals1.
    assert (Hi : (i < Frame.bufferingCount)%nat)
      by (rewrite <- Hlen; eapply lookup_lt_Some; exact Hw).
    destruct (Nat.eq_dec idx i) as [<-|Hne].
    + exists (n + 1). split; [apply list_lookup_insert_eq; lia|].
      rewrite (Hvals idx Hidx) in Hw. injection Hw as <-.
      pose proof (last_use_bounds idxs idx). lia.
    + exists w. split; [now rewrite list_lookup_insert_ne|lia].
  - simpl. exact Hf1.
  - simpl. intros i. rewrite last_snoc. intros E. injection E as E. subst i.
    reflexivity.
  - now rewrite <- app_assoc.
  - now rewrite <- app_assoc.
Qed.

Lemma run_app envs1 envs2 s :
  Frame.run (envs1 ++ envs2) s
  = match Frame.run envs1 s with
    | Frame.Continue s' => Frame.run envs2 s'
    | o => o
    end.
Proof.
  revert s. induction envs1 as [|e envs1 IH]; intros s; simpl; [reflexivity|].
  destruct (Frame.frame e s); try reflexivity. apply IH.
Qed.

Lemma run_snoc envs env s :
  Frame.run (envs ++ [env]) s
  = match Frame.run envs s with
    | Frame.Continue s' => Frame.frame env s'
    | o => o
    end.
Proof.
  rewrite run_app. destruct (Frame.run envs s); try reflexivity.
  simpl. now destruct (Frame.frame env s0).
Qed.

Lemma init_inv : loop_inv [] Frame.init.
Proof.
  split; simpl; try reflexivity; try (unfold Frame.bufferingCount; lia);
    try discriminate.
  intros i Hi. unfold Frame.bufferingCount in Hi.
  destruct i as [|[|[|i]]]; try reflexivity; lia.
Qed.

(** A turn that continues re-establishes the invariant. *)
Lemma frame_continue_inv idxs s env s' :
  loop_inv idxs s ->
  Z.of_nat (length idxs) + 1 < 2 ^ 32 ->
  Frame.frame env s = Frame.Continue s' ->
  loop_inv (idxs ++ [Frame.backBuffer env]) s'.
Proof.
  intros Inv Hn Hf. unfold Frame.frame in Hf.
  destruct (Frame.frame_begin env s) as [s1| | |] eqn:Hb; try discriminate.
  destruct (frame_begin_continue _ _ _ _ Inv Hb) as [Hidx Hcan].
  destruct (frame_begin_spec idxs s env Inv Hidx) as [_ Hc].
  destruct (Hc Hcan) as (s1' & Hb' & Hv & Hi & _ & Hq & _ & Hmono & _).
  rewrite Hb in Hb'. injection Hb' as <-.
  pose proof (inv_fence _ _ Inv) as Hf0.
  destruct (Frame.hrPresent_failed env) eqn:Hp.
  { unfold Frame.frame_end in Hf. rewrite Hp in Hf. discriminate. }
  destruct (Frame.hrFenceSignal_failed env) eqn:Hs.
  { unfold Frame.frame_end in Hf. rewrite Hp, Hs in Hf.
    destruct (_ !! _) in Hf; discriminate. }
  destruct (frame_rest idxs s env s1 Inv Hn Hidx Hv Hi Hq ltac:(lia) Hp Hs)
    as (s'' & He & Inv' & _).
  rewrite He in Hf. injection Hf as <-. exact Inv'.
Qed.

(** Every state the loop reaches satisfies the invariant. *)
Lemma run_continue_inv envs : forall s,
  Z.of_nat (length envs) < 2 ^ 32 ->
  Frame.run envs Frame.init = Frame.Continue s ->
  loop_inv (map Frame.backBuffer envs) s.
Proof.
  induction envs as [|env envs IH] using rev_ind; intros s Hn Hr.
  - simpl in Hr. injection Hr as <-. apply init_inv.
  - rewrite length_app in Hn. simpl in Hn.
    rewrite run_snoc in Hr.
    destruct (Frame.run envs Frame.init) as [s0| | |] eqn:E; try discriminate.
    rewrite map_app. simpl.
    eapply frame_continue_inv; [apply IH; [lia|reflexivity]| |exact Hr].
    rewrite length_map. lia.
Qed.

(** Without API failures and with valid back-buffer indices the loop keeps
    going. *)
Lemma run_total envs :
  Z.of_nat (length envs) < 2 ^ 32 ->
  Forall (fun env => (Frame.backBuffer env < Frame.bufferingCount)%nat
                     /\ Frame.no_failure env) envs ->
  exists s, Frame.run envs Frame.init = Frame.Continue s.
Proof.
  induction envs as [|env envs IH] using rev_ind; intros Hn Hall.
  - exists Frame.init. reflexivity.
  - rewrite length_app in Hn. simpl in Hn.
    apply Forall_app in Hall. destruct Hall as [Hall Henv].
    apply Forall_inv in Henv. destruct Henv as (Hidx & Hse & Hp & Hs).
    destruct (IH ltac:(lia) Hall) as [s Hs0].
    pose proof (run_continue_inv envs s ltac:(lia) Hs0) as Inv.
    rewrite run_snoc, Hs0. unfold Frame.frame.
    destruct (frame_begin_spec _ s env Inv Hidx) as [_ Hc].
    destruct (Hc (or_intror Hse)) as (s1 & Hb & Hv & Hi & _ & Hq & _ & Hmono & _).
    rewrite Hb. pose proof (inv_fence _ _ Inv) as Hf0.
    destruct (frame_rest _ s env s1 Inv ltac:(rewrite length_map; lia)
                Hidx Hv Hi Hq ltac:(lia) Hp Hs) as (s' & He & _).
    exists s'. exact He.
Qed.

(** *** Round-robin back buffers *)

Lemma mod3_shift m :
  ((m + 3) mod 3 = m mod 3 /\ (m + 1) mod 3 <> m mod 3
   /\ (m + 2) mod 3 <> m mod 3)%nat.
Proof.
  pose proof (Nat.div_mod_eq m 3). pose proof (Nat.mod_upper_bound m 3).
  pose proof (Nat.div_mod_eq (m + 1) 3). pose proof (Nat.mod_upper_bound (m + 1) 3).
  pose proof (Nat.div_mod_eq (m + 2) 3). pose proof (Nat.mod_upper_bound (m + 2) 3).
  pose proof (Nat.div_mod_eq (m + 3) 3). pose proof (Nat.mod_upper_bound (m + 3) 3).
  lia.
Qed.

Lemma rr_S n : rr (S n) = rr n ++ [(n mod 3)%nat].
Proof. unfold rr. now rewrite seq_S, map_app. Qed.

Lemma length_rr n : length (rr n) = n.
Proof. unfold rr. now rewrite length_map, length_seq. Qed.

(** With round-robin indices the slot of turn [n + 1] was last used by turn
    [n - 2], and not at all during the first three turns. *)
Lemma last_use_rr n :
  last_use (rr n) (n mod 3) = if (n <? 3)%nat then 0 else Z.of_nat n - 2.
Proof.
  destruct (n <? 3)%nat eqn:E.
  - apply Nat.ltb_lt in E. destruct n as [|[|[|n]]]; try reflexivity; lia.
  - apply Nat.ltb_ge in E.
    replace n with (S (S (S (n - 3)))) at 1 by lia.
    rewrite !rr_S, !last_use_snoc.
    destruct (mod3_shift (n - 3)) as (H3 & H1 & H2).
    replace (S (n - 3)) with (n - 3 + 1)%nat by lia.
    replace (S (n - 3 + 1)) with (n - 3 + 2)%nat by lia.
    replace (n mod 3)%nat with ((n - 3) mod 3)%nat
      by (rewrite <- H3; f_equal; lia).
    rewrite (proj2 (Nat.eqb_neq _ _) H2), (proj2 (Nat.eqb_neq _ _) H1), Nat.eqb_refl.
    rewrite length_rr. lia.
Qed.

Lemma round_robin_indices envs :
  Frame.round_robin envs -> map Frame.backBuffer envs = rr (length envs).
Proof.
  intros Hrr. apply list_eq. intros j. unfold rr.
  rewrite !list_lookup_fmap.
  destruct (envs !! j) as [env|] eqn:E; simpl.
  - rewrite lookup_seq_lt by (eapply lookup_lt_Some; exact E). simpl.
    f_equal. apply (Hrr _ _ E).
  - rewrite lookup_seq_ge by (apply lookup_ge_None; exact E). reflexivity.
Qed.

Lemma round_robin_app envs1 envs2 :
  Frame.round_robin (envs1 ++ envs2) -> Frame.round_robin envs1.
Proof.
  intros H j env E. apply H. now apply lookup_app_l_Some.
Qed.

Lemma round_robin_valid envs :
  Frame.round_robin envs ->
  Forall (fun env => (Frame.backBuffer env < Frame.bufferingCount)%nat) envs.
Proof.
  intros H. apply Forall_lookup. intros j env E. rewrite (H _ _ E).
  apply Nat.mod_upper_bound. discriminate.
Qed.

Lemma run_prefix envs m s :
  Frame.run envs Frame.init = Frame.Continue s ->
  exists s0, Frame.run (take m envs) Frame.init = Frame.Continue s0.
Proof.
  intros H. rewrite <- (take_drop m envs), run_app in H.
  destruct (Frame.run (take m envs) Frame.init); try discriminate. eauto.
Qed.

(** C1. With three buffers, fence values starting at 0, round-robin back
    buffers and no failing call, turn [k] of the loop is reached (for [k]
    below 2^32, the range of the [uint32_t] fence counters), and its
    "Swapchain Begin" block: does not wait in turns 1 to 3; in a turn
    [k >= 4] compares the fence with the value signaled at the end of turn
    [k - 3], returns at once if the fence has reached it, and otherwise
    waits and resumes exactly when the fence holds that value. *)
Theorem frame_begin_round_robin :
  forall (envs : list Frame.Env) (env : Frame.Env),
    Z.of_nat (S (length envs)) < 2 ^ 32 ->
    Frame.round_robin (envs ++ [env]) ->
    Forall Frame.no_failure (envs ++ [env]) ->
    exists s s1 f1,
      let k := S (length envs) in
      let polled :=
        Frame.calls s ++ [Frame.GetCurrentBackBufferIndex ((k - 1) mod 3);
                          Frame.GetCompletedValue f1] in
      Frame.run envs Frame.init = Frame.Continue s /\
      Frame.frame_begin env s = Frame.Continue s1 /\
      f1 = snd (Frame.gpu_run (Frame.gpuProgress env) (Frame.queue s) (Frame.fence s)) /\
      ((k <= 3)%nat -> Frame.calls s1 = polled /\ Frame.clock s1 = Frame.clock s) /\
      ((4 <= k)%nat ->
       exists s3,
         Frame.run (take (k - 3) envs) Frame.init = Frame.Continue s3 /\
         Frame.last_signaled s3 = Some (Z.of_nat (k - 3)) /\
         Frame.swapchainFenceValues s !! Frame.backBuffer env
         = Some (Z.of_nat (k - 3)) /\
         Z.of_nat (k - 3) <= Frame.fence s1 /\
         (f1 < Z.of_nat (k - 3) ->
          Frame.calls s1
          = polled ++ [Frame.SetEventOnCompletion (Z.of_nat (k - 3));
                       Frame.WaitForSingleObjectEx_INFINITE]
          /\ Frame.fence s1 = Z.of_nat (k - 3)) /\
         (Z.of_nat (k - 3) <= f1 ->
          Frame.calls s1 = polled /\ Frame.clock s1 = Frame.clock s)).
Proof.
  intros envs env Hk Hrr Hnf.
  pose proof (round_robin_app _ _ Hrr) as Hrr0.
  apply Forall_app in Hnf. destruct Hnf as [Hnf0 Hnf1]. apply Forall_inv in Hnf1.
  assert (Hidx : Frame.backBuffer env = (length envs mod 3)%nat).
  { apply (Hrr (length envs)). now rewrite lookup_app_r, Nat.sub_diag by lia. }
  assert (Hall : Forall (fun e => (Frame.backBuffer e < Frame.bufferingCount)%nat
                                  /\ Frame.no_failure e) envs).
  { apply Forall_and. split; [now apply round_robin_valid|assumption]. }
  destruct (run_total envs ltac:(lia) Hall) as [s Hs].
  pose proof (run_continue_inv envs s ltac:(lia) Hs) as Inv.
  rewrite (round_robin_indices _ Hrr0) in Inv.
  assert (Hlt : (Frame.backBuffer env < Frame.bufferingCount)%nat)
    by (rewrite Hidx; apply Nat.mod_upper_bound; discriminate).
  destruct (frame_begin_spec _ s env Inv Hlt) as [_ Hc].
  destruct (Hc (or_intror (proj1 Hnf1)))
    as (s1 & Hb & _ & _ & _ & _ & Hge & _ & Hwait & Hnowait).
  rewrite Hidx, last_use_rr in Hge, Hwait, Hnowait.
  exists s, s1,
    (snd (Frame.gpu_run (Frame.gpuProgress env) (Frame.queue s) (Frame.fence s))).
  cbv zeta.
  split; [exact Hs|]. split; [exact Hb|]. split; [reflexivity|].
  replace (S (length envs) - 1)%nat with (length envs) by lia.
  split.
  - intros Hk3.
    replace (length envs <? 3)%nat with true in *
      by (symmetry; apply Nat.ltb_lt; lia).
    pose proof (gpu_run_ok _ _ (Frame.gpuProgress env) _ _ (inv_queue _ _ Inv)) as [_ Hf].
    pose proof (inv_fence _ _ Inv).
    destruct (Hnowait ltac:(lia)) as (_ & _ & Hclk & Hcalls). now split.
  - intros Hk4.
    replace (length envs <? 3)%nat with false in *
      by (symmetry; apply Nat.ltb_ge; lia).
    replace (Z.of_nat (length envs) - 2) with (Z.of_nat (S (length envs) - 3)) in * by lia.
    destruct (run_prefix envs (S (length envs) - 3) s Hs) as [s3 Hs3].
    exists s3. split; [exact Hs3|].
    pose proof (run_continue_inv (take (S (length envs) - 3) envs) s3
                  ltac:(rewrite length_take; lia) Hs3) as Inv3.
    split.
    { unfold Frame.last_signaled. rewrite (inv_last _ _ Inv3).
      rewrite length_map, length_take. do 2 f_equal. lia. }
    split.
    { rewrite (inv_vals _ _ Inv _ Hlt), Hidx, last_use_rr.
      replace (length envs <? 3)%nat with false by (symmetry; apply Nat.ltb_ge; lia).
      f_equal. lia. }
    split; [exact Hge|]. split.
    + intros Hlow. destruct (Hwait Hlow) as [Hf Hcalls]. now split.
    + intros Hhigh. destruct (Hnowait Hhigh) as (_ & _ & Hclk & Hcalls). now split.
Qed.

(** *** The slot a turn re-records *)

Lemma last_use_unused idxs i : last_use idxs i = 0 -> ~ In i idxs.
Proof.
  induction idxs as [|j idxs IH] using rev_ind; intros H; [intros []|].
  rewrite last_use_snoc in H. destruct (Nat.eqb j i) eqn:E; [lia|].
  apply Nat.eqb_neq in E. rewrite in_app_iff. simpl. intros [Hin|[Hj|[]]].
  - now apply IH.
  - contradiction.
Qed.

Lemma last_use_used idxs i (m : nat) :
  last_use idxs i = Z.of_nat m -> (1 <= m)%nat ->
  (m <= length idxs)%nat /\ idxs !! (m - 1)%nat = Some i
  /\ forall j, (m <= j)%nat -> idxs !! j <> Some i.
Proof.
  induction idxs as [|a idxs IH] using rev_ind; intros H Hm.
  - unfold last_use in H. simpl in H. lia.
  - rewrite last_use_snoc in H. rewrite length_app. simpl length.
    destruct (Nat.eqb a i) eqn:E.
    + apply Nat.eqb_eq in E. subst a.
      assert (m = S (length idxs)) as -> by lia.
      split; [lia|]. split.
      * replace (S (length idxs) - 1)%nat with (length idxs) by lia.
        now rewrite lookup_app_r, Nat.sub_diag by lia.
      * intros j Hj. rewrite lookup_ge_None_2; [discriminate|].
        rewrite length_app. simpl. lia.
    + apply Nat.eqb_neq in E. destruct (IH H Hm) as (Hle & Hat & Hafter).
      split; [lia|]. split.
      * rewrite lookup_app_l by lia. exact Hat.
      * intros j Hj. destruct (Nat.lt_ge_cases j (length idxs)) as [Hlt|Hge].
        -- rewrite lookup_app_l by lia. now apply Hafter.
        -- rewrite lookup_app_r by lia.
           destruct (j - length idxs)%nat as [|d]; simpl; [congruence|].
           now destruct d.
Qed.

(** C2. In every turn of the loop (whatever back-buffer index [i] the
    swapchain returns), the allocator and command list of slot [i] are reset
    only after "Swapchain Begin" has seen the fence at or above
    [swapchainFenceValues[i]]; that value is the one signaled at the end of
    the last turn that used slot [i] (0 if there was none), so when the
    slot is re-recorded neither a command list of that slot nor its signal
    is still pending on the queue. *)
Theorem reset_after_fence :
  forall (envs : list Frame.Env) (env : Frame.Env) (s s1 : Frame.Renderer),
    Z.of_nat (S (length envs)) < 2 ^ 32 ->
    Frame.run envs Frame.init = Frame.Continue s ->
    Frame.frame_begin env s = Frame.Continue s1 ->
    exists target,
      let i := Frame.backBuffer env in
      Frame.swapchainFenceValues s !! i = Some target /\
      target <= Frame.fence s1 /\
      Frame.calls (Frame.frame_record s1)
      = Frame.calls s1 ++ [Frame.ResetAllocator i; Frame.ResetCommandList i;
                           Frame.CloseCommandList i;
                           Frame.QueueExecuteCommandLists i] /\
      ~ In (Frame.ExecuteCommandLists i) (Frame.queue s1) /\
      (forall v, In (Frame.Signal v) (Frame.queue s1) -> target < v) /\
      ((target = 0 /\ ~ In i (map Frame.backBuffer envs))
       \/ exists (m : nat) s_m,
            (1 <= m <= length envs)%nat /\ target = Z.of_nat m /\
            Frame.run (take m envs) Frame.init = Frame.Continue s_m /\
            Frame.swapchainFrameIndex s_m = i /\
            Frame.last_signaled s_m = Some target /\
            forall j e, (m <= j)%nat -> envs !! j = Some e ->
                        Frame.backBuffer e <> i).
Proof.
  intros envs env s s1 Hk Hs Hb.
  pose proof (run_continue_inv envs s ltac:(lia) Hs) as Inv.
  destruct (frame_begin_continue _ _ _ _ Inv Hb) as [Hidx Hcan].
  destruct (frame_begin_spec _ s env Inv Hidx) as [_ Hc].
  destruct (Hc Hcan) as (s1' & Hb' & _ & Hi & _ & Hq & Hge & _).
  rewrite Hb in Hb'. injection Hb' as <-.
  set (i := Frame.backBuffer env) in *.
  set (idxs := map Frame.backBuffer envs) in *.
  exists (last_use idxs i). cbv zeta.
  pose proof (inv_vals _ _ Inv i Hidx) as Hval.
  split; [exact Hval|]. split; [exact Hge|].
  split; [unfold Frame.frame_record; simpl; now rewrite Hi|].
  split; [eapply queue_ok_slot_idle; [exact Hq|exact Hval|exact Hge]|].
  split.
  { intros v Hv. pose proof (queue_ok_signal_gt _ _ _ _ _ Hq Hv). lia. }
  pose proof (last_use_bounds idxs i) as Hbd.
  destruct (Z.eq_dec (last_use idxs i) 0) as [Hz|Hnz].
  - left. split; [exact Hz|now apply last_use_unused].
  - right. set (m := Z.to_nat (last_use idxs i)).
    assert (Hm : last_use idxs i = Z.of_nat m) by (unfold m; lia).
    destruct (last_use_used idxs i m Hm ltac:(lia)) as (Hle & Hat & Hafter).
    unfold idxs in Hle. rewrite length_map in Hle.
    destruct (run_prefix envs m s Hs) as [s_m Hsm].
    exists m, s_m. split; [lia|]. split; [exact Hm|]. split; [exact Hsm|].
    pose proof (run_continue_inv (take m envs) s_m
                  ltac:(rewrite length_take; lia) Hsm) as Invm.
    split; [|split].
    + apply (inv_cur _ _ Invm). rewrite last_lookup, length_map, length_take.
      replace (Init.Nat.pred (m `min` length envs)) with (m - 1)%nat by lia.
      rewrite list_lookup_fmap, lookup_take.
      destruct (decide (m - 1 < m)%nat); [|lia].
      rewrite <- list_lookup_fmap. exact Hat.
    + unfold Frame.last_signaled. rewrite (inv_last _ _ Invm), Hm.
      rewrite length_map, length_take. do 2 f_equal. lia.
    + intros j e Hj He Hei. apply (Hafter j Hj).
      unfold idxs. rewrite list_lookup_fmap, He. simpl. now f_equal.
Qed.

(** *** Submission *)

(** C3, as stated, fails in the second turn of a round-robin run: slot 1
    still holds 0, and the value signaled is 2 (the value of the previous
    turn's slot plus one), not 1. *)
Lemma second_frame_signals_two :
  ~ signals_slot_value_plus_one
      [Frame.mkEnv 0 0 1 false false false] (Frame.mkEnv 1 0 1 false false false).
Proof.
  intros H.
  specialize (H one_frame_in_flight two_frames_in_flight 0).
  assert (H1 : Frame.run [Frame.mkEnv 0 0 1 false false false] Frame.init
               = Frame.Continue one_frame_in_flight) by (vm_compute; reflexivity).
  assert (H2 : Frame.frame (Frame.mkEnv 1 0 1 false false false) one_frame_in_flight
               = Frame.Continue two_frames_in_flight) by (vm_compute; reflexivity).
  specialize (H H1 H2 eq_refl). vm_compute in H. discriminate.
Qed.

Lemma wait_fence_reaches target : forall q f q' f' k,
  Frame.wait_fence target q f = Some (q', f', k) -> target <= f'.
Proof.
  induction q as [|c q IH]; intros f q' f' k H; simpl in H.
  - destruct (target <=? f) eqn:E; [|discriminate].
    injection H as <- <- <-. now apply Z.leb_le.
  - destruct (target <=? f) eqn:E.
    + injection H as <- <- <-. now apply Z.leb_le.
    + destruct (Frame.wait_fence target q (Frame.gpu_exec c f))
        as [[[q2 f2] k2]|] eqn:Ew; [|discriminate].
      injection H as <- <- <-. eapply IH. exact Ew.
Qed.

(** What a continuing "Swapchain Begin" leaves behind, from any state. *)
Lemma frame_begin_continue_any env s s1 :
  Frame.frame_begin env s = Frame.Continue s1 ->
  exists prev curr,
    Frame.swapchainFenceValues s !! Frame.swapchainFrameIndex s = Some prev
    /\ Frame.swapchainFenceValues s !! Frame.backBuffer env = Some curr
    /\ Frame.swapchainFenceValues s1
       = <[Frame.backBuffer env := u32 (prev + 1)]> (Frame.swapchainFenceValues s)
    /\ Frame.swapchainFrameIndex s1 = Frame.backBuffer env
    /\ Frame.log s1 = Frame.log s
    /\ curr <= Frame.fence s1
    /\ exists k : nat, Frame.clock s1 = (Frame.clock s + k * Frame.cmdTime env)%nat
       /\ forall t, exists s1',
            Frame.frame_begin
              (Frame.mkEnv (Frame.backBuffer env) (Frame.gpuProgress env) t
                 (Frame.hrSetEvent_failed env) (Frame.hrPresent_failed env)
                 (Frame.hrFenceSignal_failed env)) s = Frame.Continue s1'
            /\ Frame.clock s1' = (Frame.clock s + k * t)%nat.
Proof.
  unfold Frame.frame_begin. intros H.
  destruct (Frame.swapchainFenceValues s !! Frame.swapchainFrameIndex s)
    as [prev|] eqn:Ep; [|discriminate].
  destruct (Frame.swapchainFenceValues s !! Frame.backBuffer env)
    as [curr|] eqn:Ec; [|discriminate].
  exists prev, curr. split; [reflexivity|]. split; [reflexivity|].
  simpl Frame.backBuffer. simpl Frame.gpuProgress. simpl Frame.hrSetEvent_failed.
  rewrite Ec.
  destruct (Frame.gpu_run (Frame.gpuProgress env) (Frame.queue s) (Frame.fence s))
    as [q1 f1] eqn:Er.
  destruct (f1 <? curr) eqn:E.
  - destruct (Frame.hrSetEvent_failed env); [discriminate|].
    destruct (Frame.wait_fence curr q1 f1) as [[[q2 f2] k]|] eqn:Ew; [|discriminate].
    injection H as <-. simpl.
    repeat split; try reflexivity.
    + eapply wait_fence_reaches. exact Ew.
    + exists k. split; [reflexivity|]. intros t. eexists. split; reflexivity.
  - injection H as <-. simpl. apply Z.ltb_ge in E.
    repeat split; try reflexivity; try assumption.
    exists O. split; [lia|]. intros t. eexists. split; [reflexivity|]. simpl. lia.
Qed.

(** C3, amended. In every turn that completes, the submit/present step
    hands the recorded command list to the graphics queue, presents, and
    then queues one fence signal; its value is stored for the turn's slot
    and equals the value stored for the slot of the previous turn plus one
    (as a [uint32_t]). The step itself does not wait: the fence, the work
    pending before it and the time spent blocked are as "Swapchain Begin"
    left them. *)
Theorem submit_signals_previous_plus_one :
  forall (env : Frame.Env) (s s' : Frame.Renderer),
    Frame.frame env s = Frame.Continue s' ->
    exists s1 prev,
      let i := Frame.backBuffer env in
      let v := u32 (prev + 1) in
      Frame.frame_begin env s = Frame.Continue s1 /\
      Frame.swapchainFenceValues s !! Frame.swapchainFrameIndex s = Some prev /\
      Frame.swapchainFenceValues s' !! i = Some v /\
      Frame.queue s'
      = Frame.queue s1 ++ [Frame.ExecuteCommandLists i; Frame.Present; Frame.Signal v] /\
      Frame.calls s'
      = Frame.calls s1 ++ [Frame.ResetAllocator i; Frame.ResetCommandList i;
                           Frame.CloseCommandList i;
                           Frame.QueueExecuteCommandLists i;
                           Frame.SwapchainPresent; Frame.QueueSignal v] /\
      Frame.fence s' = Frame.fence s1 /\
      Frame.clock s' = Frame.clock s1.
Proof.
  intros env s s' H. unfold Frame.frame in H.
  destruct (Frame.frame_begin env s) as [s1| | |] eqn:Hb; try discriminate.
  destruct (frame_begin_continue_any _ _ _ Hb)
    as (prev & curr & Hp & Hc & Hv & Hi & _).
  exists s1, prev. cbv zeta. split; [reflexivity|]. split; [exact Hp|].
  assert (Hnew : Frame.swapchainFenceValues s1 !! Frame.backBuffer env
                 = Some (u32 (prev + 1))).
  { rewrite Hv. apply list_lookup_insert_eq. eapply lookup_lt_Some. exact Hc. }
  unfold Frame.frame_end, Frame.frame_record in H. simpl in H.
  rewrite Hi, Hnew in H.
  destruct (Frame.hrPresent_failed env); [discriminate|].
  destruct (Frame.hrFenceSignal_failed env); [discriminate|].
  injection H as <-. simpl.
  rewrite Hnew, <- !app_assoc. simpl. repeat split; reflexivity.
Qed.

Lemma submit_signals_previous_plus_one_witness :
  let env := Frame.mkEnv 1 0 1 false false false in
  let s := one_frame_in_flight in
  exists s',
    Frame.frame env s = Frame.Continue s' /\
    exists s1 prev,
      Frame.frame_begin env s = Frame.Continue s1 /\
      Frame.swapchainFenceValues s !! Frame.swapchainFrameIndex s = Some prev /\
      Frame.swapchainFenceValues s' !! 1%nat = Some (u32 (prev + 1)) /\
      Frame.fence s' = Frame.fence s1 /\ Frame.clock s' = Frame.clock s1.
Proof.
  intros env s. exists two_frames_in_flight.
  assert (Hf : Frame.frame env s = Frame.Continue two_frames_in_flight)
    by (vm_compute; reflexivity).
  split; [exact Hf|].
  destruct (submit_signals_previous_plus_one env s _ Hf)
    as (s1 & prev & H1 & H2 & H3 & _ & _ & H4 & H5).
  exists s1, prev. repeat split; assumption.
Defined.

(** *** Waiting in "Swapchain Begin" *)



(** ** SubmitBufferToGPU *)


Example zero_length_upload_result :
  Upload.SubmitBufferToGPU idle_device 0 (Some [])
    Upload.D3D12_RESOURCE_STATE_VERTEX_AND_CONSTANT_BUFFER false true
  = Upload.Returned
      (true,
       Upload.mkDevice []
         [[Upload.CopyBufferRegion 0;
           Upload.ResourceBarrier
             Upload.D3D12_RESOURCE_STATE_VERTEX_AND_CONSTANT_BUFFER]]
         1 []).
Proof. reflexivity. Qed.


(** ** The three main functions *)

(** C6, as stated, fails: the Vulkan renderer uploads no resource and its
    block "Loop" is empty, and the second DirectX12 renderer builds no
    pipeline and only polls the window in its loop. *)
Lemma not_every_main_renders :
  ~ Forall (fun m => Renderers.performs_all m = true)
      [Renderers.Vulkan_main; Renderers.DX12_second_main; Renderers.DX12_main].
Proof.
  intros H. apply Forall_inv in H. vm_compute in H. discriminate.
Qed.

(** C6, amended. The DirectX12 renderer with the render loop performs
    device discovery, swapchain creation, resource upload and pipeline
    construction, and each turn of its loop records and submits a command
    list. The Vulkan renderer performs device discovery, swapchain creation
    and pipeline construction, but uploads no resource and has no loop. The
    second DirectX12 renderer performs device discovery, swapchain creation
    and resource upload, but builds no pipeline, and its loop neither
    records nor submits. *)
Theorem phases_of_each_main :
  Renderers.performs_all Renderers.DX12_main = true
  /\ (Renderers.device_discovery Renderers.Vulkan_main = true
      /\ Renderers.swapchain_creation Renderers.Vulkan_main = true
      /\ Renderers.pipeline_construction Renderers.Vulkan_main = true
      /\ Renderers.resource_upload Renderers.Vulkan_main = false
      /\ Renderers.loop_turn Renderers.Vulkan_main = None
      /\ Renderers.render_loop Renderers.Vulkan_main = false)
  /\ (Renderers.device_discovery Renderers.DX12_second_main = true
      /\ Renderers.swapchain_creation Renderers.DX12_second_main = true
      /\ Renderers.resource_upload Renderers.DX12_second_main = true
      /\ Renderers.pipeline_construction Renderers.DX12_second_main = false
      /\ Renderers.loop_turn Renderers.DX12_second_main
         = Some ["glfwWindowShouldClose"; "glfwPollEvents"; "glfwGetKey";
                 "glfwSetWindowShouldClose"]%string
      /\ Renderers.render_loop Renderers.DX12_second_main = false).
Proof. vm_compute. repeat split. Qed.

(** ** Failures in main *)







Example mip_site_is_site_76 :
  option_map DX12Main.operation (DX12Main.startup false !! 76%nat)
  = Some "stbir_resize_uint8_linear"%string.
Proof. reflexivity. Qed.

Example main_after_failed_resize :
  DX12Main.main false (Nat.eqb 76) []
  = DX12Main.Returned 0 ["Mip map creation failed!"%string].
Proof. reflexivity. Qed.

Example main_after_failed_debug_interface :
  DX12Main.main true (Nat.eqb 2) []
  = DX12Main.Returned 0 ["Validation layer initialization failed."%string].
Proof. reflexivity. Qed.


(** * Further properties of the code *)

(** ** The layout of the mip chain in [_data] *)

Lemma layer_offset_exact e c :
  0 <= SA.x e * SA.y e * c < 2 ^ 32 ->
  MipLayout.layer_offset e c = SA.x e * SA.y e * c.
Proof.
  intros H. unfold MipLayout.layer_offset.
  rewrite Z.mul_1_r, u32_mul_l, (u32_small _ H). apply u64_small. lia.
Qed.

Lemma level_start_S exts c i e :
  exts !! i = Some e ->
  level_start exts c (S i) = level_start exts c i + SA.x e * SA.y e * c.
Proof.
  intros He. unfold level_start.
  rewrite (take_S_r _ _ _ He), map_app. simpl map. apply sumZ_snoc.
Qed.

(** With one layer, the resize of level [i] reads level [i - 1] where it
    starts and writes level [i] where it starts. *)
Lemma generate_layout ok exts c :
  Forall (fun e => 0 <= SA.x e * SA.y e * c < 2 ^ 32) exts ->
  forall n i, (1 <= i)%nat -> (i + n <= length exts)%nat ->
  exists calls flag,
    MipLayout.generate ok i n exts c 1 (level_start exts c (i - 1)) = Some (calls, flag)
    /\ flag = Mip.generate ok i n 1
    /\ (length calls <= n)%nat
    /\ (flag = true -> length calls = n)
    /\ forall (k : nat) call, calls !! k = Some call ->
         exists es ed,
           exts !! (i - 1 + k)%nat = Some es /\ exts !! (i + k)%nat = Some ed
           /\ call = MipLayout.mkResizeCall (level_start exts c (i - 1 + k)) es
                       (level_start exts c (i + k)) ed.
Proof.
  intros Hfit. induction n as [|n IH]; intros i Hi Hlen.
  - exists [], true. split; [reflexivity|]. split; [reflexivity|].
    split; [simpl; lia|]. split; [reflexivity|]. intros k call H. discriminate.
  - destruct (lookup_lt_is_Some_2 exts (i - 1) ltac:(lia)) as [prev Hprev].
    destruct (lookup_lt_is_Some_2 exts i ltac:(lia)) as [curr Hcurr].
    pose proof (proj1 (Forall_lookup _ _) Hfit _ _ Hprev) as Bprev.
    pose proof (proj1 (Forall_lookup _ _) Hfit _ _ Hcurr) as Bcurr.
    simpl in Bprev, Bcurr.
    assert (Hstart : level_start exts c i
                     = level_start exts c (i - 1) + SA.x prev * SA.y prev * c).
    { replace i with (S (i - 1)) at 1 by lia. now apply level_start_S. }
    assert (Hdst : level_start exts c (i - 1)
                   + u64 (MipLayout.layer_offset prev c * 1)
                   = level_start exts c i).
    { rewrite Z.mul_1_r, layer_offset_exact by assumption.
      rewrite u64_small by lia. lia. }
    simpl MipLayout.generate. rewrite Hprev, Hcurr. cbv zeta.
    change (Z.to_nat 1) with 1%nat. simpl MipLayout.resize_layers.
    rewrite Hdst.
    simpl Mip.generate. simpl Mip.resize_layers.
    destruct (ok i 0%nat) eqn:Eok.
    + rewrite (layer_offset_exact prev c Bprev), <- Hstart.
      destruct (IH (S i) ltac:(lia) ltac:(lia))
        as (calls & flag & E & Hflag & Hle & Hfull & Hk).
      replace (S i - 1)%nat with i in E by lia. rewrite E.
      eexists _, _. split; [reflexivity|]. split; [exact Hflag|].
      split; [simpl; lia|]. split; [intros Hf; simpl; f_equal; now apply Hfull|].
      intros [|k] call Hc; simpl in Hc.
      * injection Hc as <-. exists prev, curr.
        rewrite !Nat.add_0_r. split; [exact Hprev|]. split; [exact Hcurr|]. reflexivity.
      * destruct (Hk k call Hc) as (es & ed & Hes & Hed & Hcall).
        exists es, ed.
        replace (i - 1 + S k)%nat with (S i - 1 + k)%nat by lia.
        replace (i + S k)%nat with (S i + k)%nat by lia.
        split; [exact Hes|]. split; [exact Hed|]. exact Hcall.
    + eexists _, _. split; [reflexivity|]. split; [reflexivity|].
      split; [simpl; lia|]. split; [discriminate|].
      intros [|k] call Hc; simpl in Hc; [|discriminate].
      injection Hc as <-. exists prev, curr.
      rewrite !Nat.add_0_r. split; [exact Hprev|]. split; [exact Hcurr|]. reflexivity.
Qed.

Lemma sumZ_take_le (l : list Z) (i : nat) :
  Forall (fun z => 0 <= z) l -> 0 <= sumZ (take i l) <= sumZ l.
Proof.
  intros H. revert i. induction H as [|z l Hz Hl IH]; intros [|i]; simpl.
  - lia.
  - lia.
  - assert (0 <= sumZ l) by (specialize (IH 0%nat); simpl in IH; lia).
    change (sumZ (z :: l)) with (z + sumZ l). cbn. lia.
  - specialize (IH i).
    change (sumZ (z :: l)) with (z + sumZ l).
    change (sumZ (z :: take i l)) with (z + sumZ (take i l)). lia.
Qed.

Lemma sumZ_elem_le (l : list Z) (i : nat) z :
  Forall (fun z => 0 <= z) l -> l !! i = Some z -> 0 <= z <= sumZ l.
Proof.
  intros H. revert i. induction H as [|y l Hy Hl IH]; intros [|i] Hi; simpl in Hi.
  - discriminate.
  - discriminate.
  - injection Hi as <-. pose proof (sumZ_take_le l 0 Hl) as H0. simpl in H0.
    change (sumZ (y :: l)) with (y + sumZ l). lia.
  - specialize (IH i Hi). change (sumZ (y :: l)) with (y + sumZ l). lia.
Qed.

Lemma take_map {A B} (f : A -> B) (l : list A) : forall i,
  take i (map f l) = map f (take i l).
Proof.
  induction l as [|a l IH]; intros [|i]; simpl; try reflexivity. now rewrite IH.
Qed.

Lemma level_start_le exts c i :
  Forall (fun e => 0 <= SA.x e * SA.y e * c) exts ->
  0 <= level_start exts c i <= chain_size exts c 1.
Proof.
  intros H. unfold level_start, chain_size.
  rewrite <- take_map.
  replace (map (fun e => SA.x e * SA.y e * c * 1) exts)
    with (map (fun e => SA.x e * SA.y e * c) exts)
    by (apply map_ext; intros; lia).
  apply sumZ_take_le. now rewrite Forall_map.
Qed.

Lemma floor_level_pos W H i :
  1 <= SA.x (floor_level W H i) /\ 1 <= SA.y (floor_level W H i).
Proof. unfold floor_level. simpl. lia. Qed.

(** The levels of a chain that fits in 32 bits fit one by one, and so do
    their rows. *)
Lemma floor_levels_fit W H C n :
  0 <= C -> floor_chain_size W H C n < 2 ^ 32 ->
  Forall (fun e => 0 <= SA.x e * SA.y e * C < 2 ^ 32) (map (floor_level W H) (seq 0 n)).
Proof.
  intros HC Hsum. apply Forall_lookup. intros i e He.
  assert (Hnn : Forall (fun z => 0 <= z)
                  (map (fun e => SA.x e * SA.y e * C) (map (floor_level W H) (seq 0 n)))).
  { rewrite !Forall_map. apply Forall_forall. intros j _. simpl.
    destruct (floor_level_pos W H j). nia. }
  assert (Hi : map (fun e => SA.x e * SA.y e * C) (map (floor_level W H) (seq 0 n)) !! i
               = Some (SA.x e * SA.y e * C)).
  { rewrite list_lookup_fmap, He. reflexivity. }
  pose proof (sumZ_elem_le _ _ _ Hnn Hi) as Hb.
  rewrite map_map in Hb. unfold floor_chain_size in Hsum. simpl. lia.
Qed.

Lemma floor_rows_fit W H C n :
  0 <= C -> floor_chain_size W H C n < 2 ^ 32 ->
  Forall (fun e => 0 <= SA.x e * C < 2 ^ 32) (map (floor_level W H) (seq 0 n)).
Proof.
  intros HC Hsum. pose proof (floor_levels_fit W H C n HC Hsum) as Hfit.
  rewrite Forall_map in Hfit |- *.
  eapply Forall_impl; [exact Hfit|]. simpl. intros i Hi.
  destruct (floor_level_pos W H i) as [Hx Hy]. nia.
Qed.

Section Chain.

Variables (W H C : Z).
Hypothesis HW : 1 <= W < 2 ^ 32.
Hypothesis HH : 1 <= H < 2 ^ 32.
Hypothesis HC : 0 <= C.
Hypothesis Hfit : floor_chain_size W H C (chain_levels W H) < 2 ^ 32.

Lemma chain_mip_count :
  Mip.mip_count (SA.mkVec2ui W H) = Some (Z.log2 (Z.max W H) + 1).
Proof. apply mip_count_some. simpl. lia. Qed.

Lemma chain_levels_pos : (1 <= chain_levels W H)%nat.
Proof.
  unfold chain_levels. pose proof (Z.log2_nonneg (Z.max W H)). lia.
Qed.

Lemma chain_levels_lt : Z.of_nat (chain_levels W H) < 2 ^ 16.
Proof.
  unfold chain_levels. pose proof (Z.log2_nonneg (Z.max W H)).
  assert (Z.log2 (Z.max W H) < 32) by (apply Z.log2_lt_pow2; lia). lia.
Qed.

Lemma length_chain_extents : length (chain_extents W H) = chain_levels W H.
Proof. unfold chain_extents. now rewrite length_map, length_seq. Qed.

Lemma chain_extents_fit :
  Forall (fun e => 0 <= SA.x e * SA.y e * C < 2 ^ 32) (chain_extents W H).
Proof. exact (floor_levels_fit W H C _ HC Hfit). Qed.

Lemma chain_extents_nonneg :
  Forall (fun e => 0 <= SA.x e * SA.y e * C) (chain_extents W H).
Proof.
  eapply Forall_impl; [exact chain_extents_fit|]. simpl. intros e He. lia.
Qed.

Lemma chain_size_extents :
  chain_size (chain_extents W H) C 1 = floor_chain_size W H C (chain_levels W H).
Proof. apply chain_size_floor. Qed.

Lemma chain_size_nonneg : 0 <= floor_chain_size W H C (chain_levels W H).
Proof.
  pose proof (level_start_le (chain_extents W H) C 0 chain_extents_nonneg) as Hb.
  rewrite chain_size_extents in Hb. lia.
Qed.

(** What [GenerateMipMaps] returns for an image whose chain fits. *)
Lemma chain_generate data ok :
  Mip.GenerateMipMaps (SA.mkVec2ui W H) data 0 C 1 ok
  = Some (Mip.mkMipResult (Mip.resize data (floor_chain_size W H C (chain_levels W H)))
            (Z.log2 (Z.max W H) + 1) (floor_chain_size W H C (chain_levels W H))
            (chain_extents W H)
            (if Mip.generate ok 1 (chain_levels W H - 1) 1
             then [] else ["Mip map creation failed!"%string])).
Proof.
  rewrite (GenerateMipMaps_unfold _ _ _ _ _ _ _ chain_mip_count). cbv zeta.
  rewrite size_loop_total by lia. rewrite size_loop_floor by lia.
  change (Z.to_nat (Z.log2 (Z.max W H) + 1)) with (chain_levels W H).
  change (map (floor_level W H) (seq 0 (chain_levels W H))) with (chain_extents W H).
  rewrite chain_size_extents, Z.add_0_l.
  rewrite (u32_small (floor_chain_size W H C (chain_levels W H)))
    by (pose proof chain_size_nonneg; lia).
  reflexivity.
Qed.

Lemma chain_resize_calls ok :
  MipLayout.resize_calls (SA.mkVec2ui W H) 0 C 1 ok
  = MipLayout.generate ok 1 (chain_levels W H - 1) (chain_extents W H) C 1 0.
Proof.
  unfold MipLayout.resize_calls. rewrite chain_mip_count.
  pose proof (size_loop_floor (Z.to_nat (Z.log2 (Z.max W H) + 1)) W H 0 C 1
                ltac:(lia) ltac:(lia)) as E.
  destruct (Mip.size_loop _ _ 0 C 1) as [es t]. simpl in E. subst es.
  reflexivity.
Qed.

(** The resize calls of the chain: call [k] reads level [k] and writes
    level [k + 1], each where it starts, inside the chain. *)
Lemma chain_resize_layout ok :
  exists calls flag,
    MipLayout.resize_calls (SA.mkVec2ui W H) 0 C 1 ok = Some (calls, flag)
    /\ flag = Mip.generate ok 1 (chain_levels W H - 1) 1
    /\ (flag = true -> length calls = (chain_levels W H - 1)%nat)
    /\ forall (k : nat) call, calls !! k = Some call ->
         exists es ed,
           chain_extents W H !! k = Some es /\ chain_extents W H !! S k = Some ed
           /\ MipLayout.src_extent call = es /\ MipLayout.dst_extent call = ed
           /\ MipLayout.src call = level_start (chain_extents W H) C k
           /\ MipLayout.dst call = level_start (chain_extents W H) C (S k)
           /\ MipLayout.dst call = MipLayout.src call + SA.x es * SA.y es * C
           /\ 0 <= MipLayout.src call
           /\ MipLayout.dst call + SA.x ed * SA.y ed * C
              <= floor_chain_size W H C (chain_levels W H).
Proof.
  pose proof chain_levels_pos as Hpos.
  destruct (generate_layout ok (chain_extents W H) C chain_extents_fit
              (chain_levels W H - 1) 1 ltac:(lia)
              ltac:(rewrite length_chain_extents; lia))
    as (calls & flag & E & Hflag & _ & Hfull & Hk).
  change (level_start (chain_extents W H) C (1 - 1)) with 0 in E.
  exists calls, flag. split; [rewrite chain_resize_calls; exact E|].
  split; [exact Hflag|]. split; [exact Hfull|].
  intros k call Hc. destruct (Hk k call Hc) as (es & ed & Hes & Hed & ->).
  replace (1 - 1 + k)%nat with k in * by lia.
  change (1 + k)%nat with (S k) in *.
  exists es, ed. simpl.
  pose proof (level_start_le (chain_extents W H) C k chain_extents_nonneg) as Bk.
  pose proof (level_start_le (chain_extents W H) C (S (S k)) chain_extents_nonneg) as Bkk.
  rewrite (level_start_S _ _ _ _ Hed), (level_start_S _ _ _ _ Hes), chain_size_extents
    in Bkk.
  rewrite chain_size_extents in Bk.
  rewrite (level_start_S _ _ _ _ Hes).
  repeat (split; [first [assumption|reflexivity|lia]|]). lia.
Qed.

End Chain.

(** X1. For a [W] x [H] image with [C] channels and one layer whose chain
    fits in 32 bits, the resize calls of [GenerateMipMaps] walk the chain in
    place: call [k] reads level [k] at the byte offset where the chain stores
    it and writes level [k + 1] directly behind it, never outside the
    resized [_data] (whose size is the reported total). All
    [levels - 1] calls are made unless one fails, which is the only case in
    which an error is logged. *)
Theorem GenerateMipMaps_resizes_in_place :
  forall (W H C : Z) (data : list Byte.byte) (ok : nat -> nat -> bool),
    1 <= W < 2 ^ 32 -> 1 <= H < 2 ^ 32 -> 0 <= C ->
    floor_chain_size W H C (chain_levels W H) < 2 ^ 32 ->
    exists r calls flag,
      Mip.GenerateMipMaps (SA.mkVec2ui W H) data 0 C 1 ok = Some r /\
      MipLayout.resize_calls (SA.mkVec2ui W H) 0 C 1 ok = Some (calls, flag) /\
      (flag = true <-> Mip.log r = []) /\
      (flag = true -> Z.of_nat (length calls) = Mip.outMipLevels r - 1) /\
      Z.of_nat (length (Mip.data r)) = Mip.outTotalSize r /\
      forall (k : nat) call, calls !! k = Some call ->
        exists es ed,
          Mip.outExtents r !! k = Some es /\ Mip.outExtents r !! S k = Some ed /\
          MipLayout.src_extent call = es /\ MipLayout.dst_extent call = ed /\
          MipLayout.src call = level_start (Mip.outExtents r) C k /\
          MipLayout.dst call = MipLayout.src call + SA.x es * SA.y es * C /\
          0 <= MipLayout.src call /\
          MipLayout.dst call + SA.x ed * SA.y ed * C <= Mip.outTotalSize r.
Proof.
  intros W H C data ok HW HH HC Hfit.
  destruct (chain_resize_layout W H C HW HH HC Hfit ok)
    as (calls & flag & Hcalls & Hflag & Hfull & Hk).
  pose proof (chain_size_nonneg W H C HC Hfit) as Hnn.
  eexists _, calls, flag.
  split; [exact (chain_generate W H C HW HH HC Hfit data ok)|].
  split; [exact Hcalls|]. simpl. split.
  { rewrite Hflag.
    destruct (Mip.generate ok 1 (chain_levels W H - 1) 1); split; congruence. }
  split; [intros Hf; rewrite (Hfull Hf); unfold chain_levels;
          pose proof (Z.log2_nonneg (Z.max W H)); lia|].
  split; [now apply length_resize|].
  intros k call Hc.
  destruct (Hk k call Hc) as (es & ed & Hes & Hed & Hse & Hde & Hs & _ & Hd & H0 & Hend).
  exists es, ed. repeat (split; [assumption|]). exact Hend.
Qed.

(** ** One texture of [main] *)

Lemma level_bytes_sum exts c : forall i,
  Forall (fun e => 0 <= SA.x e * SA.y e * c < 2 ^ 32) exts ->
  sumZ (map (fun e => Upload.level_bytes e c) (take i exts)) = level_start exts c i.
Proof.
  intros i Hfit. unfold level_start. f_equal.
  apply Forall_take with (n := i) in Hfit.
  induction Hfit as [|e l He _ IH]; [reflexivity|].
  simpl. now rewrite IH, level_bytes_exact.
Qed.

(** The copies recorded for a chain whose byte sizes fit in 32 bits. *)
Lemma copy_loop_chain exts c :
  Forall (fun e => 0 <= SA.x e * SA.y e * c < 2 ^ 32) exts ->
  Forall (fun e => 0 <= SA.x e * c < 2 ^ 32) exts ->
  chain_size exts c 1 < 2 ^ 32 ->
  Z.of_nat (length exts) < 2 ^ 16 ->
  Upload.copy_loop (length exts) 0 0 exts c
  = Some (imap (fun i e => Upload.CopyTextureRegion (Z.of_nat i) (level_start exts c i)
                             (SA.x e) (SA.y e) (SA.x e * c)) exts).
Proof.
  intros Hfit Hrow Hsum Hlen.
  pose proof (copy_loop_spec exts c (length exts) 0 ltac:(lia) ltac:(lia)) as E.
  change (Upload.copy_loop (length exts) 0 0 exts c
          = Some (imap (fun j => copy_at exts c (0 + j)) (take (length exts) (drop 0 exts))))
    in E.
  rewrite E, drop_0, firstn_all. f_equal.
  apply imap_ext. intros i e He. unfold copy_at. simpl.
  rewrite level_bytes_sum by assumption.
  assert (Hnn : Forall (fun e => 0 <= SA.x e * SA.y e * c) exts).
  { eapply Forall_impl; [exact Hfit|]. simpl. intros e0 H0. lia. }
  pose proof (level_start_le exts c i Hnn).
  rewrite u64_small by lia.
  pose proof (proj1 (Forall_lookup _ _) Hrow _ _ He) as Hr. simpl in Hr.
  now rewrite u32_small.
Qed.

(** X2. A texture block of [main] whose image was loaded, whose chain fits
    in 32 bits and whose resource and staging buffer are created uploads
    the chain it generated: it records one copy per generated level, level
    [i] being copied from the byte offset at which [GenerateMipMaps] wrote
    it (the destination of resize call [i - 1]), with the extent of that
    level, and every copy reads inside the [totalSize] bytes of the staging
    buffer. *)
Theorem load_texture_copies_generated_levels :
  forall (d : Upload.Device) (width height channels : Z) (bytes : list Byte.byte)
         (ok : nat -> nat -> bool) (create_msg submit_msg : string),
    1 <= width -> 1 <= height -> 1 <= channels ->
    width * height * channels < 2 ^ 31 ->
    width * height * channels <= Z.of_nat (length bytes) ->
    floor_chain_size width height channels (chain_levels width height) < 2 ^ 32 ->
    exists r calls flag copies d',
      Mip.GenerateMipMaps (SA.mkVec2ui width height)
        (take (Z.to_nat (width * height * channels)) bytes) 0 channels 1 ok = Some r /\
      MipLayout.resize_calls (SA.mkVec2ui width height) 0 channels 1 ok
      = Some (calls, flag) /\
      TextureSite.load_texture d width height channels (Some bytes) ok
        false false true create_msg submit_msg
      = Upload.Returned (None, d') /\
      Upload.executed d'
      = Upload.executed d
        ++ [Upload.cmdList0 d ++ copies
            ++ [Upload.ResourceBarrier Upload.D3D12_RESOURCE_STATE_PIXEL_SHADER_RESOURCE]] /\
      Z.of_nat (length copies) = Mip.outMipLevels r /\
      (forall (i : nat) e, Mip.outExtents r !! i = Some e ->
         copies !! i
         = Some (Upload.CopyTextureRegion (Z.of_nat i)
                   (level_start (Mip.outExtents r) channels i)
                   (SA.x e) (SA.y e) (SA.x e * channels))
         /\ 0 <= level_start (Mip.outExtents r) channels i
         /\ level_start (Mip.outExtents r) channels i + SA.x e * SA.y e * channels
            <= Mip.outTotalSize r) /\
      (forall (k : nat) call, calls !! k = Some call ->
         copies !! S k
         = Some (Upload.CopyTextureRegion (Z.of_nat (S k)) (MipLayout.dst call)
                   (SA.x (MipLayout.dst_extent call)) (SA.y (MipLayout.dst_extent call))
                   (SA.x (MipLayout.dst_extent call) * channels))).
Proof.
  intros d W H C bytes ok cmsg smsg HW HH HC Hint Hbytes Hfit.
  assert (HWH : 1 <= W * H) by nia.
  assert (HW32 : 1 <= W < 2 ^ 32) by nia.
  assert (HH32 : 1 <= H < 2 ^ 32) by nia.
  assert (HC32 : C < 2 ^ 32) by nia.
  assert (HC0 : 0 <= C) by lia.
  assert (HWHint : W * H < 2 ^ 31) by nia.
  set (exts := chain_extents W H).
  set (data := take (Z.to_nat (W * H * C)) bytes).
  pose proof (chain_levels_lt W H HW32 HH32) as Hlt.
  pose proof (chain_size_nonneg W H C HC0 Hfit) as Hnn.
  pose proof (chain_extents_fit W H C HC0 Hfit) as Hall. fold exts in Hall.
  pose proof (floor_rows_fit W H C (chain_levels W H) HC0 Hfit) as Hrow.
  change (map (floor_level W H) (seq 0 (chain_levels W H))) with exts in Hrow.
  pose proof (length_chain_extents W H) as Hlen. fold exts in Hlen.
  pose proof (chain_size_extents W H C) as Hcs. fold exts in Hcs.
  pose proof (chain_generate W H C HW32 HH32 HC0 Hfit data ok) as Hgen.
  fold exts in Hgen.
  destruct (chain_resize_layout W H C HW32 HH32 HC0 Hfit ok)
    as (calls & flag & Hcalls & _ & _ & Hk).
  fold exts in Hk.
  pose proof (copy_loop_chain exts C Hall Hrow ltac:(lia) ltac:(lia)) as Hloop.
  set (copies := imap (fun i e => Upload.CopyTextureRegion (Z.of_nat i)
                                    (level_start exts C i)
                                    (SA.x e) (SA.y e) (SA.x e * C)) exts) in *.
  eexists _, calls, flag, copies, _.
  split; [exact Hgen|]. split; [exact Hcalls|].
  assert (Hcopy : forall (i : nat) e, exts !! i = Some e ->
            copies !! i = Some (Upload.CopyTextureRegion (Z.of_nat i)
                                  (level_start exts C i) (SA.x e) (SA.y e) (SA.x e * C))).
  { intros i e He. unfold copies. rewrite list_lookup_imap, He. reflexivity. }
  split.
  { unfold TextureSite.load_texture, TextureSite.in_int.
    replace (- 2 ^ 31 <=? W * H) with true by (symmetry; apply Z.leb_le; lia).
    replace (W * H <? 2 ^ 31) with true by (symmetry; apply Z.ltb_lt; lia).
    replace (- 2 ^ 31 <=? W * H * C) with true by (symmetry; apply Z.leb_le; nia).
    replace (W * H * C <? 2 ^ 31) with true by (symmetry; apply Z.ltb_lt; lia).
    replace (0 <=? W * H * C) with true by (symmetry; apply Z.leb_le; nia).
    replace (W * H * C <=? Z.of_nat (length bytes)) with true
      by (symmetry; apply Z.leb_le; lia).
    cbn [andb]. cbv zeta.
    rewrite (u32_small W), (u32_small H), (u32_small C) by lia.
    fold data. rewrite Hgen. cbn [Mip.log Mip.outMipLevels Mip.outExtents
                                  Mip.outTotalSize Mip.data].
    unfold Upload.SubmitTextureToGPU, Upload.memcpy.
    rewrite length_resize by lia. rewrite Z.leb_refl. cbn [andb].
    rewrite u16_small
      by (unfold chain_levels in Hlt; pose proof (Z.log2_nonneg (Z.max W H)); lia).
    change (Z.to_nat (Z.log2 (Z.max W H) + 1)) with (chain_levels W H).
    rewrite <- Hlen at 1. rewrite Hloop. reflexivity. }
  simpl.
  split; [now rewrite <- app_assoc|].
  split; [unfold copies; rewrite length_imap, Hlen; unfold chain_levels;
          pose proof (Z.log2_nonneg (Z.max W H)); lia|].
  split.
  - intros i e He. split; [now apply Hcopy|].
    assert (Hnn' : Forall (fun e => 0 <= SA.x e * SA.y e * C) exts)
      by exact (chain_extents_nonneg W H C HC0 Hfit).
    pose proof (level_start_le exts C i Hnn') as B1.
    pose proof (level_start_le exts C (S i) Hnn') as B2.
    rewrite (level_start_S _ _ _ _ He) in B2. lia.
  - intros k call Hc. destruct (Hk k call Hc)
      as (es & ed & Hes & Hed & _ & Hde & _ & Hdst & _).
    rewrite (Hcopy (S k) ed Hed). rewrite Hde, Hdst. reflexivity.
Qed.

(** ** The ends of the mip chain *)

Lemma copy_loop_short exts c : forall n k offset,
  (k <= length exts)%nat -> (length exts < k + n)%nat ->
  Z.of_nat (k + n) <= 2 ^ 16 ->
  Upload.copy_loop n (Z.of_nat k) offset exts c = None.
Proof.
  induction n as [|n IH]; intros k offset Hk Hn Hb; [lia|].
  simpl. rewrite Nat2Z.id.
  destruct (exts !! k) as [e|] eqn:He; [|reflexivity].
  apply lookup_lt_Some in He.
  replace (u16 (Z.of_nat k + 1)) with (Z.of_nat (S k)) by (rewrite u16_small; lia).
  rewrite IH; [reflexivity|lia|lia|lia].
Qed.

(** X17. [SubmitTextureToGPU] takes the number of copies from the texture
    description, not from [_extents]: for a texture with more mip levels
    than [_extents] has entries the copy loop reads [_extents] outside its
    bounds, whatever the other arguments are. *)
Theorem SubmitTextureToGPU_needs_an_extent_per_level :
  forall (d : Upload.Device) (MipLevels : Z) (_extents : list SA.Vec2ui)
         (_totalSize _channelNum : Z) (_data : option (list Byte.byte))
         (_stateAfter : Upload.D3D12_RESOURCE_STATES) (map_ok : bool),
    Z.of_nat (length _extents) < MipLevels < 2 ^ 16 ->
    Upload.SubmitTextureToGPU d MipLevels _extents _totalSize _channelNum _data
      _stateAfter false map_ok
    = Upload.Undefined.
Proof.
  intros d M exts total c data st map_ok HM. unfold Upload.SubmitTextureToGPU.
  destruct (Upload.memcpy map_ok data total); [|reflexivity].
  change 0 with (Z.of_nat 0) at 1.
  rewrite (copy_loop_short exts c (Z.to_nat M) 0 0); [reflexivity|lia|lia|lia].
Qed.

Lemma floor_level_last W H :
  1 <= W -> 1 <= H ->
  floor_level W H (Z.to_nat (Z.log2 (Z.max W H))) = SA.mkVec2ui 1 1.
Proof.
  intros HW HH. unfold floor_level.
  pose proof (Z.log2_nonneg (Z.max W H)) as Hl.
  rewrite Z2Nat.id by exact Hl.
  destruct (Z.log2_spec (Z.max W H) ltac:(lia)) as [Hlo Hhi].
  rewrite Z.pow_succ_r in Hhi by exact Hl.
  assert (Hp : 0 < 2 ^ Z.log2 (Z.max W H)) by (apply Z.pow_pos_nonneg; lia).
  assert (W / 2 ^ Z.log2 (Z.max W H) < 2) by (apply Z.div_lt_upper_bound; lia).
  assert (H / 2 ^ Z.log2 (Z.max W H) < 2) by (apply Z.div_lt_upper_bound; lia).
  f_equal; lia.
Qed.

Lemma floor_level_before_last W H (i : nat) :
  1 <= W -> 1 <= H ->
  Z.of_nat i < Z.log2 (Z.max W H) ->
  2 <= Z.max (SA.x (floor_level W H i)) (SA.y (floor_level W H i)).
Proof.
  intros HW HH Hi. unfold floor_level. simpl.
  destruct (Z.log2_spec (Z.max W H) ltac:(lia)) as [Hlo _].
  assert (Hp : 0 < 2 ^ Z.of_nat i) by (apply Z.pow_pos_nonneg; lia).
  assert (Hle : 2 ^ Z.of_nat i * 2 <= Z.max W H).
  { replace (2 ^ Z.of_nat i * 2) with (2 ^ (Z.of_nat i + 1))
      by (rewrite Z.pow_add_r by lia; lia).
    etransitivity; [|exact Hlo]. apply Z.pow_le_mono_r; lia. }
  destruct (Z.max_spec W H) as [[_ E]|[_ E]]; rewrite E in Hle.
  - assert (2 <= H / 2 ^ Z.of_nat i) by (apply Z.div_le_lower_bound; lia). lia.
  - assert (2 <= W / 2 ^ Z.of_nat i) by (apply Z.div_le_lower_bound; lia). lia.
Qed.

(** X18. For every image of at least 1 x 1 the chain [GenerateMipMaps]
    lays out is complete and has no repeated tail: its last level is 1 x 1
    and every level before it has a side of at least 2, whatever the
    incoming total, the channel count and the layer count are. *)
Theorem GenerateMipMaps_chain_ends_at_1x1 :
  forall (W H : Z) (data : list Byte.byte) (t c l : Z) (ok : nat -> nat -> bool),
    1 <= W < 2 ^ 32 -> 1 <= H < 2 ^ 32 ->
    exists r,
      Mip.GenerateMipMaps (SA.mkVec2ui W H) data t c l ok = Some r /\
      last (Mip.outExtents r) = Some (SA.mkVec2ui 1 1) /\
      forall (i : nat) e,
        (S i < length (Mip.outExtents r))%nat ->
        Mip.outExtents r !! i = Some e ->
        2 <= Z.max (SA.x e) (SA.y e).
Proof.
  intros W H data t c l ok HW HH.
  assert (Hm : Mip.mip_count (SA.mkVec2ui W H) = Some (Z.log2 (Z.max W H) + 1))
    by (apply mip_count_some; simpl; lia).
  rewrite (GenerateMipMaps_unfold _ _ _ _ _ _ _ Hm). cbv zeta.
  eexists. split; [reflexivity|]. simpl.
  rewrite size_loop_floor by lia.
  pose proof (Z.log2_nonneg (Z.max W H)) as Hl.
  replace (Z.to_nat (Z.log2 (Z.max W H) + 1))
    with (S (Z.to_nat (Z.log2 (Z.max W H)))) by lia.
  split.
  - rewrite last_lookup, length_map, length_seq. simpl pred.
    rewrite list_lookup_fmap, lookup_seq_lt by lia. simpl.
    f_equal. apply floor_level_last; lia.
  - intros i e Hi He. rewrite length_map, length_seq in Hi.
    rewrite list_lookup_fmap, lookup_seq_lt in He by lia. simpl in He.
    injection He as <-. apply floor_level_before_last; lia.
Qed.

(** ** WaitDeviceIdle and the device fence *)

Lemma wait_fence_at_once target q f :
  target <= f -> Frame.wait_fence target q f = Some (q, f, 0%nat).
Proof.
  intros H. destruct q; simpl; now rewrite (proj2 (Z.leb_le _ _) H).
Qed.

Lemma gpu_run_nonneg : forall n q f,
  0 <= f -> (forall w, In (Frame.Signal w) q -> 0 <= w) ->
  0 <= snd (Frame.gpu_run n q f).
Proof.
  induction n as [|n IH]; intros q f Hf Hq; [destruct q; exact Hf|].
  destruct q as [|c q]; [exact Hf|]. simpl. apply IH.
  - destruct c as [i| |v]; simpl; try exact Hf. apply Hq. now left.
  - intros w Hw. apply Hq. now right.
Qed.

(** X3. A [WaitDeviceIdle] called while [deviceFenceValue] is still 0 (its
    initial value, with a fence created at 0) does not wait for the GPU:
    the value it waits for has been reached already, so it returns with
    whatever the GPU had not retired yet still pending, the signal it
    queued included, and sets [deviceFenceValue] to 1. *)
Theorem first_WaitDeviceIdle_does_not_wait :
  forall (gpuProgress : nat) (s : Idle.Queue),
    Idle.deviceFenceValue s = 0 ->
    0 <= Idle.deviceFence s ->
    (forall w, In (Frame.Signal w) (Idle.pending s) -> 0 <= w) ->
    exists s',
      Idle.WaitDeviceIdle gpuProgress s = Some (s', 0%nat) /\
      Idle.pending s'
      = fst (Frame.gpu_run gpuProgress (Idle.pending s ++ [Frame.Signal 0])
               (Idle.deviceFence s)) /\
      Idle.deviceFenceValue s' = 1 /\
      (gpuProgress = 0%nat ->
       Idle.pending s' = Idle.pending s ++ [Frame.Signal 0]
       /\ Idle.deviceFence s' = Idle.deviceFence s).
Proof.
  intros n s Hv Hf Hq. unfold Idle.WaitDeviceIdle. rewrite Hv.
  pose proof (gpu_run_nonneg n (Idle.pending s ++ [Frame.Signal 0]) _ Hf) as Hnn.
  destruct (Frame.gpu_run n (Idle.pending s ++ [Frame.Signal 0]) (Idle.deviceFence s))
    as [q1 f1] eqn:E.
  simpl in Hnn.
  rewrite wait_fence_at_once.
  2:{ apply Hnn. intros w Hw. apply in_app_or in Hw. destruct Hw as [Hw|[Hw|[]]].
      - now apply Hq.
      - injection Hw as <-. lia. }
  eexists. split; [reflexivity|]. simpl. split; [reflexivity|]. split; [reflexivity|].
  intros ->. simpl in E. destruct (Idle.pending s ++ [Frame.Signal 0]);
    injection E as <- <-; split; reflexivity.
Qed.

(** Draining: with the fence and every pending signal below [t], a wait for
    [t] after a signal of [t] was queued ends with an empty queue. *)
Lemma wait_drains t : forall q f,
  f < t -> signals_below t q ->
  exists k, Frame.wait_fence t (q ++ [Frame.Signal t]) f = Some ([], t, k).
Proof.
  induction q as [|c q IH]; intros f Hf Hq.
  - simpl. rewrite (proj2 (Z.leb_gt _ _) Hf), Z.leb_refl. now eexists.
  - simpl. rewrite (proj2 (Z.leb_gt _ _) Hf).
    destruct (IH (Frame.gpu_exec c f)) as [k Hk].
    + destruct c as [i| |v]; simpl; try exact Hf. apply Hq. now left.
    + intros w Hw. apply Hq. now right.
    + rewrite Hk. now eexists.
Qed.

Lemma run_then_wait_drains t : forall n q f,
  f < t -> signals_below t q ->
  exists k,
    Frame.wait_fence t (fst (Frame.gpu_run n (q ++ [Frame.Signal t]) f))
      (snd (Frame.gpu_run n (q ++ [Frame.Signal t]) f)) = Some ([], t, k).
Proof.
  induction n as [|n IH]; intros q f Hf Hq.
  - replace (Frame.gpu_run 0 (q ++ [Frame.Signal t]) f) with (q ++ [Frame.Signal t], f)
      by (destruct (q ++ [Frame.Signal t]); reflexivity).
    simpl. now apply wait_drains.
  - destruct q as [|c q].
    + simpl. replace (Frame.gpu_run n [] t) with (@nil Frame.GpuCmd, t)
        by (destruct n; reflexivity).
      simpl. rewrite Z.leb_refl. now eexists.
    + simpl. apply IH.
      * destruct c as [i| |v]; simpl; try exact Hf. apply Hq. now left.
      * intros w Hw. apply Hq. now right.
Qed.

(** A wait that starts with the fence and the pending signals below
    [deviceFenceValue] returns with an idle queue. *)
Lemma WaitDeviceIdle_drains n s :
  Idle.deviceFence s < Idle.deviceFenceValue s ->
  signals_below (Idle.deviceFenceValue s) (Idle.pending s) ->
  exists k,
    Idle.WaitDeviceIdle n s
    = Some (Idle.mkQueue (Idle.deviceFenceValue s) []
              (u32 (Idle.deviceFenceValue s + 1)), k).
Proof.
  intros Hf Hq. unfold Idle.WaitDeviceIdle.
  destruct (run_then_wait_drains (Idle.deviceFenceValue s) n (Idle.pending s)
              (Idle.deviceFence s) Hf Hq) as [k Hk].
  destruct (Frame.gpu_run n _ _) as [q1 f1]. simpl in Hk. rewrite Hk.
  now eexists.
Qed.

Lemma signals_below_execute v q :
  signals_below v q -> signals_below v (q ++ [Frame.ExecuteCommandLists 0]).
Proof.
  intros H w Hw. apply in_app_or in Hw. destruct Hw as [Hw|[Hw|[]]]; [now apply H|].
  discriminate.
Qed.

(** The state after the first upload and any number of further ones. *)
Lemma uploads_idle : forall progress s,
  progress <> [] ->
  Idle.deviceFence s < Idle.deviceFenceValue s ->
  0 <= Idle.deviceFenceValue s ->
  Idle.deviceFenceValue s + Z.of_nat (length progress) < 2 ^ 32 ->
  signals_below (Idle.deviceFenceValue s) (Idle.pending s) ->
  Idle.uploads progress s
  = Some (Idle.mkQueue (Idle.deviceFenceValue s + Z.of_nat (length progress) - 1) []
            (Idle.deviceFenceValue s + Z.of_nat (length progress))).
Proof.
  induction progress as [|n rest IH]; intros s Hne Hf Hv Hlen Hq; [contradiction|].
  simpl in Hlen. simpl Idle.uploads. unfold Idle.execute_and_wait.
  destruct (WaitDeviceIdle_drains n
              (Idle.mkQueue (Idle.deviceFence s)
                 (Idle.pending s ++ [Frame.ExecuteCommandLists 0])
                 (Idle.deviceFenceValue s)) Hf (signals_below_execute _ _ Hq))
    as [k Hk].
  rewrite Hk. simpl. rewrite u32_small by lia.
  destruct rest as [|n' rest'].
  - simpl. do 2 f_equal; lia.
  - rewrite IH.
    + simpl Idle.deviceFenceValue. do 2 f_equal; simpl length; lia.
    + discriminate.
    + simpl. lia.
    + simpl. lia.
    + simpl Idle.deviceFenceValue. simpl length in *. lia.
    + intros w [].
Qed.

Lemma In_drop {A} (c : A) : forall l n, In c (drop n l) -> In c l.
Proof.
  induction l as [|a l IH]; intros [|n] H; simpl in H; try assumption.
  right. eapply IH. exact H.
Qed.

(** X4. In a series of uploads from the initial state, the first upload
    returns without waiting, possibly with its copy commands still on the
    queue; every later one returns only when the queue is empty. After
    [n + 1] uploads the fence holds [n] and [deviceFenceValue] is
    [n + 1]. *)
Theorem uploads_after_the_first_leave_the_queue_idle :
  forall (first : nat) (rest : list nat),
    rest <> [] ->
    Z.of_nat (length rest) < 2 ^ 32 - 1 ->
    exists s1,
      Idle.execute_and_wait first Idle.init = Some (s1, 0%nat) /\
      Idle.pending s1
      = drop first [Frame.ExecuteCommandLists 0; Frame.Signal 0] /\
      Idle.uploads (first :: rest) Idle.init
      = Some (Idle.mkQueue (Z.of_nat (length rest)) [] (Z.of_nat (length rest) + 1)).
Proof.
  intros n0 rest Hne Hlen.
  assert (E1 : exists s1,
    Idle.execute_and_wait n0 Idle.init = Some (s1, 0%nat)
    /\ Idle.pending s1 = drop n0 [Frame.ExecuteCommandLists 0; Frame.Signal 0]
    /\ Idle.deviceFence s1 = 0 /\ Idle.deviceFenceValue s1 = 1).
  { destruct n0 as [|[|[|n0]]]; eexists; (split; [reflexivity|]); simpl;
      repeat split; reflexivity. }
  destruct E1 as (s1 & Hs1 & Hp & Hf & Hv).
  exists s1. split; [exact Hs1|]. split; [exact Hp|].
  simpl Idle.uploads. rewrite Hs1.
  rewrite uploads_idle; try assumption; rewrite ?Hv, ?Hf; try lia.
  - do 2 f_equal; lia.
  - rewrite Hp. intros w Hw.
    apply In_drop in Hw. destruct Hw as [Hw|[Hw|[]]]; [discriminate|].
    injection Hw as <-. lia.
Qed.

(** ** Frames in flight *)

Lemma balanced_le q : balanced q -> (frames_in_flight q <= pending_signals q)%nat.
Proof.
  induction q as [|c q IH]; simpl; [lia|].
  destruct c as [i| |v]; simpl.
  - intros [H _]. lia.
  - exact IH.
  - intros H. specialize (IH H). lia.
Qed.

Lemma frames_in_flight_app q1 q2 :
  frames_in_flight (q1 ++ q2) = (frames_in_flight q1 + frames_in_flight q2)%nat.
Proof.
  induction q1 as [|c q1 IH]; [reflexivity|].
  destruct c; simpl; rewrite IH; reflexivity.
Qed.

Lemma pending_signals_app q1 q2 :
  pending_signals (q1 ++ q2) = (pending_signals q1 + pending_signals q2)%nat.
Proof.
  induction q1 as [|c q1 IH]; [reflexivity|].
  destruct c; simpl; rewrite IH; reflexivity.
Qed.

Lemma balanced_submit q i v :
  balanced q ->
  balanced (q ++ [Frame.ExecuteCommandLists i; Frame.Present; Frame.Signal v]).
Proof.
  induction q as [|c q IH]; simpl.
  - intros _. split; [lia|exact I].
  - destruct c as [j| |w]; simpl.
    + intros [Hlt Hb]. split; [|now apply IH].
      rewrite frames_in_flight_app, pending_signals_app. simpl. lia.
    + exact IH.
    + exact IH.
Qed.

Lemma balanced_tail c q : balanced (c :: q) -> balanced q.
Proof. destruct c; simpl; tauto. Qed.

Lemma gpu_run_balanced : forall n q f,
  balanced q -> balanced (fst (Frame.gpu_run n q f)).
Proof.
  induction n as [|n IH]; intros q f H; [destruct q; exact H|].
  destruct q as [|c q]; [exact H|]. simpl. apply IH. eapply balanced_tail. exact H.
Qed.

Lemma wait_fence_balanced target : forall q f q' f' k,
  Frame.wait_fence target q f = Some (q', f', k) -> balanced q -> balanced q'.
Proof.
  induction q as [|c q IH]; intros f q' f' k H Hb; simpl in H.
  - destruct (target <=? f); [|discriminate]. now injection H as <- <- <-.
  - destruct (target <=? f).
    + now injection H as <- <- <-.
    + destruct (Frame.wait_fence target q (Frame.gpu_exec c f))
        as [[[q2 f2] k2]|] eqn:Ew; [|discriminate].
      injection H as <- <- <-. eapply IH; [exact Ew|]. eapply balanced_tail. exact Hb.
Qed.

Lemma frame_begin_balanced env s s1 :
  Frame.frame_begin env s = Frame.Continue s1 ->
  balanced (Frame.queue s) -> balanced (Frame.queue s1).
Proof.
  unfold Frame.frame_begin. intros H Hb.
  destruct (Frame.swapchainFenceValues s !! Frame.swapchainFrameIndex s)
    as [prev|]; [|discriminate].
  destruct (Frame.swapchainFenceValues s !! Frame.backBuffer env)
    as [curr|]; [|discriminate].
  pose proof (gpu_run_balanced (Frame.gpuProgress env) (Frame.queue s) (Frame.fence s) Hb)
    as Hb1.
  destruct (Frame.gpu_run (Frame.gpuProgress env) (Frame.queue s) (Frame.fence s))
    as [q1 f1]. simpl in Hb1.
  destruct (f1 <? curr).
  - destruct (Frame.hrSetEvent_failed env); [discriminate|].
    destruct (Frame.wait_fence curr q1 f1) as [[[q2 f2] k]|] eqn:Ew; [|discriminate].
    injection H as <-. simpl. eapply wait_fence_balanced; [exact Ew|exact Hb1].
  - injection H as <-. exact Hb1.
Qed.

Lemma frame_balanced env s s' :
  Frame.frame env s = Frame.Continue s' ->
  balanced (Frame.queue s) -> balanced (Frame.queue s').
Proof.
  unfold Frame.frame. intros H Hb.
  destruct (Frame.frame_begin env s) as [s1| | |] eqn:E; try discriminate.
  pose proof (frame_begin_balanced _ _ _ E Hb) as Hb1.
  unfold Frame.frame_end, Frame.frame_record in H. simpl in H.
  destruct (Frame.hrPresent_failed env); [discriminate|].
  destruct (Frame.swapchainFenceValues s1 !! Frame.swapchainFrameIndex s1)
    as [v|]; [|discriminate].
  destruct (Frame.hrFenceSignal_failed env); [discriminate|].
  injection H as <-. simpl. rewrite <- app_assoc. simpl.
  now apply balanced_submit.
Qed.

Lemma run_balanced : forall envs s s',
  Frame.run envs s = Frame.Continue s' ->
  balanced (Frame.queue s) -> balanced (Frame.queue s').
Proof.
  induction envs as [|env envs IH]; intros s s' H Hb; simpl in H.
  - now injection H as <-.
  - destruct (Frame.frame env s) as [s1| | |] eqn:E; try discriminate.
    eapply IH; [exact H|]. eapply frame_balanced; [exact E|exact Hb].
Qed.

Lemma queue_ok_signals vals hi : forall q lo,
  queue_ok vals lo hi q -> Z.of_nat (pending_signals q) = hi - lo.
Proof.
  induction q as [|c q IH]; intros lo H; simpl in H.
  - simpl. lia.
  - destruct c as [i| |v]; simpl.
    + destruct H as [_ H]. now apply IH.
    + now apply IH.
    + destruct H as [-> H]. specialize (IH _ H). lia.
Qed.

(** Between two turns no more command lists are pending than turns whose
    signal the fence has not reached. *)
Lemma in_flight_le_unsignaled envs s :
  Z.of_nat (length envs) < 2 ^ 32 ->
  Frame.run envs Frame.init = Frame.Continue s ->
  Z.of_nat (frames_in_flight (Frame.queue s)) <= Z.of_nat (length envs) - Frame.fence s.
Proof.
  intros Hn Hr.
  pose proof (run_continue_inv envs s Hn Hr) as Inv.
  pose proof (run_balanced envs _ _ Hr I) as Hb.
  pose proof (queue_ok_signals _ _ _ _ (inv_queue _ _ Inv)) as Hs.
  rewrite length_map in Hs. pose proof (balanced_le _ Hb). lia.
Qed.

(** X5. With round-robin back buffers, at no point between two turns of
    the render loop are more than [bufferingCount] = 3 recorded command
    lists waiting on the queue, and the fence trails the number of turns by
    at most 3. *)
Theorem at_most_three_frames_in_flight :
  forall (envs : list Frame.Env) (s : Frame.Renderer),
    Z.of_nat (length envs) < 2 ^ 32 ->
    Frame.round_robin envs ->
    Frame.run envs Frame.init = Frame.Continue s ->
    (frames_in_flight (Frame.queue s) <= Frame.bufferingCount)%nat
    /\ Z.of_nat (length envs) - 3 <= Frame.fence s <= Z.of_nat (length envs).
Proof.
  intros envs s Hn Hrr Hr.
  pose proof (in_flight_le_unsignaled envs s Hn Hr) as Hle.
  pose proof (run_continue_inv envs s Hn Hr) as Inv.
  pose proof (queue_ok_le _ _ _ _ (inv_queue _ _ Inv)) as Hhi.
  rewrite length_map in Hhi.
  pose proof (inv_fence _ _ Inv) as H0.
  assert (Hlo : Z.of_nat (length envs) - 3 <= Frame.fence s).
  { destruct envs as [|e0 envs0] using rev_ind; [simpl; lia|]. clear IHenvs0.
    rewrite length_app in *. simpl length in *.
    rewrite run_snoc in Hr.
    destruct (Frame.run envs0 Frame.init) as [s0| | |] eqn:E0; try discriminate.
    pose proof (run_continue_inv envs0 s0 ltac:(lia) E0) as Inv0.
    unfold Frame.frame in Hr.
    destruct (Frame.frame_begin e0 s0) as [s1| | |] eqn:Eb; try discriminate.
    destruct (frame_begin_continue _ _ _ _ Inv0 Eb) as [Hidx Hcan].
    destruct (frame_begin_spec _ s0 e0 Inv0 Hidx) as [_ Hc].
    destruct (Hc Hcan) as (s1' & Hb' & Hv & Hi & _ & Hq & Hw & Hmono & _).
    rewrite Eb in Hb'. injection Hb' as <-.
    destruct (Frame.hrPresent_failed e0) eqn:Hp.
    { unfold Frame.frame_end in Hr. rewrite Hp in Hr. discriminate. }
    destruct (Frame.hrFenceSignal_failed e0) eqn:Hs.
    { unfold Frame.frame_end in Hr. rewrite Hp, Hs in Hr.
      destruct (_ !! _) in Hr; discriminate. }
    destruct (frame_rest _ s0 e0 s1 Inv0 ltac:(rewrite length_map; lia) Hidx Hv Hi Hq
                ltac:(pose proof (inv_fence _ _ Inv0); lia) Hp Hs)
      as (s'' & He & _ & Hf & _).
    rewrite He in Hr. injection Hr as <-. rewrite Hf.
    assert (Hrr0 : Frame.round_robin envs0).
    { intros j e Hj. apply (Hrr j e). now apply lookup_app_l_Some. }
    rewrite (round_robin_indices _ Hrr0) in Hw.
    assert (Hbb : Frame.backBuffer e0 = (length envs0 mod 3)%nat).
    { apply (Hrr (length envs0) e0). rewrite lookup_app_r by lia.
      now rewrite Nat.sub_diag. }
    rewrite Hbb, last_use_rr in Hw.
    destruct (length envs0 <? 3)%nat eqn:E3.
    - apply Nat.ltb_lt in E3. lia.
    - lia. }
  split; [|lia]. unfold Frame.bufferingCount. lia.
Qed.

Lemma frame_log env s s' :
  Frame.frame env s = Frame.Continue s' -> Frame.log s' = Frame.log s.
Proof.
  unfold Frame.frame. intros H.
  destruct (Frame.frame_begin env s) as [s1| | |] eqn:E; try discriminate.
  destruct (frame_begin_continue_any _ _ _ E) as (_ & _ & _ & _ & _ & _ & Hl & _).
  unfold Frame.frame_end, Frame.frame_record in H. simpl in H.
  destruct (Frame.hrPresent_failed env); [discriminate|].
  destruct (Frame.swapchainFenceValues s1 !! Frame.swapchainFrameIndex s1)
    as [v|]; [|discriminate].
  destruct (Frame.hrFenceSignal_failed env); [discriminate|].
  injection H as <-. exact Hl.
Qed.

Lemma run_log : forall envs s s',
  Frame.run envs s = Frame.Continue s' -> Frame.log s' = Frame.log s.
Proof.
  induction envs as [|env envs IH]; intros s s' H; simpl in H.
  - now injection H as <-.
  - destruct (Frame.frame env s) as [s1| | |] eqn:E; try discriminate.
    rewrite (IH _ _ H). eapply frame_log. exact E.
Qed.

(** X6. Whatever order the swapchain hands out its three back buffers in,
    as long as no call fails the render loop neither blocks forever in a
    wait nor leaves the bounds of its arrays: it reaches every turn below
    2^32, logs nothing, has signaled the turn number at the end of each
    turn, and the fence never runs ahead of the signals submitted. *)
Theorem render_loop_never_blocks :
  forall (envs : list Frame.Env),
    Z.of_nat (length envs) < 2 ^ 32 ->
    Forall (fun env => (Frame.backBuffer env < Frame.bufferingCount)%nat
                       /\ Frame.no_failure env) envs ->
    exists s,
      Frame.run envs Frame.init = Frame.Continue s /\
      Frame.log s = [] /\
      Frame.last_signaled s = Some (Z.of_nat (length envs)) /\
      0 <= Frame.fence s <= Z.of_nat (length envs) /\
      Z.of_nat (frames_in_flight (Frame.queue s))
      <= Z.of_nat (length envs) - Frame.fence s.
Proof.
  intros envs Hn Hall.
  destruct (run_total envs Hn Hall) as [s Hs]. exists s.
  pose proof (run_continue_inv envs s Hn Hs) as Inv.
  pose proof (queue_ok_le _ _ _ _ (inv_queue _ _ Inv)) as Hhi.
  rewrite length_map in Hhi.
  split; [exact Hs|]. split; [exact (run_log _ _ _ Hs)|].
  split.
  { unfold Frame.last_signaled. rewrite (inv_last _ _ Inv), length_map. reflexivity. }
  split; [pose proof (inv_fence _ _ Inv); lia|].
  now apply in_flight_le_unsignaled.
Qed.

(** ** Render-target views *)

Lemma u64_add_r a b : u64 (a + u64 b) = u64 (a + b).
Proof. unfold u64. now rewrite Zplus_mod_idemp_r. Qed.

Lemma u64_shift_neq a : u64 a <> u64 (a - 2 ^ 32).
Proof.
  unfold u64. intros E.
  assert (Hz : (a - (a - 2 ^ 32)) mod 2 ^ 64 = 0).
  { rewrite Zminus_mod, E, Z.sub_diag. reflexivity. }
  replace (a - (a - 2 ^ 32)) with (2 ^ 32) in Hz by lia.
  discriminate Hz.
Qed.

(** X7. The render-target view a frame binds is the one created for its
    back buffer exactly when [rtvOffset * swapchainFrameIndex] does not
    overflow 32 bits: the creation loop advances the 64-bit handle by
    [rtvOffset] per image, the frame adds a [UINT] product. *)
Theorem frame_view_matches_created_view :
  forall (start rtvOffset : Z) (swapchainFrameIndex : nat),
    0 <= start < 2 ^ 64 ->
    0 <= rtvOffset < 2 ^ 32 ->
    (swapchainFrameIndex < Frame.bufferingCount)%nat ->
    exists handle,
      Descriptors.create_views Frame.bufferingCount 0 start rtvOffset
        !! swapchainFrameIndex
      = Some (Z.of_nat swapchainFrameIndex, handle) /\
      (Descriptors.frame_view start rtvOffset (Z.of_nat swapchainFrameIndex) = handle
       <-> rtvOffset * Z.of_nat swapchainFrameIndex < 2 ^ 32).
Proof.
  intros start off idx Hs Ho Hidx. unfold Frame.bufferingCount in Hidx.
  unfold Descriptors.frame_view.
  destruct idx as [|[|[|idx]]]; [| | |lia]; eexists; (split; [reflexivity|]).
  - rewrite Z.mul_0_r. change (u32 0) with 0. rewrite Z.add_0_r, u64_small by lia.
    split; [lia|reflexivity].
  - change (Z.of_nat 1) with 1. rewrite Z.mul_1_r, (u32_small off) by lia.
    split; [lia|reflexivity].
  - change (Z.of_nat 2) with 2.
    rewrite (Z.add_comm (u64 (start + off)) off), u64_add_r.
    replace (off + (start + off)) with (start + off * 2) by lia.
    split.
    + intros E. destruct (Z.lt_ge_cases (off * 2) (2 ^ 32)) as [|Hge]; [assumption|].
      exfalso. assert (Hu : u32 (off * 2) = off * 2 - 2 ^ 32).
      { unfold u32. symmetry. apply Z.mod_unique with (q := 1); lia. }
      rewrite Hu in E. apply (u64_shift_neq (start + off * 2)).
      rewrite <- E. f_equal. lia.
    + intros H. now rewrite u32_small by lia.
Qed.

(** ** The index buffer *)

Lemma store_app done x rest v :
  Mesh.store (done ++ x :: rest) (Z.of_nat (length done)) v = Some (done ++ v :: rest).
Proof.
  unfold Mesh.store. rewrite length_app. simpl length.
  replace (Z.of_nat (length done) <? Z.of_nat (length done + S (length rest))) with true
    by (symmetry; apply Z.ltb_lt; lia).
  rewrite Nat2Z.id, insert_app_r_alt by lia. rewrite Nat.sub_diag. reflexivity.
Qed.

Lemma triangle_three a b c f : triangle (a :: b :: c :: f) = [u16 a; u16 b; u16 c].
Proof. reflexivity. Qed.

Lemma fill_indices_spec mFaces : forall n i done,
  (i + n <= length mFaces)%nat ->
  3 * Z.of_nat (i + n) < 2 ^ 32 ->
  length done = (3 * i)%nat ->
  Forall (fun f => (3 <= length f)%nat) mFaces ->
  Mesh.fill_indices n (Z.of_nat i) mFaces (done ++ replicate (3 * n) 0)
  = Some (done ++ concat (map triangle (take n (drop i mFaces)))).
Proof.
  induction n as [|n IH]; intros i done Hlen Hfit Hdone Hall.
  - simpl. now rewrite app_nil_r.
  - replace (replicate (3 * S n) 0) with (0 :: 0 :: 0 :: replicate (3 * n) 0)
      by (replace (3 * S n)%nat with (S (S (S (3 * n)))) by lia; reflexivity).
    set (zeros := replicate (3 * n) 0).
    simpl Mesh.fill_indices. rewrite Nat2Z.id.
    destruct (lookup_lt_is_Some_2 mFaces i ltac:(lia)) as [f Hf]. rewrite Hf.
    pose proof (proj1 (Forall_lookup _ _) Hall _ _ Hf) as H3. simpl in H3.
    destruct f as [|a [|b [|c f]]]; simpl in H3; try lia.
    simpl lookup.
    replace (u32 (Z.of_nat i * 3)) with (Z.of_nat (length done))
      by (rewrite u32_small; lia).
    rewrite store_app.
    replace (u32 (Z.of_nat (length done) + 1)) with (Z.of_nat (length (done ++ [u16 a])))
      by (rewrite length_app, u32_small; simpl; lia).
    replace (done ++ u16 a :: 0 :: 0 :: zeros)
      with ((done ++ [u16 a]) ++ 0 :: 0 :: zeros)
      by (now rewrite <- app_assoc).
    rewrite store_app.
    replace (u32 (Z.of_nat (length done) + 2))
      with (Z.of_nat (length ((done ++ [u16 a]) ++ [u16 b])))
      by (rewrite !length_app, u32_small; simpl; lia).
    replace ((done ++ [u16 a]) ++ u16 b :: 0 :: zeros)
      with (((done ++ [u16 a]) ++ [u16 b]) ++ 0 :: zeros)
      by (now rewrite <- !app_assoc).
    rewrite store_app.
    replace (u32 (Z.of_nat i + 1)) with (Z.of_nat (S i)) by (rewrite u32_small; lia).
    replace (((done ++ [u16 a]) ++ [u16 b]) ++ u16 c :: zeros)
      with ((done ++ [u16 a; u16 b; u16 c]) ++ zeros)
      by (now rewrite <- !app_assoc).
    unfold zeros.
    rewrite IH; [|lia|lia|rewrite length_app; simpl; lia|exact Hall].
    rewrite (drop_S _ _ _ Hf), <- app_assoc. reflexivity.
Qed.

Lemma triangle_exact f :
  length f = 3%nat -> Forall (fun v => 0 <= v < 2 ^ 16) f -> triangle f = f.
Proof.
  intros Hl Hf. destruct f as [|a [|b [|c [|d f]]]]; try discriminate.
  unfold triangle. simpl.
  apply Forall_cons in Hf as [Ha Hf]. apply Forall_cons in Hf as [Hb Hf].
  apply Forall_cons in Hf as [Hc _].
  now rewrite !u16_small.
Qed.

(** X8. For a mesh whose faces all have at least three indices (and whose
    index count fits in 32 bits) the index block fills [indices] with the
    first three indices of every face in order, each truncated to 16 bits;
    the count drawn and the bytes uploaded ([desc.Width], two per index)
    match the vector. For triangles with indices below 65536 the vector is
    the concatenation of the faces. *)
Theorem build_indices_flattens_faces :
  forall (mNumFaces : Z) (mFaces : list (list Z)),
    mNumFaces = Z.of_nat (length mFaces) ->
    3 * mNumFaces < 2 ^ 32 ->
    Forall (fun f => (3 <= length f)%nat) mFaces ->
    exists b,
      Mesh.build_indices mNumFaces mFaces = Some b /\
      Mesh.indices b = concat (map triangle mFaces) /\
      Z.of_nat (length (Mesh.indices b)) = 3 * mNumFaces /\
      Mesh.sphereIndexCount b = Z.of_nat (length (Mesh.indices b)) /\
      Mesh.Width b = 2 * Z.of_nat (length (Mesh.indices b)) /\
      (Forall (fun f => length f = 3%nat /\ Forall (fun v => 0 <= v < 2 ^ 16) f) mFaces ->
       Mesh.indices b = concat mFaces).
Proof.
  intros n faces -> Hfit Hall. unfold Mesh.build_indices.
  rewrite Nat2Z.id, (u32_small (Z.of_nat (length faces) * 3)) by lia.
  replace (Z.to_nat (Z.of_nat (length faces) * 3)) with (3 * length faces)%nat by lia.
  assert (E : Mesh.fill_indices (length faces) 0 faces (replicate (3 * length faces) 0)
              = Some (concat (map triangle (take (length faces) (drop 0 faces)))))
    by exact (fill_indices_spec faces (length faces) 0 [] ltac:(lia) ltac:(simpl; lia)
                eq_refl Hall).
  rewrite E, drop_0, firstn_all.
  eexists. split; [reflexivity|]. simpl.
  assert (Hlen : length (concat (map triangle faces)) = (3 * length faces)%nat).
  { clear E Hfit. induction Hall as [|f l Hf _ IH]; [reflexivity|].
    change (concat (map triangle (f :: l))) with (triangle f ++ concat (map triangle l)).
    rewrite length_app, IH.
    assert (Ht : length (triangle f) = 3%nat)
      by (destruct f as [|a [|b [|c f]]]; simpl in Hf; try lia; reflexivity).
    rewrite Ht. simpl length. lia. }
  split; [reflexivity|]. rewrite Hlen.
  split; [lia|]. split; [lia|].
  split; [rewrite (u64_small (2 * Z.of_nat (length faces))) by lia;
          rewrite u64_small by lia; lia|].
  intros Hex. f_equal. clear E Hlen Hall Hfit.
  induction Hex as [|f l [Hl Hf] _ IH]; [reflexivity|].
  simpl. now rewrite IH, triangle_exact.
Qed.

Lemma fill_indices_short_face mFaces : forall n i indices (j : nat) f,
  (i <= j < i + n)%nat -> Z.of_nat (i + n) < 2 ^ 32 ->
  mFaces !! j = Some f -> (length f < 3)%nat ->
  Mesh.fill_indices n (Z.of_nat i) mFaces indices = None.
Proof.
  induction n as [|n IH]; intros i indices j f Hj Hfit Hf Hshort; [lia|].
  simpl. rewrite Nat2Z.id.
  destruct (mFaces !! i) as [g|] eqn:Hg; [|reflexivity].
  destruct (Nat.eq_dec j i) as [->|Hne].
  - rewrite Hf in Hg. injection Hg as <-.
    destruct f as [|a [|b [|c f]]]; simpl in Hshort; try lia; reflexivity.
  - destruct (g !! 0%nat); [|reflexivity].
    destruct (g !! 1%nat); [|reflexivity].
    destruct (g !! 2%nat); [|reflexivity].
    destruct (Mesh.store indices _ _); [|reflexivity].
    destruct (Mesh.store l _ _); [|reflexivity].
    destruct (Mesh.store l0 _ _); [|reflexivity].
    replace (u32 (Z.of_nat i + 1)) with (Z.of_nat (S i)) by (rewrite u32_small; lia).
    eapply IH; [|lia|exact Hf|exact Hshort]. lia.
Qed.

(** X9. The index block reads three indices from every face without
    looking at [mNumIndices]: a face with fewer than three indices makes it
    read outside that face's array. *)
Theorem build_indices_needs_three_indices_per_face :
  forall (mNumFaces : Z) (mFaces : list (list Z)) (j : nat) (f : list Z),
    mNumFaces = Z.of_nat (length mFaces) ->
    mNumFaces < 2 ^ 32 ->
    mFaces !! j = Some f -> (length f < 3)%nat ->
    Mesh.build_indices mNumFaces mFaces = None.
Proof.
  intros n faces j f -> Hfit Hf Hshort. unfold Mesh.build_indices.
  rewrite Nat2Z.id.
  change 0 with (Z.of_nat 0) at 1.
  rewrite (fill_indices_short_face faces (length faces) 0 _ j f); [reflexivity| |assumption..].
  - apply lookup_lt_Some in Hf. lia.
Qed.

(** ** The Vulkan renderer: device discovery and swapchain choices *)

Lemma land_bit_test (tf i : Z) :
  0 <= i < 32 ->
  (Z.land tf (u32 (Z.shiftl 1 i)) =? 0) = negb (Z.testbit tf i).
Proof.
  intros Hi.
  assert (Hp : u32 (Z.shiftl 1 i) = 2 ^ i).
  { rewrite Z.shiftl_1_l. apply u32_small. split; [apply Z.pow_nonneg; lia|].
    apply Z.pow_lt_mono_r; lia. }
  rewrite Hp.
  destruct (Z.testbit tf i) eqn:Eb; simpl.
  - apply Z.eqb_neq. intros H0.
    assert (Hb : Z.testbit (Z.land tf (2 ^ i)) i = true).
    { rewrite Z.land_spec, Eb, Z.pow2_bits_true by lia. reflexivity. }
    rewrite H0, Z.bits_0 in Hb. discriminate.
  - apply Z.eqb_eq. apply Z.bits_inj'. intros n Hn.
    rewrite Z.land_spec, Z.bits_0.
    destruct (Z.eq_dec i n) as [<-|Hne].
    + now rewrite Eb.
    + rewrite (Z.pow2_bits_false i n) by lia. apply andb_false_r.
Qed.

Lemma FindMemoryType_loop_spec mp typeFilter properties : forall n k,
  (k + n <= 32)%nat ->
  (k + n <= length (VK.memoryTypes mp))%nat ->
  (exists j : nat,
      VK.FindMemoryType_loop n (Z.of_nat k) typeFilter properties (VK.memoryTypes mp)
      = Some (Some (Z.of_nat j))
      /\ (k <= j < k + n)%nat
      /\ suitable_memory_type mp typeFilter properties j
      /\ forall m, (k <= m < j)%nat -> ~ suitable_memory_type mp typeFilter properties m)
  \/ (VK.FindMemoryType_loop n (Z.of_nat k) typeFilter properties (VK.memoryTypes mp)
      = Some None
      /\ forall m, (k <= m < k + n)%nat -> ~ suitable_memory_type mp typeFilter properties m).
Proof.
  induction n as [|n IH]; intros k H32 Hlen.
  - right. split; [reflexivity|]. intros m Hm. lia.
  - simpl VK.FindMemoryType_loop.
    replace (32 <=? Z.of_nat k) with false by (symmetry; apply Z.leb_gt; lia).
    rewrite land_bit_test by lia. rewrite Bool.negb_involutive.
    replace (u32 (Z.of_nat k + 1)) with (Z.of_nat (S k)) by (rewrite u32_small; lia).
    rewrite Nat2Z.id.
    destruct (lookup_lt_is_Some_2 (VK.memoryTypes mp) k ltac:(lia)) as [fl Hfl].
    assert (Hnext :
      ~ suitable_memory_type mp typeFilter properties k ->
      (exists j : nat,
          VK.FindMemoryType_loop n (Z.of_nat (S k)) typeFilter properties (VK.memoryTypes mp)
          = Some (Some (Z.of_nat j))
          /\ (k <= j < k + S n)%nat
          /\ suitable_memory_type mp typeFilter properties j
          /\ forall m, (k <= m < j)%nat -> ~ suitable_memory_type mp typeFilter properties m)
      \/ (VK.FindMemoryType_loop n (Z.of_nat (S k)) typeFilter properties (VK.memoryTypes mp)
          = Some None
          /\ forall m, (k <= m < k + S n)%nat
                       -> ~ suitable_memory_type mp typeFilter properties m)).
    { intros Hk. destruct (IH (S k) ltac:(lia) ltac:(lia)) as [(j & E & Hj & Hs & Hmin)|[E Hno]].
      - left. exists j. split; [exact E|]. split; [lia|]. split; [exact Hs|].
        intros m Hm. destruct (Nat.eq_dec m k) as [->|]; [exact Hk|]. apply Hmin. lia.
      - right. split; [exact E|].
        intros m Hm. destruct (Nat.eq_dec m k) as [->|]; [exact Hk|]. apply Hno. lia. }
    destruct (Z.testbit typeFilter (Z.of_nat k)) eqn:Eb.
    + rewrite Hfl. destruct (Z.land fl properties =? properties) eqn:Ef.
      * left. exists k. split; [reflexivity|]. split; [lia|]. split.
        -- split; [exact Eb|]. exists fl. split; [exact Hfl|]. now apply Z.eqb_eq.
        -- intros m Hm. lia.
      * apply Hnext. intros [_ (fl' & Hfl' & Hl)].
        rewrite Hfl in Hfl'. injection Hfl' as <-.
        apply Z.eqb_neq in Ef. contradiction.
    + apply Hnext. intros [Hb _]. congruence.
Qed.

(** X10. [FindMemoryType] is a first-fit search: for at most 32 memory
    types it returns the lowest index whose bit is set in [typeFilter] and
    whose property flags contain all the requested ones, and logs nothing;
    when no type qualifies it logs an error and returns [uint32_t(-1)],
    which is no index of a memory type. *)
Theorem FindMemoryType_first_fit :
  forall (mp : VK.VkPhysicalDeviceMemoryProperties) (typeFilter properties : Z),
    0 <= VK.memoryTypeCount mp <= VK.VK_MAX_MEMORY_TYPES ->
    (Z.to_nat (VK.memoryTypeCount mp) <= length (VK.memoryTypes mp))%nat ->
    exists r log,
      VK.FindMemoryType mp typeFilter properties = Some (r, log) /\
      ((exists j : nat,
           r = Z.of_nat j /\ r < VK.memoryTypeCount mp /\ log = [] /\
           suitable_memory_type mp typeFilter properties j /\
           forall m, (m < j)%nat -> ~ suitable_memory_type mp typeFilter properties m)
       \/ (r = 2 ^ 32 - 1 /\
           log = ["Failed to find suitable memory type!"%string] /\
           forall m, Z.of_nat m < VK.memoryTypeCount mp ->
                     ~ suitable_memory_type mp typeFilter properties m)).
Proof.
  intros mp tf props Hc Hlen. unfold VK.VK_MAX_MEMORY_TYPES in Hc.
  unfold VK.FindMemoryType.
  destruct (FindMemoryType_loop_spec mp tf props (Z.to_nat (VK.memoryTypeCount mp)) 0
              ltac:(lia) ltac:(lia)) as [(j & E & Hj & Hs & Hmin)|[E Hno]].
  - change (Z.of_nat 0) with 0 in E. rewrite E.
    exists (Z.of_nat j), []. split; [reflexivity|]. left.
    exists j. split; [reflexivity|]. split; [lia|]. split; [reflexivity|].
    split; [exact Hs|]. intros m Hm. apply Hmin. lia.
  - change (Z.of_nat 0) with 0 in E. rewrite E.
    eexists _, _. split; [reflexivity|]. right.
    split; [reflexivity|]. split; [reflexivity|].
    intros m Hm. apply Hno. lia.
Qed.

Lemma lookup_In {A} (l : list A) (i : nat) (x : A) : l !! i = Some x -> In x l.
Proof. intros H. apply list_elem_of_In. eapply list_elem_of_lookup_2. exact H. Qed.

Lemma found_In name : forall available,
  VK.found name available = true <-> In name available.
Proof.
  induction available as [|a rest IH]; simpl.
  - split; [discriminate|tauto].
  - destruct (String.eqb name a) eqn:E.
    + apply String.eqb_eq in E. subst. tauto.
    + apply String.eqb_neq in E. rewrite IH. split; [tauto|].
      intros [->|H]; [contradiction|exact H].
Qed.

Lemma all_required_supported_In supported : forall req,
  VK.all_required_supported req supported = true
  <-> forall e, In e req -> In e supported.
Proof.
  induction req as [|r req IH]; simpl.
  - split; [intros _ e []|reflexivity].
  - destruct (VK.found r supported) eqn:E.
    + apply found_In in E. rewrite IH. split.
      * intros H e [<-|He]; [exact E|now apply H].
      * intros H e He. apply H. now right.
    + split; [discriminate|]. intros H.
      assert (Hr : In r supported) by (apply H; now left).
      apply found_In in Hr. congruence.
Qed.

(** X11. The validation-layer check passes exactly when every requested
    layer is available; otherwise [main] returns [EXIT_FAILURE] and the
    line logged names the first requested layer that is missing. *)
Theorem check_validation_layers_first_missing :
  forall (validationLayers availableLayers : list string),
    (VK.check_validation_layers validationLayers availableLayers = inl tt
     <-> forall l, In l validationLayers -> In l availableLayers)
    /\ (forall code log,
          VK.check_validation_layers validationLayers availableLayers
          = inr (code, log) ->
          code = EXIT_FAILURE
          /\ exists before layer after,
               validationLayers = before ++ layer :: after
               /\ (forall l, In l before -> In l availableLayers)
               /\ ~ In layer availableLayers
               /\ log = [("Validation Layers [" ++ layer ++ "] not supported!")%string]).
Proof.
  intros req avail. induction req as [|r req [IH1 IH2]]; simpl.
  - split; [split; [intros _ l []|reflexivity]|]. intros code log H. discriminate.
  - destruct (VK.found r avail) eqn:E.
    + apply found_In in E. split.
      * rewrite IH1. split.
        -- intros H l [<-|Hl]; [exact E|now apply H].
        -- intros H l Hl. apply H. now right.
      * intros code log H. destruct (IH2 code log H) as (Hc & b & l & a & -> & Hb & Hl & Hlog).
        split; [exact Hc|]. exists (r :: b), l, a. split; [reflexivity|].
        split; [|split; assumption].
        intros x [<-|Hx]; [exact E|now apply Hb].
    + assert (Hr : ~ In r avail) by (rewrite <- found_In; congruence).
      split.
      * split; [discriminate|]. intros H. exfalso. apply Hr, H. now left.
      * intros code log H. injection H as <- <-. split; [reflexivity|].
        exists [], r, req. split; [reflexivity|]. split; [intros l []|].
        split; [exact Hr|reflexivity].
Qed.

Lemma graphics_bit_test f :
  (Z.land (VK.queueFlags f) VK.VK_QUEUE_GRAPHICS_BIT =? 0)
  = negb (Z.testbit (VK.queueFlags f) 0).
Proof. exact (land_bit_test (VK.queueFlags f) 0 ltac:(lia)). Qed.

Lemma NONE_value : VK.NONE = 2 ^ 32 - 1.
Proof. reflexivity. Qed.

Lemma first_family_from_cons_skip k P a rest r :
  ~ P a -> first_family_from (S k) P rest r -> first_family_from k P (a :: rest) r.
Proof.
  intros Ha [[Hr Hno]|(j & f & Hr & Hj & Hf & Hmin)].
  - left. split; [exact Hr|]. intros f [<-|Hf]; [exact Ha|now apply Hno].
  - right. exists (S j), f. split; [rewrite Hr; f_equal; lia|].
    split; [exact Hj|]. split; [exact Hf|].
    intros [|m] f' Hm Hlk; simpl in Hlk.
    + injection Hlk as <-. exact Ha.
    + eapply Hmin; [|exact Hlk]. lia.
Qed.

Lemma first_family_from_cons_hit k P a rest :
  P a -> first_family_from k P (a :: rest) (Z.of_nat k).
Proof.
  intros Ha. right. exists 0%nat, a. split; [f_equal; lia|].
  split; [reflexivity|]. split; [exact Ha|]. intros m f' Hm. lia.
Qed.

Lemma find_queue_families_graphics : forall fams k cur q,
  Z.of_nat (k + length fams) < 2 ^ 32 ->
  VK.find_queue_families (Z.of_nat k) fams cur = inl q ->
  (VK.graphicsFamily cur <> VK.NONE -> VK.graphicsFamily q = VK.graphicsFamily cur)
  /\ (VK.graphicsFamily cur = VK.NONE ->
      first_family_from k graphics_capable fams (VK.graphicsFamily q)).
Proof.
  induction fams as [|a rest IH]; intros k cur q Hk H.
  - simpl in H. injection H as <-. split; [reflexivity|].
    intros Hc. left. split; [exact Hc|]. intros f [].
  - simpl in Hk. simpl in H.
    replace (u32 (Z.of_nat k + 1)) with (Z.of_nat (S k)) in H
      by (rewrite u32_small; lia).
    rewrite graphics_bit_test, Bool.negb_involutive in H.
    assert (Hrec : exists p,
      VK.find_queue_families (Z.of_nat (S k)) rest
        (VK.mkIndices
           (if (VK.graphicsFamily cur =? VK.NONE) && Z.testbit (VK.queueFlags a) 0
            then Z.of_nat k else VK.graphicsFamily cur) p) = inl q).
    { destruct (VK.presentFamily cur =? VK.NONE).
      - destruct (VK.vrSupportKHR a =? VK.VK_SUCCESS); simpl in H; [|discriminate].
        eexists. exact H.
      - eexists. exact H. }
    destruct Hrec as [p Hrec].
    destruct (IH (S k) _ q ltac:(lia) Hrec) as [IHne IHeq].
    cbn [VK.graphicsFamily VK.presentFamily andb] in IHne, IHeq.
    destruct (VK.graphicsFamily cur =? VK.NONE) eqn:Eg.
    + apply Z.eqb_eq in Eg. split; [congruence|]. intros _.
      destruct (Z.testbit (VK.queueFlags a) 0) eqn:Eb;
        cbn [VK.graphicsFamily VK.presentFamily andb] in IHne, IHeq.
      * rewrite IHne by (rewrite NONE_value; lia).
        now apply first_family_from_cons_hit.
      * apply first_family_from_cons_skip; [unfold graphics_capable; congruence|].
        now apply IHeq.
    + apply Z.eqb_neq in Eg. cbn [VK.graphicsFamily VK.presentFamily andb] in IHne.
      split; [|congruence].
      intros _. now apply IHne.
Qed.

(** The families the present search looked at before it stopped. *)
Lemma find_queue_families_present : forall fams k cur q,
  Z.of_nat (k + length fams) < 2 ^ 32 ->
  VK.find_queue_families (Z.of_nat k) fams cur = inl q ->
  (VK.presentFamily cur <> VK.NONE -> VK.presentFamily q = VK.presentFamily cur)
  /\ (VK.presentFamily cur = VK.NONE ->
      first_family_from k presentable fams (VK.presentFamily q)).
Proof.
  induction fams as [|a rest IH]; intros k cur q Hk H.
  - simpl in H. injection H as <-. split; [reflexivity|].
    intros Hc. left. split; [exact Hc|]. intros f [].
  - simpl in Hk. simpl in H.
    replace (u32 (Z.of_nat k + 1)) with (Z.of_nat (S k)) in H
      by (rewrite u32_small; lia).
    destruct (VK.presentFamily cur =? VK.NONE) eqn:Ep.
    + apply Z.eqb_eq in Ep. split; [congruence|]. intros _.
      destruct (VK.vrSupportKHR a =? VK.VK_SUCCESS); simpl in H; [|discriminate].
      destruct (IH (S k) _ q ltac:(lia) H) as [IHne IHeq].
      cbn [VK.graphicsFamily VK.presentFamily andb] in IHne, IHeq.
      destruct (VK.presentSupport a =? VK.VK_SUCCESS) eqn:Es.
      * apply Z.eqb_eq in Es. rewrite IHne by (rewrite NONE_value; lia).
        now apply first_family_from_cons_hit.
      * apply Z.eqb_neq in Es. apply first_family_from_cons_skip; [exact Es|].
        now apply IHeq.
    + apply Z.eqb_neq in Ep. split; [|congruence]. intros _.
      destruct (IH (S k) _ q ltac:(lia) H) as [IHne _].
      cbn [VK.graphicsFamily VK.presentFamily andb] in IHne.
      now apply IHne.
Qed.

Lemma find_queue_families_failed : forall fams i cur vr,
  VK.find_queue_families i fams cur = inr vr ->
  exists f, In f fams /\ VK.vrSupportKHR f = vr /\ vr <> VK.VK_SUCCESS.
Proof.
  induction fams as [|a rest IH]; intros i cur vr H; simpl in H; [discriminate|].
  destruct (VK.presentFamily cur =? VK.NONE).
  - destruct (VK.vrSupportKHR a =? VK.VK_SUCCESS) eqn:Ev; simpl in H.
    + destruct (IH _ _ _ H) as (f & Hf & Hv). exists f. split; [now right|exact Hv].
    + injection H as <-. exists a. split; [now left|]. split; [reflexivity|].
      now apply Z.eqb_neq.
  - destruct (IH _ _ _ H) as (f & Hf & Hv). exists f. split; [now right|exact Hv].
Qed.

(** The two searches of the queue-family loop. *)
Lemma find_queue_families_inl fams q :
  Z.of_nat (length fams) < 2 ^ 32 ->
  VK.find_queue_families 0 fams (VK.mkIndices VK.NONE VK.NONE) = inl q ->
  first_family graphics_capable fams (VK.graphicsFamily q)
  /\ first_family presentable fams (VK.presentFamily q).
Proof.
  intros Hlen H. change 0 with (Z.of_nat 0) in H.
  destruct (find_queue_families_graphics fams 0 _ q ltac:(simpl; lia) H) as [_ Hg].
  destruct (find_queue_families_present fams 0 _ q ltac:(simpl; lia) H) as [_ Hp].
  split; [exact (Hg eq_refl)|exact (Hp eq_refl)].
Qed.

(** X12. When the queue-family loop of a device runs to its end, the
    graphics family is the first family with the graphics bit and the
    present family is the first family for which the surface-support query
    wrote 0 into [presentSupport] (the loop compares the [VkBool32] with
    [VK_SUCCESS]); each is [uint32_t(-1)] when there is no such family. A
    family reported as [VK_TRUE] is never taken as present family. *)
Theorem find_queue_families_first_match :
  forall (queueFamilies : list VK.VkQueueFamily) (q : VK.QueueFamilyIndices),
    Z.of_nat (length queueFamilies) < 2 ^ 32 ->
    VK.find_queue_families 0 queueFamilies (VK.mkIndices VK.NONE VK.NONE) = inl q ->
    first_family graphics_capable queueFamilies (VK.graphicsFamily q)
    /\ first_family presentable queueFamilies (VK.presentFamily q)
    /\ (forall (j : nat) f,
          queueFamilies !! j = Some f ->
          VK.presentSupport f = VK.VK_TRUE ->
          VK.presentFamily q <> Z.of_nat j).
Proof.
  intros fams q Hlen H.
  destruct (find_queue_families_inl fams q Hlen H) as [Hg Hp].
  split; [exact Hg|]. split; [exact Hp|].
  intros j f Hj Ht E. pose proof (lookup_lt_Some _ _ _ Hj) as Hlt.
  destruct Hp as [[Hr _]|(j' & f' & Hr & Hj' & Hf' & _)].
  - rewrite Hr, NONE_value in E. lia.
  - rewrite Hr in E. simpl in E. apply Nat2Z.inj in E. subst j'.
    rewrite Hj in Hj'. injection Hj' as <-.
    unfold presentable in Hf'. rewrite Ht in Hf'. discriminate.
Qed.

Lemma first_family_found P fams r :
  first_family P fams r -> r <> VK.NONE ->
  exists f, fams !! Z.to_nat r = Some f /\ P f.
Proof.
  intros [[Hr _]|(j & f & Hr & Hj & Hf & _)] Hne; [contradiction|].
  exists f. simpl in Hr. rewrite Hr, Nat2Z.id. split; assumption.
Qed.

Lemma first_family_none P fams :
  Z.of_nat (length fams) < 2 ^ 32 ->
  first_family P fams VK.NONE -> forall f, In f fams -> ~ P f.
Proof.
  intros Hlen [[_ Hno]|(j & f & Hr & Hj & _)]; [exact Hno|].
  apply lookup_lt_Some in Hj. rewrite NONE_value in Hr. simpl in Hr. lia.
Qed.

Lemma select_loop_selected req : forall devs h q,
  Forall (fun d => Z.of_nat (length (VK.queueFamilies d)) < 2 ^ 32) devs ->
  VK.select_loop req devs = VK.Selected h q ->
  exists (k : nat) d,
    devs !! k = Some d /\ VK.handle d = h
    /\ (forall e, In e req -> In e (VK.supportedExts d))
    /\ VK.find_queue_families 0 (VK.queueFamilies d) (VK.mkIndices VK.NONE VK.NONE)
       = inl q
    /\ VK.graphicsFamily q <> VK.NONE /\ VK.presentFamily q <> VK.NONE
    /\ forall (j : nat) d', (j < k)%nat -> devs !! j = Some d' ->
                            ~ eligible_device req d'.
Proof.
  induction devs as [|d devs IH]; intros h q Hall H; simpl in H; [discriminate|].
  apply Forall_cons in Hall. destruct Hall as [Hd Hall].
  destruct (VK.vrEnumDeviceExtsCount d =? VK.VK_SUCCESS); simpl in H; [|discriminate].
  destruct (VK.vrEnumDeviceExts d =? VK.VK_SUCCESS); simpl in H; [|discriminate].
  assert (Hskip : ~ eligible_device req d ->
    VK.select_loop req devs = VK.Selected h q ->
    exists (k : nat) d0,
      (d :: devs) !! k = Some d0 /\ VK.handle d0 = h
      /\ (forall e, In e req -> In e (VK.supportedExts d0))
      /\ VK.find_queue_families 0 (VK.queueFamilies d0) (VK.mkIndices VK.NONE VK.NONE)
         = inl q
      /\ VK.graphicsFamily q <> VK.NONE /\ VK.presentFamily q <> VK.NONE
      /\ forall (j : nat) d', (j < k)%nat -> (d :: devs) !! j = Some d' ->
                              ~ eligible_device req d').
  { intros Hne Hsel.
    destruct (IH h q Hall Hsel) as (k & d0 & Hk & Hh & He & Hq & Hg & Hp & Hmin).
    exists (S k), d0. repeat (split; [assumption|]).
    intros [|j] d' Hj Hlk; simpl in Hlk.
    - injection Hlk as <-. exact Hne.
    - eapply Hmin; [|exact Hlk]. lia. }
  destruct (VK.all_required_supported req (VK.supportedExts d)) eqn:Ee; simpl in H.
  - pose proof (proj1 (all_required_supported_In _ _) Ee) as Hexts.
    destruct (VK.find_queue_families 0 (VK.queueFamilies d)
                (VK.mkIndices VK.NONE VK.NONE)) as [q'|vr] eqn:Eq; [|discriminate].
    destruct (find_queue_families_inl _ _ Hd Eq) as (Hg & Hp).
    destruct (VK.graphicsFamily q' =? VK.NONE) eqn:Eg; simpl in H.
    { apply Z.eqb_eq in Eg. rewrite Eg in Hg. apply Hskip; [|exact H].
      intros (_ & (f & Hf & Hgf) & _).
      exact (first_family_none _ _ Hd Hg f Hf Hgf). }
    destruct (VK.presentFamily q' =? VK.NONE) eqn:Ep; simpl in H.
    { apply Z.eqb_eq in Ep. rewrite Ep in Hp. apply Hskip; [|exact H].
      intros (_ & _ & (f & Hf & Hpf)).
      exact (first_family_none _ _ Hd Hp f Hf Hpf). }
    injection H as <- <-. apply Z.eqb_neq in Eg, Ep.
    exists 0%nat, d. repeat (split; [first [assumption|reflexivity]|]).
    intros j d' Hj. lia.
  - apply Hskip; [|exact H]. intros (He & _).
    apply (proj2 (all_required_supported_In _ _)) in He. congruence.
Qed.

(** X13. The physical device [main] goes on with is the first enumerated
    device that supports every required extension and has a graphics
    family and a present family (as the loop tests them); its handle is not
    null, and the two family indices stored for it are indices of queue
    families of that device which pass those tests. *)
Theorem select_physical_device_first_eligible :
  forall (vkDeviceReqExts : list string) (physicalDevices : list VK.VkPhysicalDevice)
         (physicalDevice : Z) (q : VK.QueueFamilyIndices),
    Forall (fun d => Z.of_nat (length (VK.queueFamilies d)) < 2 ^ 32) physicalDevices ->
    VK.select_physical_device vkDeviceReqExts physicalDevices
    = VK.Selected physicalDevice q ->
    exists (k : nat) d,
      physicalDevices !! k = Some d /\
      VK.handle d = physicalDevice /\
      physicalDevice <> VK.VK_NULL_HANDLE /\
      eligible_device vkDeviceReqExts d /\
      (exists fg, VK.queueFamilies d !! Z.to_nat (VK.graphicsFamily q) = Some fg
                  /\ graphics_capable fg) /\
      (exists fp, VK.queueFamilies d !! Z.to_nat (VK.presentFamily q) = Some fp
                  /\ presentable fp) /\
      forall (j : nat) d', (j < k)%nat -> physicalDevices !! j = Some d' ->
                           ~ eligible_device vkDeviceReqExts d'.
Proof.
  intros req devs h q Hall H. unfold VK.select_physical_device in H.
  destruct (VK.select_loop req devs) as [h' q'| |] eqn:Es; try discriminate.
  destruct (h' =? VK.VK_NULL_HANDLE) eqn:Eh; [discriminate|].
  injection H as <- <-. apply Z.eqb_neq in Eh.
  destruct (select_loop_selected req devs h' q' Hall Es)
    as (k & d & Hk & Hh & He & Hq & Hg & Hp & Hmin).
  assert (Hd : Z.of_nat (length (VK.queueFamilies d)) < 2 ^ 32).
  { rewrite Forall_forall in Hall. apply Hall.
    eapply list_elem_of_lookup_2. exact Hk. }
  destruct (find_queue_families_inl _ _ Hd Hq) as (Fg & Fp).
  destruct (first_family_found _ _ _ Fg Hg) as (fg & Hfg & Pg).
  destruct (first_family_found _ _ _ Fp Hp) as (fp & Hfp & Pp).
  exists k, d. split; [exact Hk|]. split; [exact Hh|]. split; [exact Eh|].
  split.
  { split; [exact He|]. split.
    - exists fg. split; [|exact Pg].
      eapply lookup_In. exact Hfg.
    - exists fp. split; [|exact Pp].
      eapply lookup_In. exact Hfp. }
  split; [exists fg; now split|]. split; [exists fp; now split|]. exact Hmin.
Qed.

Lemma select_loop_exit req : forall devs code log,
  VK.select_loop req devs = VK.Exit code log ->
  (code = VK.EXIT_SUCCESS
   /\ log = ["Physical Device Surface Support failed."%string]
   /\ exists d f, In d devs /\ In f (VK.queueFamilies d)
                  /\ VK.vrSupportKHR f <> VK.VK_SUCCESS)
  \/ (code = EXIT_FAILURE
      /\ (log = ["Enumerate Devices extensions count failed!"%string]
          \/ log = ["Enumerate Devices extensions failed!"%string])).
Proof.
  induction devs as [|d devs IH]; intros code log H; simpl in H; [discriminate|].
  assert (Hrest : VK.select_loop req devs = VK.Exit code log ->
    (code = VK.EXIT_SUCCESS
     /\ log = ["Physical Device Surface Support failed."%string]
     /\ exists d0 f, In d0 (d :: devs) /\ In f (VK.queueFamilies d0)
                     /\ VK.vrSupportKHR f <> VK.VK_SUCCESS)
    \/ (code = EXIT_FAILURE
        /\ (log = ["Enumerate Devices extensions count failed!"%string]
            \/ log = ["Enumerate Devices extensions failed!"%string]))).
  { intros Hr. destruct (IH _ _ Hr) as [(Hc & Hl & d0 & f & Hd0 & Hf)|Hfail].
    - left. split; [exact Hc|]. split; [exact Hl|]. exists d0, f.
      split; [now right|exact Hf].
    - now right. }
  destruct (VK.vrEnumDeviceExtsCount d =? VK.VK_SUCCESS); simpl in H.
  2:{ injection H as <- <-. right. split; [reflexivity|now left]. }
  destruct (VK.vrEnumDeviceExts d =? VK.VK_SUCCESS); simpl in H.
  2:{ injection H as <- <-. right. split; [reflexivity|now right]. }
  destruct (VK.all_required_supported req (VK.supportedExts d)); simpl in H;
    [|now apply Hrest].
  destruct (VK.find_queue_families 0 (VK.queueFamilies d)
              (VK.mkIndices VK.NONE VK.NONE)) as [q'|vr] eqn:Eq.
  - destruct ((VK.graphicsFamily q' =? VK.NONE) || (VK.presentFamily q' =? VK.NONE));
      [now apply Hrest|discriminate].
  - injection H as <- <-. left. split; [reflexivity|]. split; [reflexivity|].
    destruct (find_queue_families_failed _ _ _ _ Eq) as (f & Hf & Hv & Hne).
    exists d, f. split; [now left|]. split; [exact Hf|]. now rewrite Hv.
Qed.

(** X14. When device selection ends [main], the exit status is
    [EXIT_FAILURE] with one exception: a failed
    [vkGetPhysicalDeviceSurfaceSupportKHR] is logged as an error and
    [main] returns [EXIT_SUCCESS]. *)
Theorem select_physical_device_exit_codes :
  forall (vkDeviceReqExts : list string) (physicalDevices : list VK.VkPhysicalDevice)
         (code : Z) (log : list string),
    VK.select_physical_device vkDeviceReqExts physicalDevices = VK.Exit code log ->
    (code = VK.EXIT_SUCCESS
     /\ log = ["Physical Device Surface Support failed."%string]
     /\ exists d f, In d physicalDevices /\ In f (VK.queueFamilies d)
                    /\ VK.vrSupportKHR f <> VK.VK_SUCCESS)
    \/ (code = EXIT_FAILURE
        /\ (log = ["Enumerate Devices extensions count failed!"%string]
            \/ log = ["Enumerate Devices extensions failed!"%string]
            \/ log = ["No suitable PhysicalDevice found."%string])).
Proof.
  intros req devs code log H. unfold VK.select_physical_device in H.
  destruct (VK.select_loop req devs) as [h' q'| |code' log'] eqn:Es.
  - destruct (h' =? VK.VK_NULL_HANDLE); [|discriminate].
    injection H as <- <-. right. split; [reflexivity|]. now right; right.
  - injection H as <- <-. right. split; [reflexivity|]. now right; right.
  - injection H as <- <-.
    destruct (select_loop_exit _ _ _ _ Es) as [Hs|[Hc [Hl|Hl]]].
    + now left.
    + right. split; [exact Hc|]. now left.
    + right. split; [exact Hc|]. right. now left.
Qed.

Lemma preferred_format_spec first : forall formats,
  (exists (j : nat) f,
      VK.preferred_format formats first = f
      /\ formats !! j = Some f /\ preferred_surface_format f
      /\ forall (m : nat) f', (m < j)%nat -> formats !! m = Some f' ->
                              ~ preferred_surface_format f')
  \/ (VK.preferred_format formats first = first
      /\ forall f, In f formats -> ~ preferred_surface_format f).
Proof.
  induction formats as [|a rest IH]; simpl.
  - right. split; [reflexivity|]. intros f [].
  - destruct (VK.format a =? VK.VK_FORMAT_B8G8R8A8_SRGB) eqn:Ef;
      [destruct (VK.colorSpace a =? VK.VK_COLOR_SPACE_SRGB_NONLINEAR_KHR) eqn:Ec|];
      simpl.
    + left. exists 0%nat, a. split; [reflexivity|]. split; [reflexivity|].
      split; [split; now apply Z.eqb_eq|]. intros m f' Hm. lia.
    + assert (Ha : ~ preferred_surface_format a)
        by (intros [_ Hc]; apply Z.eqb_neq in Ec; contradiction).
      destruct IH as [(j & f & E & Hj & Hp & Hmin)|[E Hno]].
      * left. exists (S j), f. split; [exact E|]. split; [exact Hj|].
        split; [exact Hp|]. intros [|m] f' Hm Hlk; simpl in Hlk.
        -- now injection Hlk as <-.
        -- eapply Hmin; [|exact Hlk]. lia.
      * right. split; [exact E|]. intros f [<-|Hf]; [exact Ha|now apply Hno].
    + assert (Ha : ~ preferred_surface_format a)
        by (intros [Hc _]; apply Z.eqb_neq in Ef; contradiction).
      destruct IH as [(j & f & E & Hj & Hp & Hmin)|[E Hno]].
      * left. exists (S j), f. split; [exact E|]. split; [exact Hj|].
        split; [exact Hp|]. intros [|m] f' Hm Hlk; simpl in Hlk.
        -- now injection Hlk as <-.
        -- eapply Hmin; [|exact Hlk]. lia.
      * right. split; [exact E|]. intros f [<-|Hf]; [exact Ha|now apply Hno].
Qed.

(** X15. The swapchain format is read from [formats[0]], so the choice is
    undefined exactly for an empty list; otherwise it is an element of the
    list: the first B8G8R8A8_SRGB / SRGB_NONLINEAR entry if there is one,
    and the first entry if there is none. *)
Theorem ChooseSwapSurfaceFormat_first_preferred :
  forall (formats : list VK.VkSurfaceFormatKHR),
    (VK.ChooseSwapSurfaceFormat formats = None <-> formats = [])
    /\ forall swapchainFormat,
         VK.ChooseSwapSurfaceFormat formats = Some swapchainFormat ->
         In swapchainFormat formats
         /\ ((exists (j : nat),
                 formats !! j = Some swapchainFormat
                 /\ preferred_surface_format swapchainFormat
                 /\ forall (m : nat) f', (m < j)%nat -> formats !! m = Some f' ->
                                         ~ preferred_surface_format f')
             \/ (formats !! 0%nat = Some swapchainFormat
                 /\ forall f, In f formats -> ~ preferred_surface_format f)).
Proof.
  intros formats. unfold VK.ChooseSwapSurfaceFormat. split.
  - destruct formats as [|a rest]; simpl; split; congruence.
  - intros sf H. destruct (formats !! 0%nat) as [first|] eqn:E0; [|discriminate].
    injection H as <-.
    destruct (preferred_format_spec first formats)
      as [(j & f & E & Hj & Hp & Hmin)|[E Hno]]; rewrite E.
    + split; [eapply lookup_In; exact Hj|].
      left. exists j. split; [exact Hj|]. split; [exact Hp|exact Hmin].
    + split; [eapply lookup_In; exact E0|].
      right. now split.
Qed.

(** X16. The present mode is MAILBOX when the surface offers it and FIFO
    otherwise, whether or not FIFO is among the modes offered. *)
Theorem ChooseSwapPresentMode_mailbox_or_fifo :
  forall (presentModes : list Z),
    (In VK.VK_PRESENT_MODE_MAILBOX_KHR presentModes ->
     VK.ChooseSwapPresentMode presentModes = VK.VK_PRESENT_MODE_MAILBOX_KHR)
    /\ (~ In VK.VK_PRESENT_MODE_MAILBOX_KHR presentModes ->
        VK.ChooseSwapPresentMode presentModes = VK.VK_PRESENT_MODE_FIFO_KHR).
Proof.
  induction presentModes as [|m rest [IH1 IH2]]; simpl.
  - split; [intros []|reflexivity].
  - destruct (m =? VK.VK_PRESENT_MODE_MAILBOX_KHR) eqn:E.
    + apply Z.eqb_eq in E. split; [intros _; exact E|]. intros H. exfalso. apply H. now left.
    + apply Z.eqb_neq in E. split.
      * intros [H|H]; [contradiction|now apply IH1].
      * intros H. apply IH2. intros Hin. apply H. now right.
Qed.

(** ** Instances *)

Lemma frame_begin_round_robin_witness :
  let envs := [Frame.mkEnv 0 0 1 false false false;
               Frame.mkEnv 1 0 1 false false false;
               Frame.mkEnv 2 0 1 false false false;
               Frame.mkEnv 0 1 1 false false false] in
  let env := Frame.mkEnv 1 0 1 false false false in
  Z.of_nat (S (length envs)) < 2 ^ 32 /\
  Frame.round_robin (envs ++ [env]) /\
  Forall Frame.no_failure (envs ++ [env]) /\
  exists s s1 f1,
    let k := S (length envs) in
    let polled :=
      Frame.calls s ++ [Frame.GetCurrentBackBufferIndex ((k - 1) mod 3);
                        Frame.GetCompletedValue f1] in
    Frame.run envs Frame.init = Frame.Continue s /\
    Frame.frame_begin env s = Frame.Continue s1 /\
    f1 = snd (Frame.gpu_run (Frame.gpuProgress env) (Frame.queue s) (Frame.fence s)) /\
    ((k <= 3)%nat -> Frame.calls s1 = polled /\ Frame.clock s1 = Frame.clock s) /\
    ((4 <= k)%nat ->
     exists s3,
       Frame.run (take (k - 3) envs) Frame.init = Frame.Continue s3 /\
       Frame.last_signaled s3 = Some (Z.of_nat (k - 3)) /\
       Frame.swapchainFenceValues s !! Frame.backBuffer env
       = Some (Z.of_nat (k - 3)) /\
       Z.of_nat (k - 3) <= Frame.fence s1 /\
       (f1 < Z.of_nat (k - 3) ->
        Frame.calls s1
        = polled ++ [Frame.SetEventOnCompletion (Z.of_nat (k - 3));
                     Frame.WaitForSingleObjectEx_INFINITE]
        /\ Frame.fence s1 = Z.of_nat (k - 3)) /\
       (Z.of_nat (k - 3) <= f1 ->
        Frame.calls s1 = polled /\ Frame.clock s1 = Frame.clock s)).
Proof.
  intros envs env.
  assert (Hk : Z.of_nat (S (length envs)) < 2 ^ 32) by (simpl; lia).
  assert (Hrr : Frame.round_robin (envs ++ [env])).
  { intros j e H.
    do 5 (destruct j as [|j]; [simpl in H; injection H as <-; reflexivity|]).
    discriminate. }
  assert (Hnf : Forall Frame.no_failure (envs ++ [env]))
    by (repeat constructor).
  split; [exact Hk|]. split; [exact Hrr|]. split; [exact Hnf|].
  exact (frame_begin_round_robin envs env Hk Hrr Hnf).
Defined.

Lemma reset_after_fence_witness :
  let envs := [Frame.mkEnv 0 0 1 false false false;
               Frame.mkEnv 1 0 1 false false false;
               Frame.mkEnv 2 0 1 false false false] in
  let env := Frame.mkEnv 0 0 1000 false false false in
  let s := three_frames_in_flight in
  let s1 := fourth_begin_done in
  Z.of_nat (S (length envs)) < 2 ^ 32 /\
  Frame.run envs Frame.init = Frame.Continue s /\
  Frame.frame_begin env s = Frame.Continue s1 /\
  exists target,
    let i := Frame.backBuffer env in
    Frame.swapchainFenceValues s !! i = Some target /\
    target <= Frame.fence s1 /\
    Frame.calls (Frame.frame_record s1)
    = Frame.calls s1 ++ [Frame.ResetAllocator i; Frame.ResetCommandList i;
                         Frame.CloseCommandList i;
                         Frame.QueueExecuteCommandLists i] /\
    ~ In (Frame.ExecuteCommandLists i) (Frame.queue s1) /\
    (forall v, In (Frame.Signal v) (Frame.queue s1) -> target < v) /\
    ((target = 0 /\ ~ In i (map Frame.backBuffer envs))
     \/ exists (m : nat) s_m,
          (1 <= m <= length envs)%nat /\ target = Z.of_nat m /\
          Frame.run (take m envs) Frame.init = Frame.Continue s_m /\
          Frame.swapchainFrameIndex s_m = i /\
          Frame.last_signaled s_m = Some target /\
          forall j e, (m <= j)%nat -> envs !! j = Some e ->
                      Frame.backBuffer e <> i).
Proof.
  intros envs env s s1.
  assert (Hk : Z.of_nat (S (length envs)) < 2 ^ 32) by (simpl; lia).
  assert (Hs : Frame.run envs Frame.init = Frame.Continue s)
    by (vm_compute; reflexivity).
  assert (Hb : Frame.frame_begin env s = Frame.Continue s1)
    by (vm_compute; reflexivity).
  split; [exact Hk|]. split; [exact Hs|]. split; [exact Hb|].
  exact (reset_after_fence envs env s s1 Hk Hs Hb).
Defined.

Lemma texture_upload_mip_chain_witness :
  let d := idle_device in
  let MipLevels := 3 in
  let _extents := [SA.mkVec2ui 4 4; SA.mkVec2ui 2 2; SA.mkVec2ui 1 1] in
  let _totalSize := 84 in
  let _channelNum := 4 in
  let bytes := replicate 84 Byte.x00 in
  let _stateAfter := Upload.D3D12_RESOURCE_STATE_PIXEL_SHADER_RESOURCE in
  let W := 4 in let H := 4 in let t := 0 in let c := 4 in let l := 1 in
  let data := replicate 64 Byte.x00 in
  let ok := fun _ _ : nat => true in
  0 <= MipLevels < 2 ^ 16 /\
  (Z.to_nat MipLevels <= length _extents)%nat /\
  _totalSize <= Z.of_nat (length bytes) /\
  1 <= W < 2 ^ 32 /\ 1 <= H < 2 ^ 32 /\
  (exists copies d',
      Upload.SubmitTextureToGPU d MipLevels _extents _totalSize _channelNum
        (Some bytes) _stateAfter false true = Upload.Returned (true, d') /\
      Upload.executed d'
      = Upload.executed d
        ++ [Upload.cmdList0 d ++ copies ++ [Upload.ResourceBarrier _stateAfter]] /\
      length copies = Z.to_nat MipLevels /\
      forall i : nat, (i < Z.to_nat MipLevels)%nat ->
        exists e,
          _extents !! i = Some e /\
          copies !! i
          = Some (Upload.CopyTextureRegion (Z.of_nat i)
                    (u64 (sumZ (map (fun e' => Upload.level_bytes e' _channelNum)
                                  (take i _extents))))
                    (SA.x e) (SA.y e) (u32 (SA.x e * _channelNum))) /\
          (Forall (fun e' => 0 <= SA.x e' * SA.y e' * _channelNum < 2 ^ 32)
             (take i _extents) ->
           u64 (sumZ (map (fun e' => Upload.level_bytes e' _channelNum)
                        (take i _extents)))
           = sumZ (map (fun e' => SA.x e' * SA.y e' * _channelNum)
                     (take i _extents)))) /\
  (exists r,
      Mip.GenerateMipMaps (SA.mkVec2ui W H) data t c l ok = Some r /\
      Mip.outMipLevels r = Z.log2 (Z.max W H) + 1 /\
      2 ^ (Mip.outMipLevels r - 1) <= Z.max W H < 2 ^ Mip.outMipLevels r /\
      length (Mip.outExtents r) = Z.to_nat (Mip.outMipLevels r) /\
      Mip.outExtents r !! 0%nat = Some (SA.mkVec2ui W H) /\
      forall (i : nat) ei,
        Mip.outExtents r !! i = Some ei ->
        (S i < Z.to_nat (Mip.outMipLevels r))%nat ->
        Mip.outExtents r !! S i
        = Some (SA.mkVec2ui (Z.max 1 (SA.x ei / 2)) (Z.max 1 (SA.y ei / 2)))).
Proof.
  intros d MipLevels _extents _totalSize _channelNum bytes _stateAfter
         W H t c l data ok.
  assert (H1 : 0 <= MipLevels < 2 ^ 16) by (unfold MipLevels; lia).
  assert (H2 : (Z.to_nat MipLevels <= length _extents)%nat) by (simpl; lia).
  assert (H3 : _totalSize <= Z.of_nat (length bytes)) by (vm_compute; discriminate).
  assert (H4 : 1 <= W < 2 ^ 32) by (unfold W; lia).
  assert (H5 : 1 <= H < 2 ^ 32) by (unfold H; lia).
  split; [exact H1|]. split; [exact H2|]. split; [exact H3|].
  split; [exact H4|]. split; [exact H5|].
  exact (texture_upload_mip_chain d MipLevels _extents _totalSize _channelNum
           bytes _stateAfter W H t c l data ok H1 H2 H3 H4 H5).
Defined.



Lemma GenerateMipMaps_resizes_in_place_witness :
  let W := 4 in
  let H := 2 in
  let C := 4 in
  let data : list Byte.byte := [] in
  let ok : nat -> nat -> bool := fun _ _ => true in
  1 <= W < 2 ^ 32 /\ 1 <= H < 2 ^ 32 /\ 0 <= C /\
  floor_chain_size W H C (chain_levels W H) < 2 ^ 32 /\
  exists r calls flag,
    Mip.GenerateMipMaps (SA.mkVec2ui W H) data 0 C 1 ok = Some r /\
    MipLayout.resize_calls (SA.mkVec2ui W H) 0 C 1 ok = Some (calls, flag) /\
    (flag = true <-> Mip.log r = []) /\
    (flag = true -> Z.of_nat (length calls) = Mip.outMipLevels r - 1) /\
    Z.of_nat (length (Mip.data r)) = Mip.outTotalSize r /\
    forall (k : nat) call, calls !! k = Some call ->
      exists es ed,
        Mip.outExtents r !! k = Some es /\ Mip.outExtents r !! S k = Some ed /\
        MipLayout.src_extent call = es /\ MipLayout.dst_extent call = ed /\
        MipLayout.src call = level_start (Mip.outExtents r) C k /\
        MipLayout.dst call = MipLayout.src call + SA.x es * SA.y es * C /\
        0 <= MipLayout.src call /\
        MipLayout.dst call + SA.x ed * SA.y ed * C <= Mip.outTotalSize r.
Proof.
  cbv zeta.
  assert (Hfit : floor_chain_size 4 2 4 (chain_levels 4 2) < 2 ^ 32)
    by (vm_compute; reflexivity).
  split; [lia|]. split; [lia|]. split; [lia|]. split; [exact Hfit|].
  apply (GenerateMipMaps_resizes_in_place 4 2 4 [] (fun _ _ => true));
    [lia|lia|lia|exact Hfit].
Defined.

Lemma load_texture_copies_generated_levels_witness :
  let d := idle_device in
  let width := 2 in
  let height := 2 in
  let channels := 4 in
  let bytes := replicate 16 Byte.x00 in
  let ok : nat -> nat -> bool := fun _ _ => true in
  let create_msg := "Create RustedIron2 Albedo Texture failed!"%string in
  let submit_msg := "RustedIron2 Albedo Texture submit failed!"%string in
  1 <= width /\ 1 <= height /\ 1 <= channels /\
  width * height * channels < 2 ^ 31 /\
  width * height * channels <= Z.of_nat (length bytes) /\
  floor_chain_size width height channels (chain_levels width height) < 2 ^ 32 /\
  exists r calls flag copies d',
    Mip.GenerateMipMaps (SA.mkVec2ui width height)
      (take (Z.to_nat (width * height * channels)) bytes) 0 channels 1 ok = Some r /\
    MipLayout.resize_calls (SA.mkVec2ui width height) 0 channels 1 ok
    = Some (calls, flag) /\
    TextureSite.load_texture d width height channels (Some bytes) ok
      false false true create_msg submit_msg
    = Upload.Returned (None, d') /\
    Upload.executed d'
    = Upload.executed d
      ++ [Upload.cmdList0 d ++ copies
          ++ [Upload.ResourceBarrier Upload.D3D12_RESOURCE_STATE_PIXEL_SHADER_RESOURCE]] /\
    Z.of_nat (length copies) = Mip.outMipLevels r /\
    (forall (i : nat) e, Mip.outExtents r !! i = Some e ->
       copies !! i
       = Some (Upload.CopyTextureRegion (Z.of_nat i)
                 (level_start (Mip.outExtents r) channels i)
                 (SA.x e) (SA.y e) (SA.x e * channels))
       /\ 0 <= level_start (Mip.outExtents r) channels i
       /\ level_start (Mip.outExtents r) channels i + SA.x e * SA.y e * channels
          <= Mip.outTotalSize r) /\
    (forall (k : nat) call, calls !! k = Some call ->
       copies !! S k
       = Some (Upload.CopyTextureRegion (Z.of_nat (S k)) (MipLayout.dst call)
                 (SA.x (MipLayout.dst_extent call)) (SA.y (MipLayout.dst_extent call))
                 (SA.x (MipLayout.dst_extent call) * channels))).
Proof.
  cbv zeta.
  assert (Hbytes : 2 * 2 * 4 <= Z.of_nat (length (replicate 16 Byte.x00)))
    by (vm_compute; discriminate).
  assert (Hfit : floor_chain_size 2 2 4 (chain_levels 2 2) < 2 ^ 32)
    by (vm_compute; reflexivity).
  split; [lia|]. split; [lia|]. split; [lia|]. split; [lia|].
  split; [exact Hbytes|]. split; [exact Hfit|].
  apply (load_texture_copies_generated_levels idle_device 2 2 4
           (replicate 16 Byte.x00) (fun _ _ => true));
    [lia|lia|lia|lia|exact Hbytes|exact Hfit].
Defined.

Lemma first_WaitDeviceIdle_does_not_wait_witness :
  let gpuProgress := 0%nat in
  let s := Idle.mkQueue 0 [Frame.ExecuteCommandLists 0] 0 in
  Idle.deviceFenceValue s = 0 /\
  0 <= Idle.deviceFence s /\
  (forall w, In (Frame.Signal w) (Idle.pending s) -> 0 <= w) /\
  exists s',
    Idle.WaitDeviceIdle gpuProgress s = Some (s', 0%nat) /\
    Idle.pending s'
    = fst (Frame.gpu_run gpuProgress (Idle.pending s ++ [Frame.Signal 0])
             (Idle.deviceFence s)) /\
    Idle.deviceFenceValue s' = 1 /\
    (gpuProgress = 0%nat ->
     Idle.pending s' = Idle.pending s ++ [Frame.Signal 0]
     /\ Idle.deviceFence s' = Idle.deviceFence s).
Proof.
  cbv zeta.
  assert (Hq : forall w,
             In (Frame.Signal w)
               (Idle.pending (Idle.mkQueue 0 [Frame.ExecuteCommandLists 0] 0)) ->
             0 <= w).
  { intros w [Hw|[]]. discriminate Hw. }
  split; [reflexivity|]. split; [simpl; lia|]. split; [exact Hq|].
  apply (first_WaitDeviceIdle_does_not_wait 0
           (Idle.mkQueue 0 [Frame.ExecuteCommandLists 0] 0));
    [reflexivity|simpl; lia|exact Hq].
Defined.

Lemma uploads_after_the_first_leave_the_queue_idle_witness :
  let first := 0%nat in
  let rest := [0%nat; 1%nat] in
  rest <> [] /\
  Z.of_nat (length rest) < 2 ^ 32 - 1 /\
  exists s1,
    Idle.execute_and_wait first Idle.init = Some (s1, 0%nat) /\
    Idle.pending s1
    = drop first [Frame.ExecuteCommandLists 0; Frame.Signal 0] /\
    Idle.uploads (first :: rest) Idle.init
    = Some (Idle.mkQueue (Z.of_nat (length rest)) [] (Z.of_nat (length rest) + 1)).
Proof.
  cbv zeta.
  assert (Hne : [0%nat; 1%nat] <> []) by discriminate.
  assert (Hlen : Z.of_nat (length [0%nat; 1%nat]) < 2 ^ 32 - 1) by (simpl; lia).
  split; [exact Hne|]. split; [exact Hlen|].
  exact (uploads_after_the_first_leave_the_queue_idle 0 [0%nat; 1%nat] Hne Hlen).
Defined.

Lemma at_most_three_frames_in_flight_witness :
  let envs := [Frame.mkEnv 0 0 1 false false false;
               Frame.mkEnv 1 0 1 false false false;
               Frame.mkEnv 2 0 1 false false false] in
  let s := three_frames_in_flight in
  Z.of_nat (length envs) < 2 ^ 32 /\
  Frame.round_robin envs /\
  Frame.run envs Frame.init = Frame.Continue s /\
  (frames_in_flight (Frame.queue s) <= Frame.bufferingCount)%nat /\
  Z.of_nat (length envs) - 3 <= Frame.fence s <= Z.of_nat (length envs).
Proof.
  intros envs s.
  assert (Hn : Z.of_nat (length envs) < 2 ^ 32) by (simpl; lia).
  assert (Hrr : Frame.round_robin envs).
  { intros j e Hj.
    do 3 (destruct j as [|j]; [simpl in Hj; injection Hj as <-; reflexivity|]).
    discriminate. }
  assert (Hr : Frame.run envs Frame.init = Frame.Continue s)
    by (vm_compute; reflexivity).
  split; [exact Hn|]. split; [exact Hrr|]. split; [exact Hr|].
  exact (at_most_three_frames_in_flight envs s Hn Hrr Hr).
Defined.

Lemma render_loop_never_blocks_witness :
  let envs := [Frame.mkEnv 2 0 1 false false false;
               Frame.mkEnv 0 1 1 false false false;
               Frame.mkEnv 2 0 1 false false false;
               Frame.mkEnv 1 5 1 false false false] in
  Z.of_nat (length envs) < 2 ^ 32 /\
  Forall (fun env => (Frame.backBuffer env < Frame.bufferingCount)%nat
                     /\ Frame.no_failure env) envs /\
  exists s,
    Frame.run envs Frame.init = Frame.Continue s /\
    Frame.log s = [] /\
    Frame.last_signaled s = Some (Z.of_nat (length envs)) /\
    0 <= Frame.fence s <= Z.of_nat (length envs) /\
    Z.of_nat (frames_in_flight (Frame.queue s))
    <= Z.of_nat (length envs) - Frame.fence s.
Proof.
  intros envs.
  assert (Hn : Z.of_nat (length envs) < 2 ^ 32) by (simpl; lia).
  assert (Hall : Forall (fun env => (Frame.backBuffer env < Frame.bufferingCount)%nat
                                    /\ Frame.no_failure env) envs).
  { repeat constructor; simpl; unfold Frame.bufferingCount; lia. }
  split; [exact Hn|]. split; [exact Hall|].
  exact (render_loop_never_blocks envs Hn Hall).
Defined.

Lemma frame_view_matches_created_view_witness :
  let start := 4096 in
  let rtvOffset := 32 in
  let swapchainFrameIndex := 2%nat in
  0 <= start < 2 ^ 64 /\
  0 <= rtvOffset < 2 ^ 32 /\
  (swapchainFrameIndex < Frame.bufferingCount)%nat /\
  exists handle,
    Descriptors.create_views Frame.bufferingCount 0 start rtvOffset
      !! swapchainFrameIndex
    = Some (Z.of_nat swapchainFrameIndex, handle) /\
    (Descriptors.frame_view start rtvOffset (Z.of_nat swapchainFrameIndex) = handle
     <-> rtvOffset * Z.of_nat swapchainFrameIndex < 2 ^ 32).
Proof.
  cbv zeta.
  assert (Hi : (2 < Frame.bufferingCount)%nat) by (unfold Frame.bufferingCount; lia).
  split; [lia|]. split; [lia|]. split; [exact Hi|].
  apply (frame_view_matches_created_view 4096 32 2); [lia|lia|exact Hi].
Defined.

Lemma build_indices_flattens_faces_witness :
  let mNumFaces := 2 in
  let mFaces := [[0; 1; 2]; [2; 1; 65539; 7]] in
  mNumFaces = Z.of_nat (length mFaces) /\
  3 * mNumFaces < 2 ^ 32 /\
  Forall (fun f => (3 <= length f)%nat) mFaces /\
  exists b,
    Mesh.build_indices mNumFaces mFaces = Some b /\
    Mesh.indices b = concat (map triangle mFaces) /\
    Z.of_nat (length (Mesh.indices b)) = 3 * mNumFaces /\
    Mesh.sphereIndexCount b = Z.of_nat (length (Mesh.indices b)) /\
    Mesh.Width b = 2 * Z.of_nat (length (Mesh.indices b)) /\
    (Forall (fun f => length f = 3%nat /\ Forall (fun v => 0 <= v < 2 ^ 16) f) mFaces ->
     Mesh.indices b = concat mFaces).
Proof.
  cbv zeta.
  assert (Hall : Forall (fun f : list Z => (3 <= length f)%nat)
                   [[0; 1; 2]; [2; 1; 65539; 7]])
    by (repeat constructor; simpl; lia).
  split; [reflexivity|]. split; [lia|]. split; [exact Hall|].
  apply (build_indices_flattens_faces 2 [[0; 1; 2]; [2; 1; 65539; 7]]);
    [reflexivity|lia|exact Hall].
Defined.

Lemma build_indices_needs_three_indices_per_face_witness :
  let mNumFaces := 2 in
  let mFaces := [[0; 1; 2]; [2; 1]] in
  let j := 1%nat in
  let f := [2; 1] in
  mNumFaces = Z.of_nat (length mFaces) /\
  mNumFaces < 2 ^ 32 /\
  mFaces !! j = Some f /\ (length f < 3)%nat /\
  Mesh.build_indices mNumFaces mFaces = None.
Proof.
  cbv zeta.
  split; [reflexivity|]. split; [lia|]. split; [reflexivity|]. split; [simpl; lia|].
  apply (build_indices_needs_three_indices_per_face 2 [[0; 1; 2]; [2; 1]] 1 [2; 1]);
    [reflexivity|lia|reflexivity|simpl; lia].
Defined.

Lemma FindMemoryType_first_fit_witness :
  let mp := VK.mkMemProperties 3 [1; 6; 7] in
  let typeFilter := 6 in
  let properties := 2 in
  0 <= VK.memoryTypeCount mp <= VK.VK_MAX_MEMORY_TYPES /\
  (Z.to_nat (VK.memoryTypeCount mp) <= length (VK.memoryTypes mp))%nat /\
  exists r log,
    VK.FindMemoryType mp typeFilter properties = Some (r, log) /\
    ((exists j : nat,
         r = Z.of_nat j /\ r < VK.memoryTypeCount mp /\ log = [] /\
         suitable_memory_type mp typeFilter properties j /\
         forall m, (m < j)%nat -> ~ suitable_memory_type mp typeFilter properties m)
     \/ (r = 2 ^ 32 - 1 /\
         log = ["Failed to find suitable memory type!"%string] /\
         forall m, Z.of_nat m < VK.memoryTypeCount mp ->
                   ~ suitable_memory_type mp typeFilter properties m)).
Proof.
  intros mp typeFilter properties.
  assert (Hc : 0 <= VK.memoryTypeCount mp <= VK.VK_MAX_MEMORY_TYPES)
    by (unfold VK.VK_MAX_MEMORY_TYPES; simpl; lia).
  assert (Hl : (Z.to_nat (VK.memoryTypeCount mp) <= length (VK.memoryTypes mp))%nat)
    by (simpl; lia).
  split; [exact Hc|]. split; [exact Hl|].
  exact (FindMemoryType_first_fit mp typeFilter properties Hc Hl).
Defined.

Lemma find_queue_families_first_match_witness :
  let queueFamilies := [VK.mkFamily 2 0 1; VK.mkFamily 3 0 1; VK.mkFamily 4 0 0] in
  let q := VK.mkIndices 1 2 in
  Z.of_nat (length queueFamilies) < 2 ^ 32 /\
  VK.find_queue_families 0 queueFamilies (VK.mkIndices VK.NONE VK.NONE) = inl q /\
  first_family graphics_capable queueFamilies (VK.graphicsFamily q)
  /\ first_family presentable queueFamilies (VK.presentFamily q)
  /\ (forall (j : nat) f,
        queueFamilies !! j = Some f ->
        VK.presentSupport f = VK.VK_TRUE ->
        VK.presentFamily q <> Z.of_nat j).
Proof.
  intros queueFamilies q.
  assert (Hn : Z.of_nat (length queueFamilies) < 2 ^ 32) by (simpl; lia).
  assert (Hq : VK.find_queue_families 0 queueFamilies (VK.mkIndices VK.NONE VK.NONE)
               = inl q) by (vm_compute; reflexivity).
  split; [exact Hn|]. split; [exact Hq|].
  exact (find_queue_families_first_match queueFamilies q Hn Hq).
Defined.

Lemma select_physical_device_first_eligible_witness :
  let vkDeviceReqExts := ["VK_KHR_swapchain"%string] in
  let physicalDevices :=
    [VK.mkPhysicalDevice 11 0 0 ["VK_KHR_maintenance1"%string] [VK.mkFamily 1 0 0];
     VK.mkPhysicalDevice 12 0 0 ["VK_KHR_swapchain"%string]
       [VK.mkFamily 2 0 1; VK.mkFamily 3 0 1; VK.mkFamily 4 0 0]] in
  let physicalDevice := 12 in
  let q := VK.mkIndices 1 2 in
  Forall (fun d => Z.of_nat (length (VK.queueFamilies d)) < 2 ^ 32) physicalDevices /\
  VK.select_physical_device vkDeviceReqExts physicalDevices
  = VK.Selected physicalDevice q /\
  exists (k : nat) d,
    physicalDevices !! k = Some d /\
    VK.handle d = physicalDevice /\
    physicalDevice <> VK.VK_NULL_HANDLE /\
    eligible_device vkDeviceReqExts d /\
    (exists fg, VK.queueFamilies d !! Z.to_nat (VK.graphicsFamily q) = Some fg
                /\ graphics_capable fg) /\
    (exists fp, VK.queueFamilies d !! Z.to_nat (VK.presentFamily q) = Some fp
                /\ presentable fp) /\
    forall (j : nat) d', (j < k)%nat -> physicalDevices !! j = Some d' ->
                         ~ eligible_device vkDeviceReqExts d'.
Proof.
  intros req devs h q.
  assert (Hall : Forall (fun d => Z.of_nat (length (VK.queueFamilies d)) < 2 ^ 32) devs)
    by (repeat constructor; simpl; lia).
  assert (Hs : VK.select_physical_device req devs = VK.Selected h q)
    by (vm_compute; reflexivity).
  split; [exact Hall|]. split; [exact Hs|].
  exact (select_physical_device_first_eligible req devs h q Hall Hs).
Defined.

Lemma select_physical_device_exit_codes_witness :
  let vkDeviceReqExts := ["VK_KHR_swapchain"%string] in
  let physicalDevices :=
    [VK.mkPhysicalDevice 12 0 0 ["VK_KHR_swapchain"%string]
       [VK.mkFamily 1 0 1; VK.mkFamily 1 (-3) 0]] in
  let code := VK.EXIT_SUCCESS in
  let log := ["Physical Device Surface Support failed."%string] in
  VK.select_physical_device vkDeviceReqExts physicalDevices = VK.Exit code log /\
  ((code = VK.EXIT_SUCCESS
    /\ log = ["Physical Device Surface Support failed."%string]
    /\ exists d f, In d physicalDevices /\ In f (VK.queueFamilies d)
                   /\ VK.vrSupportKHR f <> VK.VK_SUCCESS)
   \/ (code = EXIT_FAILURE
       /\ (log = ["Enumerate Devices extensions count failed!"%string]
           \/ log = ["Enumerate Devices extensions failed!"%string]
           \/ log = ["No suitable PhysicalDevice found."%string]))).
Proof.
  intros req devs code log.
  assert (Hs : VK.select_physical_device req devs = VK.Exit code log)
    by (vm_compute; reflexivity).
  split; [exact Hs|].
  exact (select_physical_device_exit_codes req devs code log Hs).
Defined.

Lemma SubmitTextureToGPU_needs_an_extent_per_level_witness :
  let d := idle_device in
  let MipLevels := 3 in
  let _extents := [SA.mkVec2ui 2 2; SA.mkVec2ui 1 1] in
  let _totalSize := 20 in
  let _channelNum := 4 in
  let _data := Some (replicate 20 Byte.x00) in
  let _stateAfter := Upload.D3D12_RESOURCE_STATE_PIXEL_SHADER_RESOURCE in
  let map_ok := true in
  Z.of_nat (length _extents) < MipLevels < 2 ^ 16 /\
  Upload.SubmitTextureToGPU d MipLevels _extents _totalSize _channelNum _data
    _stateAfter false map_ok
  = Upload.Undefined.
Proof.
  intros d MipLevels _extents _totalSize _channelNum _data _stateAfter map_ok.
  assert (HM : Z.of_nat (length _extents) < MipLevels < 2 ^ 16)
    by (unfold MipLevels; simpl; lia).
  split; [exact HM|].
  exact (SubmitTextureToGPU_needs_an_extent_per_level d MipLevels _extents
           _totalSize _channelNum _data _stateAfter map_ok HM).
Defined.

Lemma GenerateMipMaps_chain_ends_at_1x1_witness :
  let W := 5 in
  let H := 3 in
  let data : list Byte.byte := [] in
  let t := 7 in
  let c := 4 in
  let l := 1 in
  let ok : nat -> nat -> bool := fun _ _ => true in
  1 <= W < 2 ^ 32 /\ 1 <= H < 2 ^ 32 /\
  exists r,
    Mip.GenerateMipMaps (SA.mkVec2ui W H) data t c l ok = Some r /\
    last (Mip.outExtents r) = Some (SA.mkVec2ui 1 1) /\
    forall (i : nat) e,
      (S i < length (Mip.outExtents r))%nat ->
      Mip.outExtents r !! i = Some e ->
      2 <= Z.max (SA.x e) (SA.y e).
Proof.
  cbv zeta.
  split; [lia|]. split; [lia|].
  apply (GenerateMipMaps_chain_ends_at_1x1 5 3 [] 7 4 1 (fun _ _ => true)); lia.
Defined.
